(** * The transaction-log iterator of yb/rocksdb/db/transaction_log_impl.{h,cc}

    A shallow embedding of [TransactionLogIteratorImpl]: the iterator that
    replays write batches from a list of write-ahead-log files in sequence
    order.  The C++ object is a record [State]; member functions are
    computations in a small state-and-failure monad.  The member functions
    [UpdateCurrentWriteBatch], [SeekToStartSequence] and [NextImpl] call one
    another, and two of them loop on the records of the open reader, so they
    are written as one mutual fixpoint over a fuel argument; a theorem below
    gives the fuel that always suffices.  The reporter only writes to the
    info log, so its calls are left out. *)

From Stdlib Require Import ZArith List String Bool Lia.
Import ListNotations.
Local Open Scope Z_scope.

(** ** Machine integers *)

(** [SequenceNumber], [uint64_t] and [size_t] are 64-bit unsigned; arithmetic
    on them wraps. *)
Definition u64 (z : Z) : Z := z mod 2 ^ 64.

(** ** Status *)

Inductive Code : Type := kNotFound | kCorruption | kIOError.

Inductive Status : Type :=
| OK
| Err (c : Code) (msg : string).

Definition ok (s : Status) : bool :=
  match s with OK => true | Err _ _ => false end.

Definition GapCorruption : Status :=
  Err kCorruption "Gap in sequence number. Could not seek to required sequence number"%string.
Definition StartNotFound : Status :=
  Err kCorruption "Start sequence was not found, skipping to the next available"%string.
Definition NoMoreData : Status := Err kCorruption "NO MORE DATA LEFT"%string.
Definition GapNotFound : Status := Err kNotFound "Gap in sequence numbers"%string.

(** ** Log files (class LogFileImpl) *)

Inductive WalFileType : Type := kArchivedLogFile | kAliveLogFile.

Record LogFile : Type := mkLogFile {
  LogNumber : Z;
  Type_ : WalFileType;
  StartSequence : Z;
  SizeFileBytes : Z
}.

(** ** Records *)

(** Modelled from the spec: [WriteBatchInternal::Sequence] and
    [WriteBatchInternal::Count] live in write_batch_internal.h, which is not
    part of the sources at hand; the spec treats the batch header as an
    opaque contract yielding a start sequence and a count.  A record read
    from a log is therefore represented by its length in bytes together with
    the two values the iterator reads from its header: [Sequence] is what
    [WriteBatchInternal::Sequence] returns for it and [Count] what
    [WriteBatchInternal::Count] returns. *)
Record Slice : Type := mkSlice {
  size : Z;
  Sequence : Z;
  Count : Z
}.

(** ** The environment: the file system and the version set *)

Inductive FileName : Type :=
| LogFileName (number : Z)
| ArchivedLogFileName (number : Z).

(** [NewSequentialFile] either fails with an error code and message or gives
    the records stored in the file; [LastSequence] is
    [versions_->LastSequence()]. *)
Record Env : Type := mkEnv {
  NewSequentialFile : FileName -> (Code * string) + list Slice;
  LastSequence : Z
}.

(** ** log::Reader, as far as the iterator uses it *)

(** Modelled from the spec: of [log::Reader] only the class declaration is
    at hand, not log_reader.cc.  The spec gives its interface: it yields
    the framed records of one file in order, [ReadRecord] answers false at
    the end of the input, and the end-of-file mark can be read and
    cleared.  A reader is the list of records it has not yet returned,
    together with that mark. *)
Record Reader : Type := mkReader {
  pending : list Slice;
  eof_ : bool
}.

Definition ReadRecord (rd : Reader) : option Slice * Reader :=
  match pending rd with
  | [] => (None, mkReader [] true)
  | r :: rest => (Some r, mkReader rest (eof_ rd))
  end.

Definition IsEOF (rd : Reader) : bool := eof_ rd.

Definition UnmarkEOF (rd : Reader) : Reader := mkReader (pending rd) false.

(** ** Assertions

    The C++ [assert]s do not change the state; a failed one is recorded in a
    ghost list so that theorems can speak about it. *)
Inductive Assertion : Type :=
| AssertGetBatchValid        (* assert(isValid_) in GetBatch *)
| AssertStartedIfExternal    (* assert(internal || started_) *)
| AssertUnstartedIfInternal  (* assert(!internal || !started_) *)
| AssertLastSeqBound.        (* assert(currentLastSeq_ <= versions_->LastSequence()) *)

(** ** The iterator object *)

Record State : Type := mkState {
  startingSequenceNumber_ : Z;
  files_ : list LogFile;
  started_ : bool;
  isValid_ : bool;
  currentStatus_ : Status;
  currentFileIndex_ : Z;
  currentBatch_ : option Slice;
  currentLogReader_ : option Reader;
  currentBatchSeq_ : Z;
  currentLastSeq_ : Z;
  failed_ : list Assertion
}.

Definition set_startingSequenceNumber (v : Z) (s : State) : State :=
  mkState v (files_ s) (started_ s) (isValid_ s) (currentStatus_ s)
          (currentFileIndex_ s) (currentBatch_ s) (currentLogReader_ s)
          (currentBatchSeq_ s) (currentLastSeq_ s) (failed_ s).
Definition set_started (v : bool) (s : State) : State :=
  mkState (startingSequenceNumber_ s) (files_ s) v (isValid_ s) (currentStatus_ s)
          (currentFileIndex_ s) (currentBatch_ s) (currentLogReader_ s)
          (currentBatchSeq_ s) (currentLastSeq_ s) (failed_ s).
Definition set_isValid (v : bool) (s : State) : State :=
  mkState (startingSequenceNumber_ s) (files_ s) (started_ s) v (currentStatus_ s)
          (currentFileIndex_ s) (currentBatch_ s) (currentLogReader_ s)
          (currentBatchSeq_ s) (currentLastSeq_ s) (failed_ s).
Definition set_currentStatus (v : Status) (s : State) : State :=
  mkState (startingSequenceNumber_ s) (files_ s) (started_ s) (isValid_ s) v
          (currentFileIndex_ s) (currentBatch_ s) (currentLogReader_ s)
          (currentBatchSeq_ s) (currentLastSeq_ s) (failed_ s).
Definition set_currentFileIndex (v : Z) (s : State) : State :=
  mkState (startingSequenceNumber_ s) (files_ s) (started_ s) (isValid_ s)
          (currentStatus_ s) v (currentBatch_ s) (currentLogReader_ s)
          (currentBatchSeq_ s) (currentLastSeq_ s) (failed_ s).
Definition set_currentBatch (v : option Slice) (s : State) : State :=
  mkState (startingSequenceNumber_ s) (files_ s) (started_ s) (isValid_ s)
          (currentStatus_ s) (currentFileIndex_ s) v (currentLogReader_ s)
          (currentBatchSeq_ s) (currentLastSeq_ s) (failed_ s).
Definition set_currentLogReader (v : option Reader) (s : State) : State :=
  mkState (startingSequenceNumber_ s) (files_ s) (started_ s) (isValid_ s)
          (currentStatus_ s) (currentFileIndex_ s) (currentBatch_ s) v
          (currentBatchSeq_ s) (currentLastSeq_ s) (failed_ s).
Definition set_currentBatchSeq (v : Z) (s : State) : State :=
  mkState (startingSequenceNumber_ s) (files_ s) (started_ s) (isValid_ s)
          (currentStatus_ s) (currentFileIndex_ s) (currentBatch_ s)
          (currentLogReader_ s) v (currentLastSeq_ s) (failed_ s).
Definition set_currentLastSeq (v : Z) (s : State) : State :=
  mkState (startingSequenceNumber_ s) (files_ s) (started_ s) (isValid_ s)
          (currentStatus_ s) (currentFileIndex_ s) (currentBatch_ s)
          (currentLogReader_ s) (currentBatchSeq_ s) v (failed_ s).
Definition record_failure (a : Assertion) (s : State) : State :=
  mkState (startingSequenceNumber_ s) (files_ s) (started_ s) (isValid_ s)
          (currentStatus_ s) (currentFileIndex_ s) (currentBatch_ s)
          (currentLogReader_ s) (currentBatchSeq_ s) (currentLastSeq_ s)
          (a :: failed_ s).

(** ** The monad of member functions *)

Inductive Outcome (A : Type) : Type :=
| Done (a : A) (s : State)
| OutOfRange     (* std::out_of_range thrown by files_->at(i) *)
| NullReader     (* currentLogReader_ used while null *)
| OutOfFuel      (* the fuel of the model ran out *)
| TooDeep.       (* more nested reseeks than the given budget *)

Arguments Done {A} a s.
Arguments OutOfRange {A}.
Arguments NullReader {A}.
Arguments OutOfFuel {A}.
Arguments TooDeep {A}.

Definition M (A : Type) : Type := State -> Outcome A.

Definition ret {A} (a : A) : M A := fun s => Done a s.

Definition bind {A B} (m : M A) (k : A -> M B) : M B :=
  fun s => match m s with
           | Done a s' => k a s'
           | OutOfRange => OutOfRange
           | NullReader => NullReader
           | OutOfFuel => OutOfFuel
           | TooDeep => TooDeep
           end.

Notation "x <- m ;; k" := (bind m (fun x => k))
  (at level 61, m at next level, right associativity).
Notation "m ;;; k" := (bind m (fun _ => k))
  (at level 61, right associativity).

Definition get : M State := fun s => Done s s.
Definition modify (f : State -> State) : M unit := fun s => Done tt (f s).
Definition when (c : bool) (m : M unit) : M unit := if c then m else ret tt.

Definition assert_ (a : Assertion) (c : bool) : M unit :=
  if c then ret tt else modify (record_failure a).

(** ** Member functions *)

Section Iterator.

Variable env : Env.

(** [files_->at(i)]: throws when [i] is out of range. *)
Definition files_at (i : Z) : M LogFile :=
  fun s => if i <? 0 then OutOfRange
           else match nth_error (files_ s) (Z.to_nat i) with
                | Some f => Done f s
                | None => OutOfRange
                end.

(** [files_->size()] *)
Definition files_size (s : State) : Z := Z.of_nat (List.length (files_ s)).

(** [OpenLogFile]: the status and, when it is OK, the opened file. *)
Definition OpenLogFile (logFile : LogFile) : Status * option (list Slice) :=
  match Type_ logFile with
  | kArchivedLogFile =>
      match NewSequentialFile env (ArchivedLogFileName (LogNumber logFile)) with
      | inr file => (OK, Some file)
      | inl (c, m) => (Err c m, None)
      end
  | kAliveLogFile =>
      match NewSequentialFile env (LogFileName (LogNumber logFile)) with
      | inr file => (OK, Some file)
      | inl _ =>
          (* If cannot open file in DB directory, try the archive dir. *)
          match NewSequentialFile env (ArchivedLogFileName (LogNumber logFile)) with
          | inr file => (OK, Some file)
          | inl (c, m) => (Err c m, None)
          end
      end
  end.

(** [OpenLogReader] *)
Definition OpenLogReader (logFile : LogFile) : M Status :=
  match OpenLogFile logFile with
  | (OK, Some file) =>
      modify (set_currentLogReader (Some (mkReader file false))) ;;; ret OK
  | (s, _) => ret s
  end.

(** The result of [GetBatch]. *)
Record BatchResult : Type := mkBatchResult {
  sequence : Z;
  writeBatchPtr : option Slice
}.

Definition GetBatch : M BatchResult :=
  s <- get ;;
  assert_ AssertGetBatchValid (isValid_ s) ;;;
  modify (set_currentBatch None) ;;;
  ret (mkBatchResult (currentBatchSeq_ s) (currentBatch_ s)).

Definition status (s : State) : Status := currentStatus_ s.

Definition Valid (s : State) : bool := started_ s && isValid_ s.

(** [RestrictedRead]: [None] is the C++ [false]; [Some r] is [true] with
    [*record = r]. *)
Definition RestrictedRead : M (option Slice) :=
  s <- get ;;
  if LastSequence env <=? currentLastSeq_ s then ret None
  else match currentLogReader_ s with
       | None => fun _ => NullReader
       | Some rd =>
           let (r, rd') := ReadRecord rd in
           modify (set_currentLogReader (Some rd')) ;;; ret r
       end.

(** [IsBatchExpected]; the message it logs is left out. *)
Definition IsBatchExpected (batch : Slice) (expectedSeq : Z) : bool :=
  Sequence batch =? expectedSeq.

(** The tail of [UpdateCurrentWriteBatch], after the gap check. *)
Definition accept_batch (batch : Slice) : M unit :=
  modify (set_currentBatchSeq (Sequence batch)) ;;;
  s <- get ;;
  modify (set_currentLastSeq (u64 (currentBatchSeq_ s + Count batch - 1))) ;;;
  s <- get ;;
  assert_ AssertLastSeqBound (currentLastSeq_ s <=? LastSequence env) ;;;
  modify (set_currentBatch (Some batch)) ;;;
  modify (set_isValid true) ;;;
  modify (set_currentStatus OK).

(** The mutual recursion.  [fuel] bounds the nesting of calls and loop
    iterations; [reseeks] is the number of nested strict reseeks still
    allowed, so that a run with budget [1%nat] that never answers [TooDeep]
    never re-enters the reseek from inside a reseek.  The two [while]
    loops that read records are [SeekLoop] and [NextReadLoop]; they answer
    [true] when the C++ loop body executed [return].  [NextFileLoop] is the
    [while(true)] of [NextImpl]; its [assert(currentLogReader_)] is the
    outcome [NullReader], since the reader is used right after. *)
Fixpoint UpdateCurrentWriteBatch (fuel reseeks : nat) (record : Slice)
  {struct fuel} : M unit :=
  match fuel with
  | O => fun _ => OutOfFuel
  | S n =>
      s <- get ;;
      let expectedSeq := u64 (currentLastSeq_ s + 1) in
      if started_ s && negb (IsBatchExpected record expectedSeq) then
        f <- files_at (currentFileIndex_ s) ;;
        when (expectedSeq <? StartSequence f)
             (when (negb (currentFileIndex_ s =? 0))
                   (modify (set_currentFileIndex (u64 (currentFileIndex_ s - 1))))) ;;;
        modify (set_startingSequenceNumber expectedSeq) ;;;
        modify (set_currentStatus GapNotFound) ;;;
        s' <- get ;;
        match reseeks with
        | O => fun _ => TooDeep
        | S d => SeekToStartSequence n d (currentFileIndex_ s') true
        end
      else accept_batch record
  end

with SeekToStartSequence (fuel reseeks : nat) (startFileIndex : Z) (strict : bool)
  {struct fuel} : M unit :=
  match fuel with
  | O => fun _ => OutOfFuel
  | S n =>
      modify (set_started false) ;;;
      modify (set_isValid false) ;;;
      s <- get ;;
      if files_size s <=? startFileIndex then ret tt
      else
        f <- files_at startFileIndex ;;
        st <- OpenLogReader f ;;
        if negb (ok st) then modify (set_currentStatus st)
        else
          returned <- SeekLoop n reseeks strict ;;
          if returned : bool then ret tt
          else if strict then modify (set_currentStatus GapCorruption)
          else
            s <- get ;;
            if negb (files_size s =? 1) then
              modify (set_currentStatus StartNotFound) ;;;
              NextImpl n reseeks true
            else ret tt
  end

with SeekLoop (fuel reseeks : nat) (strict : bool) {struct fuel} : M bool :=
  match fuel with
  | O => fun _ => OutOfFuel
  | S n =>
      r <- RestrictedRead ;;
      match r with
      | None => ret false
      | Some record =>
          if size record <? 12 then SeekLoop n reseeks strict
          else
            UpdateCurrentWriteBatch n reseeks record ;;;
            s <- get ;;
            if startingSequenceNumber_ s <=? currentLastSeq_ s then
              if strict && negb (currentBatchSeq_ s =? startingSequenceNumber_ s)
              then modify (set_currentStatus GapCorruption) ;;; ret true
              else modify (set_isValid true) ;;;
                   modify (set_started true) ;;;
                   ret true
            else modify (set_isValid false) ;;; SeekLoop n reseeks strict
      end
  end

with NextImpl (fuel reseeks : nat) (internal : bool) {struct fuel} : M unit :=
  match fuel with
  | O => fun _ => OutOfFuel
  | S n =>
      modify (set_isValid false) ;;;
      s <- get ;;
      if negb internal && negb (started_ s)
      then SeekToStartSequence n reseeks 0 false
      else NextFileLoop n reseeks internal
  end

with NextFileLoop (fuel reseeks : nat) (internal : bool) {struct fuel} : M unit :=
  match fuel with
  | O => fun _ => OutOfFuel
  | S n =>
      s <- get ;;
      match currentLogReader_ s with
      | None => fun _ => NullReader
      | Some rd =>
          when (IsEOF rd) (modify (set_currentLogReader (Some (UnmarkEOF rd)))) ;;;
          returned <- NextReadLoop n reseeks internal ;;
          if returned : bool then ret tt
          else
            s <- get ;;
            if currentFileIndex_ s <? u64 (files_size s - 1) then
              modify (set_currentFileIndex (u64 (currentFileIndex_ s + 1))) ;;;
              s <- get ;;
              f <- files_at (currentFileIndex_ s) ;;
              st <- OpenLogReader f ;;
              if negb (ok st) then
                modify (set_isValid false) ;;;
                modify (set_currentStatus st)
              else NextFileLoop n reseeks internal
            else
              modify (set_isValid false) ;;;
              (if currentLastSeq_ s =? LastSequence env
               then modify (set_currentStatus OK)
               else modify (set_currentStatus NoMoreData))
      end
  end

with NextReadLoop (fuel reseeks : nat) (internal : bool) {struct fuel} : M bool :=
  match fuel with
  | O => fun _ => OutOfFuel
  | S n =>
      r <- RestrictedRead ;;
      match r with
      | None => ret false
      | Some record =>
          if size record <? 12 then NextReadLoop n reseeks internal
          else
            s <- get ;;
            assert_ AssertStartedIfExternal (internal || started_ s) ;;;
            assert_ AssertUnstartedIfInternal (negb internal || negb (started_ s)) ;;;
            UpdateCurrentWriteBatch n reseeks record ;;;
            s <- get ;;
            when (internal && negb (started_ s)) (modify (set_started true)) ;;;
            ret true
      end
  end.

(** [Next] *)
Definition Next (fuel reseeks : nat) : M unit := NextImpl fuel reseeks false.

(** The object as the member initialisers of the constructor leave it, and
    the constructor, which then seeks to the starting sequence. *)
Definition initial (seq : Z) (files : list LogFile) : State :=
  mkState seq files false false OK 0 None None 0 0 [].

Definition TransactionLogIteratorImpl (fuel reseeks : nat) (seq : Z)
  (files : list LogFile) : Outcome unit :=
  SeekToStartSequence fuel reseeks 0 false (initial seq files).

End Iterator.

(** ** Specification vocabulary *)

(** The state [accept_batch] leaves. *)
Definition accept_state (env : Env) (batch : Slice) (s : State) : State :=
  let last := u64 (Sequence batch + Count batch - 1) in
  let s1 := set_currentLastSeq last (set_currentBatchSeq (Sequence batch) s) in
  let s2 := if last <=? LastSequence env then s1
            else record_failure AssertLastSeqBound s1 in
  set_currentStatus OK (set_isValid true (set_currentBatch (Some batch) s2)).

Arguments accept_state : simpl never.

(** The batch held by the iterator agrees with the two counters. *)
Definition coherent (s : State) : Prop :=
  exists b, currentBatch_ s = Some b /\
            currentBatchSeq_ s = Sequence b /\
            currentLastSeq_ s = u64 (Sequence b + Count b - 1).

(** A batch the writer has committed: a non-empty range of sequence numbers
    that ends at or before [LastSequence]. *)
Definition committed (env : Env) (r : Slice) : Prop :=
  0 <= Sequence r /\ 1 <= Count r /\ Sequence r + Count r - 1 <= LastSequence env.

(** Every file of the environment holds committed batches only (records
    shorter than a batch header are skipped by the iterator and carry no
    batch). *)
Definition env_committed (env : Env) : Prop :=
  LastSequence env < 2 ^ 64 /\
  forall name recs, NewSequentialFile env name = inr recs ->
    Forall (fun r => 12 <= size r -> committed env r) recs.

(** The iterator holds committed batches only: in its reader, and as its
    current batch. *)
Definition reader_committed (env : Env) (s : State) : Prop :=
  (forall rd, currentLogReader_ s = Some rd ->
     Forall (fun r => 12 <= size r -> committed env r) (pending rd)) /\
  (forall b, currentBatch_ s = Some b -> committed env b).

(** The file index is a [size_t] within the list (or 0 for an empty list),
    and the size of the list is a [size_t]. *)
Definition index_ok (s : State) : Prop :=
  0 <= currentFileIndex_ s /\
  (currentFileIndex_ s < files_size s \/ currentFileIndex_ s = 0) /\
  files_size s < 2 ^ 64.

(** The iterator has a reader open and stands on a file of its list. *)
Definition ready (s : State) : Prop :=
  currentLogReader_ s <> None /\
  0 <= currentFileIndex_ s < files_size s /\
  files_size s < 2 ^ 64.

(** The invariant of the object between calls: once started, the iterator
    is ready. *)
Definition wf (s : State) : Prop :=
  index_ok s /\ (started_ s = true -> ready s).

(** Number of records the open reader still holds. *)
Definition reader_len (s : State) : nat :=
  match currentLogReader_ s with
  | Some rd => List.length (pending rd)
  | None => O
  end.

(** Number of records [OpenLogFile] finds in a file. *)
Definition file_len (env : Env) (f : LogFile) : nat :=
  match OpenLogFile env f with
  | (_, Some l) => List.length l
  | (_, None) => O
  end.

(** No reader, open or to be opened, holds more than [m] records, and the
    list has no more than [m] files. *)
Definition bounded (env : Env) (m : nat) (s : State) : Prop :=
  (reader_len s <= m)%nat /\
  Forall (fun f => (file_len env f <= m)%nat) (files_ s) /\
  (List.length (files_ s) <= m)%nat.

(** The largest file of a list, in records. *)
Definition max_file_len (env : Env) (files : list LogFile) : nat :=
  fold_right (fun f acc => Nat.max (file_len env f) acc) O files.

(** The assertion on the last sequence has not failed during a step. *)
Definition no_new_bound_failure (s s' : State) : Prop :=
  In AssertLastSeqBound (failed_ s') -> In AssertLastSeqBound (failed_ s).

(** The run returns: it neither runs out of fuel or of reseek budget, nor
    throws, nor uses a null reader. *)
Definition returns {A} (o : Outcome A) : Prop :=
  exists a s', o = Done a s'.

(** What every step of the iterator keeps: the file list, the bound on the
    readers, and, in an environment of committed batches, that the reader
    holds committed batches and the bound assertion has not failed. *)
Record kept (env : Env) (s s' : State) : Prop := mkKept {
  k_files : files_ s' = files_ s;
  k_bounded : forall m, bounded env m s -> bounded env m s';
  k_committed : env_committed env -> reader_committed env s ->
                reader_committed env s' /\ no_new_bound_failure s s';
  k_index : index_ok s -> index_ok s';
  k_ready : ready s -> ready s'
}.

(** The same for a step that is handed a record: the assertion is kept
    provided the record satisfies [P]. *)
Definition kept_given (env : Env) (P : Prop) (s s' : State) : Prop :=
  files_ s' = files_ s /\
  (forall m, bounded env m s -> bounded env m s') /\
  (env_committed env -> reader_committed env s -> P ->
   reader_committed env s' /\ no_new_bound_failure s s') /\
  (index_ok s -> index_ok s') /\
  (ready s -> ready s').

(** A state that reports [Valid] holds a batch that agrees with its
    counters, and its status is OK. *)
Definition positioned (s : State) : Prop :=
  Valid s = true -> coherent s /\ currentStatus_ s = OK.

(** A [Next] from a started state that ends on a valid batch ends on the
    batch that starts right after the last sequence delivered. *)
Definition contiguous (s s' : State) : Prop :=
  started_ s = true -> Valid s' = true ->
  currentBatchSeq_ s' = u64 (currentLastSeq_ s + 1).

(** The two halves of a specification: when [needs] holds (enough fuel, a
    state that is ready) the run returns, and whenever it returns, its
    result satisfies [Q]. *)
Definition outcome_spec {A} (o : Outcome A) (needs : Prop)
  (Q : A -> State -> Prop) : Prop :=
  (needs -> returns o) /\ (forall a s', o = Done a s' -> Q a s').

(** The iterator stands past its last file with nothing left to read: the
    state in which [NextImpl] sets the final status. *)
Definition past_last_file (env : Env) (s : State) : Prop :=
  started_ s = true /\
  (exists rd, currentLogReader_ s = Some rd /\
     (LastSequence env <= currentLastSeq_ s \/
      Forall (fun r => size r < 12) (pending rd))) /\
  ~ currentFileIndex_ s < u64 (files_size s - 1).

(** The status [NextImpl] sets when it runs past the last file. *)
Definition final_status (env : Env) (s : State) : Status :=
  if currentLastSeq_ s =? LastSequence env then OK else NoMoreData.

(** [n] calls of [Next], each on the state the previous one left. *)
Fixpoint Next_times (env : Env) (fuel reseeks n : nat) (s : State) : Outcome unit :=
  match n with
  | O => Done tt s
  | S k => match Next env fuel reseeks s with
           | Done _ s' => Next_times env fuel reseeks k s'
           | o => o
           end
  end.

(** How the loop of [SeekToStartSequence] can end: it falls through
    ([false]) with [started_] still clear; or it returns on a batch that
    reaches the starting sequence, valid and started (for a strict seek,
    exactly at the starting sequence); or, for a strict seek, it returns
    unstarted with the gap status. *)
Definition SeekLoop_post (env : Env) (strict : bool) (s : State)
  (b : bool) (s' : State) : Prop :=
  kept env s s' /\
  startingSequenceNumber_ s' = startingSequenceNumber_ s /\
  currentFileIndex_ s' = currentFileIndex_ s /\
  (b = false -> started_ s' = false) /\
  (started_ s' = false -> b = true -> currentStatus_ s' = GapCorruption) /\
  (Valid s' = true ->
   coherent s' /\ currentStatus_ s' = OK /\
   (strict = true -> currentBatchSeq_ s' = startingSequenceNumber_ s)).

(** What [UpdateCurrentWriteBatch] guarantees.  From an unstarted state it
    only accepts the batch. *)
Definition Update_post (env : Env) (record : Slice) (s s' : State) : Prop :=
  kept_given env (committed env record) s s' /\ positioned s' /\
  contiguous s s' /\
  (started_ s = false ->
   started_ s' = false /\ isValid_ s' = true /\ coherent s' /\
   currentStatus_ s' = OK).

(** How the record loop of [NextImpl] can end: it falls through with only
    the reader changed, or it returns after [UpdateCurrentWriteBatch]. *)
Definition NextReadLoop_post (env : Env) (s : State) (b : bool) (s' : State) : Prop :=
  kept env s s' /\
  (b = false -> exists ord, s' = set_currentLogReader ord s) /\
  (b = true -> positioned s' /\ contiguous s s').

(** What [SeekToStartSequence], [NextImpl] and [Next] guarantee. *)
Definition Next_post (env : Env) (s s' : State) : Prop :=
  kept env s s' /\ positioned s' /\ contiguous s s'.

Definition Seek_post (env : Env) (strict : bool) (s s' : State) : Prop :=
  kept env s s' /\ positioned s' /\
  (strict = true -> Valid s' = true ->
   currentBatchSeq_ s' = startingSequenceNumber_ s) /\
  (index_ok s -> started_ s' = true -> ready s').

(** The loops of [NextImpl] run either for the application, or internally
    for a seek that has not started the iterator. *)
Definition loop_pre (internal : bool) (s : State) : Prop :=
  internal = true -> started_ s = false.

(** A bound on the number of files [NextImpl] can still open. *)
Definition files_left (s : State) : nat :=
  if currentFileIndex_ s <? 0 then S (List.length (files_ s))
  else Z.to_nat (files_size s - currentFileIndex_ s).

(** Fuel that suffices for [SeekToStartSequence], for
    [UpdateCurrentWriteBatch] and for [Next], when the list has at most [m]
    files of at most [m] records each. *)
Definition seek_fuel (m : nat) : nat := 2 * m + 6.
Definition update_fuel (m : nat) : nat := S (seek_fuel m).
Definition next_fuel (m : nat) : nat := 4 * m + 12.

(** The bound [m] of a state, and the fuel its [Next] needs. *)
Definition size_bound (env : Env) (s : State) : nat :=
  Nat.max (reader_len s)
          (Nat.max (max_file_len env (files_ s)) (List.length (files_ s))).
Definition enough_fuel (env : Env) (s : State) : nat :=
  next_fuel (size_bound env s).

(** ** Example environments *)

(** A record holding a batch of [count] sequence numbers from [seq]. *)
Definition batch (seq count : Z) : Slice := mkSlice 20 seq count.

(** A live log file. *)
Definition live_log (number start : Z) : LogFile :=
  mkLogFile number kAliveLogFile start 0.

Definition no_such_file : (Code * string) + list Slice :=
  inl (kNotFound, "No such file or directory"%string).

(** A file system with one live log, number 1. *)
Definition one_log (recs : list Slice) (name : FileName)
  : (Code * string) + list Slice :=
  match name with
  | LogFileName 1 => inr recs
  | _ => no_such_file
  end.

(** A file system with two live logs, numbers 1 and 2. *)
Definition two_logs (recs1 recs2 : list Slice) (name : FileName)
  : (Code * string) + list Slice :=
  match name with
  | LogFileName 1 => inr recs1
  | LogFileName 2 => inr recs2
  | _ => no_such_file
  end.

(** A file system whose log 1 has been moved to the archive. *)
Definition archived_log (recs : list Slice) (name : FileName)
  : (Code * string) + list Slice :=
  match name with
  | ArchivedLogFileName 1 => inr recs
  | _ => no_such_file
  end.

(** Log 1 holds sequence 1 and then sequence 3: sequence 2 is missing. *)
Definition gap_env (last_sequence : Z) : Env :=
  mkEnv (one_log [batch 1 1; batch 3 1]) last_sequence.

(** Log 1 holds sequences 1-2 and 3, all the writer has committed. *)
Definition clean_env : Env := mkEnv (one_log [batch 1 2; batch 3 1]) 3.

(** The state after construction and [n] calls of [Next]. *)
Definition run (env : Env) (fuel : nat) (seq : Z) (files : list LogFile)
  (n : nat) : Outcome unit :=
  match TransactionLogIteratorImpl env fuel 1 seq files with
  | Done _ s => Next_times env fuel 1 n s
  | o => o
  end.

(** The state of a finished run; the initial state stands for a run that
    did not return. *)
Definition state_of (o : Outcome unit) : State :=
  match o with
  | Done _ s => s
  | _ => initial 0 []
  end.

(** A record the seek passes over: too short to hold a batch, or a batch
    that ends before the starting sequence (and before the last sequence,
    so that reading goes on). *)
Definition passed_over (env : Env) (starting : Z) (x : Slice) : Prop :=
  size x < 12 \/
  (u64 (Sequence x + Count x - 1) < starting /\
   u64 (Sequence x + Count x - 1) < LastSequence env).

(** The states an application can bring the iterator to. *)
Inductive reachable (env : Env) : State -> Prop :=
| reach_new fuel d seq files s :
    Z.of_nat (List.length files) < 2 ^ 64 ->
    TransactionLogIteratorImpl env fuel d seq files = Done tt s ->
    reachable env s
| reach_Next fuel d s s' :
    reachable env s -> Next env fuel (S d) s = Done tt s' ->
    reachable env s'
| reach_GetBatch s r s' :
    reachable env s -> GetBatch s = Done r s' ->
    reachable env s'.

(** Records that give [NextImpl] nothing to return: reading is blocked
    because the iterator has reached the last sequence, or every record is
    too short to hold a batch. *)
Definition yields_nothing (env : Env) (last : Z) (recs : list Slice) : Prop :=
  LastSequence env <= last \/ Forall (fun r => size r < 12) recs.

(** A file that opens and gives nothing to return. *)
Definition opens_empty (env : Env) (last : Z) (f : LogFile) : Prop :=
  exists recs, OpenLogFile env f = (OK, Some recs) /\
               yields_nothing env last recs.

(** Whether a list of records holds a record long enough to be a batch. *)
Definition has_batch (recs : list Slice) : bool :=
  existsb (fun x => 12 <=? size x) recs.

(** Records too short to hold a batch. *)
Definition all_short (recs : list Slice) : Prop :=
  Forall (fun x => size x < 12) recs.

(** A file system with live logs 1 and 3; log 2 is in neither directory. *)
Definition logs_1_3 (recs1 recs3 : list Slice) (name : FileName)
  : (Code * string) + list Slice :=
  match name with
  | LogFileName 1 => inr recs1
  | LogFileName 3 => inr recs3
  | _ => no_such_file
  end.

(** Log 1 holds sequences 1-2; log 2 holds a record too short for a batch
    and then sequence 3. *)
Definition rolling_env : Env :=
  mkEnv (two_logs [batch 1 2] [mkSlice 4 0 0; batch 3 1]) 3.

(** Log 1 holds sequences 1-2 and log 3 holds sequence 3; log 2, listed
    between them, cannot be opened. *)
Definition missing_log_env : Env :=
  mkEnv (logs_1_3 [batch 1 2] [batch 3 1]) 3.

(** Two computations agree on the states whose file list is [fs]: they
    give the same outcome there, and a run that returns leaves the list as
    it is. *)
Definition agree {A} (fs : list LogFile) (m1 m2 : M A) : Prop :=
  forall s, files_ s = fs ->
    m1 s = m2 s /\ forall a s', m2 s = Done a s' -> files_ s' = fs.

(** One of the two assertions of [NextImpl] on [started_] has failed. *)
Definition started_failures (s : State) : Prop :=
  In AssertStartedIfExternal (failed_ s) \/
  In AssertUnstartedIfInternal (failed_ s).

(** Whenever the computation returns from [s], its result satisfies [Q]. *)
Definition holds {A} (m : M A) (s : State) (Q : A -> State -> Prop) : Prop :=
  forall a s', m s = Done a s' -> Q a s'.

(** A failure of the assertions on [started_] in [s] implies [X]: with
    [X] the failure in the state a call starts from, the call has added
    none. *)
Definition unblamed (X : Prop) (s : State) : Prop := started_failures s -> X.

(** [LogFileImpl::PathName]: the name of the file below the database
    directory.  (The C++ builds it with an empty directory prefix, and
    [OpenLogFile] builds its names with the prefix [dir_]; [FileName]
    leaves the prefix out.) *)
Definition PathName (f : LogFile) : FileName :=
  match Type_ f with
  | kArchivedLogFile => ArchivedLogFileName (LogNumber f)
  | kAliveLogFile => LogFileName (LogNumber f)
  end.

(** [LogFileImpl::operator<] *)
Definition LogFile_lt (this that : LogFile) : bool :=
  LogNumber this <? LogNumber that.

(** A record a seek leaves behind: too short to hold a batch, or a batch
    that ends before the starting sequence. *)
Definition ends_before (starting : Z) (x : Slice) : Prop :=
  size x < 12 \/ u64 (Sequence x + Count x - 1) < starting.

(** What the loop of a seek that is not strict makes of the records of a
    file, entered with the last sequence [last]: [None] when it stops on a
    batch that reaches the starting sequence; otherwise the last sequence it
    leaves behind, having read to the end of the file or until reading is
    blocked at the last sequence of the version set. *)
Fixpoint seek_scan (env : Env) (starting last : Z) (recs : list Slice)
  : option Z :=
  match recs with
  | [] => Some last
  | x :: rest =>
      if LastSequence env <=? last then Some last
      else if size x <? 12 then seek_scan env starting last rest
      else if starting <=? u64 (Sequence x + Count x - 1) then None
      else seek_scan env starting (u64 (Sequence x + Count x - 1)) rest
  end.

(** The size of the file list: an upper bound for the number of files and
    for the number of records in each. *)
Definition files_bound (env : Env) (files : list LogFile) : nat :=
  Nat.max (max_file_len env files) (List.length files).

(** [waits env s t]: from [s], calls of [Next] that each leave the
    iterator started and not valid lead to [t]. *)
Inductive waits (env : Env) : State -> State -> Prop :=
| waits_here s : waits env s s
| waits_Next fuel d s t u :
    Next env fuel (S d) s = Done tt t ->
    started_ t = true -> Valid t = false ->
    waits env t u -> waits env s u.

(** A started iterator is valid: what every seek and every accepted batch
    leave behind. *)
Definition settled (s : State) : Prop :=
  started_ s = true -> isValid_ s = true.

(** A call that leaves the iterator started and not valid has not moved
    the last sequence. *)
Definition idle_keeps (s s' : State) : Prop :=
  started_ s' = true -> isValid_ s' = false ->
  currentLastSeq_ s' = currentLastSeq_ s.

(** * Properties *)

(** ** Unfolding equations of the mutual recursion *)

Lemma UpdateCurrentWriteBatch_eq env n d record :
  UpdateCurrentWriteBatch env (S n) d record =
  (s <- get ;;
   let expectedSeq := u64 (currentLastSeq_ s + 1) in
   if started_ s && negb (IsBatchExpected record expectedSeq) then
     f <- files_at (currentFileIndex_ s) ;;
     when (expectedSeq <? StartSequence f)
          (when (negb (currentFileIndex_ s =? 0))
                (modify (set_currentFileIndex (u64 (currentFileIndex_ s - 1))))) ;;;
     modify (set_startingSequenceNumber expectedSeq) ;;;
     modify (set_currentStatus GapNotFound) ;;;
     s' <- get ;;
     match d with
     | O => fun _ => TooDeep
     | S d' => SeekToStartSequence env n d' (currentFileIndex_ s') true
     end
   else accept_batch env record).
Proof. reflexivity. Qed.

Lemma SeekToStartSequence_eq env n d startFileIndex strict :
  SeekToStartSequence env (S n) d startFileIndex strict =
  (modify (set_started false) ;;;
   modify (set_isValid false) ;;;
   s <- get ;;
   if files_size s <=? startFileIndex then ret tt
   else
     f <- files_at startFileIndex ;;
     st <- OpenLogReader env f ;;
     if negb (ok st) then modify (set_currentStatus st)
     else
       returned <- SeekLoop env n d strict ;;
       if returned : bool then ret tt
       else if strict then modify (set_currentStatus GapCorruption)
       else
         s <- get ;;
         if negb (files_size s =? 1) then
           modify (set_currentStatus StartNotFound) ;;;
           NextImpl env n d true
         else ret tt).
Proof. reflexivity. Qed.

Lemma SeekLoop_eq env n d strict :
  SeekLoop env (S n) d strict =
  (r <- RestrictedRead env ;;
   match r with
   | None => ret false
   | Some record =>
       if size record <? 12 then SeekLoop env n d strict
       else
         UpdateCurrentWriteBatch env n d record ;;;
         s <- get ;;
         if startingSequenceNumber_ s <=? currentLastSeq_ s then
           if strict && negb (currentBatchSeq_ s =? startingSequenceNumber_ s)
           then modify (set_currentStatus GapCorruption) ;;; ret true
           else modify (set_isValid true) ;;;
                modify (set_started true) ;;;
                ret true
         else modify (set_isValid false) ;;; SeekLoop env n d strict
   end).
Proof. reflexivity. Qed.

Lemma NextImpl_eq env n d internal :
  NextImpl env (S n) d internal =
  (modify (set_isValid false) ;;;
   s <- get ;;
   if negb internal && negb (started_ s)
   then SeekToStartSequence env n d 0 false
   else NextFileLoop env n d internal).
Proof. reflexivity. Qed.

Lemma NextFileLoop_eq env n d internal :
  NextFileLoop env (S n) d internal =
  (s <- get ;;
   match currentLogReader_ s with
   | None => fun _ => NullReader
   | Some rd =>
       when (IsEOF rd) (modify (set_currentLogReader (Some (UnmarkEOF rd)))) ;;;
       returned <- NextReadLoop env n d internal ;;
       if returned : bool then ret tt
       else
         s <- get ;;
         if currentFileIndex_ s <? u64 (files_size s - 1) then
           modify (set_currentFileIndex (u64 (currentFileIndex_ s + 1))) ;;;
           s <- get ;;
           f <- files_at (currentFileIndex_ s) ;;
           st <- OpenLogReader env f ;;
           if negb (ok st) then
             modify (set_isValid false) ;;;
             modify (set_currentStatus st)
           else NextFileLoop env n d internal
         else
           modify (set_isValid false) ;;;
           (if currentLastSeq_ s =? LastSequence env
            then modify (set_currentStatus OK)
            else modify (set_currentStatus NoMoreData))
   end).
Proof. reflexivity. Qed.

Lemma NextReadLoop_eq env n d internal :
  NextReadLoop env (S n) d internal =
  (r <- RestrictedRead env ;;
   match r with
   | None => ret false
   | Some record =>
       if size record <? 12 then NextReadLoop env n d internal
       else
         s <- get ;;
         assert_ AssertStartedIfExternal (internal || started_ s) ;;;
         assert_ AssertUnstartedIfInternal (negb internal || negb (started_ s)) ;;;
         UpdateCurrentWriteBatch env n d record ;;;
         s <- get ;;
         when (internal && negb (started_ s)) (modify (set_started true)) ;;;
         ret true
   end).
Proof. reflexivity. Qed.

(** ** Primitive steps *)

Lemma accept_batch_run env batch s :
  accept_batch env batch s = Done tt (accept_state env batch s).
Proof.
  unfold accept_batch, accept_state, bind, modify, get, assert_, ret. cbn.
  destruct (u64 (Sequence batch + Count batch - 1) <=? LastSequence env);
    reflexivity.
Qed.

(** While the iterator has not started, [UpdateCurrentWriteBatch] accepts
    whatever batch it is given: the gap check is not made. *)
Lemma UpdateCurrentWriteBatch_unstarted env n d record s :
  started_ s = false ->
  UpdateCurrentWriteBatch env (S n) d record s =
  Done tt (accept_state env record s).
Proof.
  intros Hs. rewrite UpdateCurrentWriteBatch_eq.
  unfold bind at 1. unfold get at 1. cbv beta iota zeta.
  rewrite Hs. cbn [andb]. apply accept_batch_run.
Qed.

(** The outcomes of [RestrictedRead]. *)
Lemma RestrictedRead_cases env s :
  (LastSequence env <= currentLastSeq_ s /\
   RestrictedRead env s = Done None s) \/
  (currentLastSeq_ s < LastSequence env /\
   currentLogReader_ s = None /\ RestrictedRead env s = NullReader) \/
  (currentLastSeq_ s < LastSequence env /\
   exists rd, currentLogReader_ s = Some rd /\
     ((pending rd = [] /\
       RestrictedRead env s =
       Done None (set_currentLogReader (Some (mkReader [] true)) s)) \/
      (exists r rest, pending rd = r :: rest /\
       RestrictedRead env s =
       Done (Some r)
            (set_currentLogReader (Some (mkReader rest (eof_ rd))) s)))).
Proof.
  unfold RestrictedRead, bind, get, modify, ret.
  destruct (Z.leb_spec (LastSequence env) (currentLastSeq_ s)) as [H|H].
  - left. auto.
  - right. destruct (currentLogReader_ s) as [rd|] eqn:E.
    + right. split; [exact H|]. exists rd. split; [reflexivity|].
      unfold ReadRecord. destruct (pending rd) as [|r rest] eqn:P.
      * left. auto.
      * right. exists r, rest. auto.
    + left. auto.
Qed.

(** ** What steps keep *)

Lemma kept_refl env s : kept env s s.
Proof. split; auto. intros; split; auto. intro; auto. Qed.

Lemma kept_trans env s1 s2 s3 : kept env s1 s2 -> kept env s2 s3 -> kept env s1 s3.
Proof.
  intros [F1 B1 C1 I1 R1] [F2 B2 C2 I2 R2]. split; auto.
  - congruence.
  - intros He Hr. destruct (C1 He Hr) as [Hr1 N1].
    destruct (C2 He Hr1) as [Hr2 N2]. split; [exact Hr2|].
    intro H. apply N1, N2, H.
Qed.

(** A step that touches neither the files, nor the reader, nor the file
    index, nor the batch, and records no failure of the bound assertion,
    keeps everything. *)
Lemma kept_frame env s s' :
  files_ s' = files_ s ->
  currentLogReader_ s' = currentLogReader_ s ->
  currentFileIndex_ s' = currentFileIndex_ s ->
  currentBatch_ s' = currentBatch_ s ->
  no_new_bound_failure s s' ->
  kept env s s'.
Proof.
  intros F R I B N. split.
  - exact F.
  - unfold bounded, reader_len. rewrite F, R. auto.
  - intros _ Hr. split; [|exact N]. unfold reader_committed in *.
    rewrite R, B. exact Hr.
  - unfold index_ok, files_size. rewrite F, I. auto.
  - unfold ready, files_size. rewrite F, R, I. auto.
Qed.

(** A step that replaces the reader by one that holds no more records, all
    of them held before. *)
Lemma kept_reader env s rd rd' :
  currentLogReader_ s = Some rd ->
  (List.length (pending rd') <= List.length (pending rd))%nat ->
  (forall P : Slice -> Prop, Forall P (pending rd) -> Forall P (pending rd')) ->
  kept env s (set_currentLogReader (Some rd') s).
Proof.
  intros Hrd Hlen Hsub. split; cbn; auto.
  - unfold bounded, reader_len. cbn. rewrite Hrd.
    intros m [Hl Hf]. split; [lia|exact Hf].
  - intros _ [Hc Hb]. split; [|intro; auto]. split; [|exact Hb].
    intros x Hx. cbn in Hx. injection Hx as <-. apply Hsub, (Hc rd Hrd).
  - intros [_ Hi]. split; [discriminate|exact Hi].
Qed.

Lemma RestrictedRead_inv env s r s' :
  RestrictedRead env s = Done r s' ->
  (exists ord, s' = set_currentLogReader ord s) /\
  kept env s s' /\
  (forall x, r = Some x ->
     (S (reader_len s') <= reader_len s)%nat /\
     currentLastSeq_ s < LastSequence env /\
     (reader_committed env s -> 12 <= size x -> committed env x)).
Proof.
  intros H.
  destruct (RestrictedRead_cases env s)
    as [[_ E]|[[_ [_ E]]|[Hlt [rd [Hrd [[P E]|[x [rest [P E]]]]]]]]];
    rewrite E in H; try discriminate; injection H as Hr Hs; subst r s'.
  - split; [exists (currentLogReader_ s); destruct s; reflexivity|].
    split; [apply kept_refl|]. intros x Hx; discriminate.
  - split; [eexists; reflexivity|]. split.
    + apply (kept_reader env s rd); [exact Hrd|cbn; lia|].
      intros Q _. constructor.
    + intros x Hx; discriminate.
  - split; [eexists; reflexivity|]. split.
    + apply (kept_reader env s rd); [exact Hrd|rewrite P; cbn; lia|].
      intros Q HQ. rewrite P in HQ. inversion HQ; assumption.
    + intros y Hy. injection Hy as <-. unfold reader_len. cbn.
      rewrite Hrd, P. cbn. split; [lia|]. split; [exact Hlt|].
      intros [Hc _]. specialize (Hc rd Hrd). rewrite P in Hc.
      inversion Hc; auto.
Qed.

Lemma RestrictedRead_returns env s :
  currentLogReader_ s <> None -> returns (RestrictedRead env s).
Proof.
  intros Hrd.
  destruct (RestrictedRead_cases env s)
    as [[_ E]|[[_ [Hn E]]|[_ [rd [_ [[_ E]|[x [rest [_ E]]]]]]]]];
    try contradiction; rewrite E; eexists; eexists; reflexivity.
Qed.

Lemma files_at_inv i s f s' :
  files_at i s = Done f s' -> s' = s /\ In f (files_ s) /\ 0 <= i < files_size s.
Proof.
  unfold files_at, files_size. destruct (Z.ltb_spec i 0) as [H|H]; [discriminate|].
  destruct (nth_error (files_ s) (Z.to_nat i)) eqn:E; [|discriminate].
  intros H0. assert (s' = s /\ l = f) as [-> ->] by (inversion H0; auto).
  split; [reflexivity|]. split.
  - eapply nth_error_In; eauto.
  - assert (Z.to_nat i < List.length (files_ s))%nat
      by (apply nth_error_Some; congruence). lia.
Qed.

Lemma files_at_returns i s :
  0 <= i < files_size s -> returns (files_at i s).
Proof.
  unfold files_at, files_size. intros Hi.
  destruct (Z.ltb_spec i 0) as [H|_]; [lia|].
  destruct (nth_error (files_ s) (Z.to_nat i)) eqn:E.
  - eexists; eexists; reflexivity.
  - apply nth_error_None in E. lia.
Qed.

Lemma OpenLogFile_cases env f :
  (exists file, OpenLogFile env f = (OK, Some file) /\
     exists name, NewSequentialFile env name = inr file) \/
  (exists c m, OpenLogFile env f = (Err c m, None)).
Proof.
  unfold OpenLogFile.
  destruct (Type_ f).
  - destruct (NewSequentialFile env (ArchivedLogFileName _)) as [[c m]|file] eqn:E.
    + right; eauto.
    + left; eauto.
  - destruct (NewSequentialFile env (LogFileName _)) as [e|file] eqn:E.
    + destruct (NewSequentialFile env (ArchivedLogFileName _)) as [[c m]|file] eqn:E'.
      * right; eauto.
      * left; eauto.
    + left; eauto.
Qed.

Lemma OpenLogReader_inv env f s st s' :
  In f (files_ s) ->
  OpenLogReader env f s = Done st s' ->
  kept env s s' /\
  ((st = OK /\ exists file, s' = set_currentLogReader (Some (mkReader file false)) s) \/
   (ok st = false /\ s' = s)).
Proof.
  intros Hin. unfold OpenLogReader.
  pose proof (OpenLogFile_cases env f) as [[file [E [name Hn]]]|[c [m E]]].
  - rewrite E. unfold bind, modify, ret. intros H; inversion H; subst; clear H.
    split; [|left; eauto]. split; cbn; auto.
    + unfold bounded, reader_len. cbn. intros m0 [_ Hf]. split; [|exact Hf].
      destruct Hf as [Hf _].
      rewrite Forall_forall in Hf. specialize (Hf f Hin).
      unfold file_len in Hf. rewrite E in Hf. exact Hf.
    + intros [_ He] [_ Hb]. split; [|intro; auto]. split; [|exact Hb].
      intros rd Hrd. cbn in Hrd. inversion Hrd; subst. cbn. eapply He; eauto.
    + intros [_ Hi]. split; [discriminate|exact Hi].
  - rewrite E. unfold ret. intros H; inversion H; subst; clear H.
    split; [apply kept_refl|right; auto].
Qed.

Lemma OpenLogReader_returns env f s : returns (OpenLogReader env f s).
Proof.
  unfold OpenLogReader.
  destruct (OpenLogFile env f) as [[|c m] [file|]]; eexists; eexists; reflexivity.
Qed.

(** ** Accepting a batch *)

Lemma accept_state_fields env r s :
  let s' := accept_state env r s in
  started_ s' = started_ s /\
  startingSequenceNumber_ s' = startingSequenceNumber_ s /\
  currentFileIndex_ s' = currentFileIndex_ s /\
  files_ s' = files_ s /\
  currentLogReader_ s' = currentLogReader_ s /\
  isValid_ s' = true /\
  currentStatus_ s' = OK /\
  currentBatch_ s' = Some r /\
  currentBatchSeq_ s' = Sequence r /\
  currentLastSeq_ s' = u64 (Sequence r + Count r - 1).
Proof.
  unfold accept_state.
  destruct (u64 (Sequence r + Count r - 1) <=? LastSequence env); cbn;
    repeat split; reflexivity.
Qed.

Lemma accept_state_coherent env r s : coherent (accept_state env r s).
Proof.
  pose proof (accept_state_fields env r s) as H. cbv zeta in H.
  exists r. tauto.
Qed.

Lemma committed_in_bound env r :
  LastSequence env < 2 ^ 64 -> committed env r ->
  (u64 (Sequence r + Count r - 1) <=? LastSequence env) = true.
Proof.
  intros Hl [H0 [H1 H2]]. unfold u64.
  rewrite Z.mod_small by lia. apply Z.leb_le. exact H2.
Qed.

Lemma accept_kept_given env r s :
  kept_given env (committed env r) s (accept_state env r s).
Proof.
  pose proof (accept_state_fields env r s) as F. cbv zeta in F.
  destruct F as [_ [_ [Fi [Ff [Fr [_ [_ [Fb _]]]]]]]].
  split; [exact Ff|]. split; [|split; [|split]].
  - unfold bounded, reader_len. rewrite Ff, Fr. auto.
  - intros He [Hrc _] Hc. split.
    + split; [rewrite Fr; exact Hrc|].
      intros b Hb. rewrite Fb in Hb. injection Hb as <-. exact Hc.
    + intro Hin. unfold accept_state in Hin.
      rewrite (committed_in_bound env r (proj1 He) Hc) in Hin. exact Hin.
  - unfold index_ok, files_size. rewrite Ff, Fi. auto.
  - unfold ready, files_size. rewrite Ff, Fr, Fi. auto.
Qed.

Lemma kept_given_after env (P : Prop) s s1 s2 :
  kept env s s1 -> (reader_committed env s -> P) ->
  kept_given env P s1 s2 -> kept env s s2.
Proof.
  intros [F1 B1 C1 I1 R1] HP [F2 [B2 [C2 [I2 R2]]]]. split; auto.
  - congruence.
  - intros He Hr. destruct (C1 He Hr) as [Hr1 N1].
    destruct (C2 He Hr1 (HP Hr)) as [Hr2 N2]. split; [exact Hr2|].
    intro H. apply N1, N2, H.
Qed.

Lemma kept_is_given env (P : Prop) s s' : kept env s s' -> kept_given env P s s'.
Proof.
  intros [F B C I R]. split; [exact F|]. split; [exact B|].
  split; [auto|]. split; assumption.
Qed.

(** Reading a record and accepting it as a batch. *)
Lemma accept_after_read env s r s1 :
  RestrictedRead env s = Done (Some r) s1 ->
  12 <= size r ->
  kept env s (accept_state env r s1).
Proof.
  intros Hr Hsz. destruct (RestrictedRead_inv _ _ _ _ Hr) as [_ [K Hx]].
  destruct (Hx r eq_refl) as [_ [_ Hc]].
  eapply kept_given_after; [exact K| |apply accept_kept_given].
  intros Hrc. apply Hc; assumption.
Qed.

(** ** Running the monad *)

Lemma bind_Done {A B} (m : M A) (k : A -> M B) s a s1 :
  m s = Done a s1 -> bind m k s = k a s1.
Proof. unfold bind. intros ->. reflexivity. Qed.

Lemma bind_modify {B} f (k : unit -> M B) s :
  bind (modify f) k s = k tt (f s).
Proof. reflexivity. Qed.

Lemma bind_get {B} (k : State -> M B) s : bind get k s = k s s.
Proof. reflexivity. Qed.

Lemma bind_ret {A B} (a : A) (k : A -> M B) s : bind (ret a) k s = k a s.
Proof. reflexivity. Qed.

Lemma bind_Done_inv {A B} (m : M A) (k : A -> M B) s b s' :
  bind m k s = Done b s' ->
  exists a s1, m s = Done a s1 /\ k a s1 = Done b s'.
Proof.
  unfold bind. destruct (m s) as [a s1| | | |]; try discriminate. eauto.
Qed.

Lemma spec_Done {A} (a : A) s needs (Q : A -> State -> Prop) :
  Q a s -> outcome_spec (Done a s) needs Q.
Proof.
  intros H. split; [intros; eexists; eexists; reflexivity|].
  intros a' s' E. injection E as <- <-. exact H.
Qed.

(** A run that does not return meets any specification whose needs are
    not met. *)
Lemma spec_absurd {A} (o : Outcome A) needs (Q : A -> State -> Prop) :
  ~ needs -> (forall a s, o <> Done a s) -> outcome_spec o needs Q.
Proof.
  intros Hn Ho. split; [intros; contradiction|].
  intros a s' E. exfalso. exact (Ho a s' E).
Qed.

Lemma spec_fuel {A} needs (Q : A -> State -> Prop) :
  ~ needs -> outcome_spec (@OutOfFuel A) needs Q.
Proof. intros H. apply spec_absurd; [exact H|discriminate]. Qed.

Lemma spec_weaken {A} (o : Outcome A) (needs needs' : Prop) (Q Q' : A -> State -> Prop) :
  outcome_spec o needs Q ->
  (needs' -> needs) -> (forall a s, Q a s -> Q' a s) ->
  outcome_spec o needs' Q'.
Proof. intros [T P] Hn HQ. split; auto. Qed.

(** A step that returns whenever the needs are met, followed by a
    continuation. *)
Lemma spec_bind {A B} (m : M A) (k : A -> M B) s needs (Q : B -> State -> Prop) :
  (needs -> returns (m s)) ->
  (forall a s1, m s = Done a s1 -> outcome_spec (k a s1) needs Q) ->
  outcome_spec (bind m k s) needs Q.
Proof.
  intros Hr Hk. split.
  - intros Hn. destruct (Hr Hn) as [a [s1 E]].
    rewrite (bind_Done _ _ _ _ _ E). apply (proj1 (Hk a s1 E) Hn).
  - intros b s' E. destruct (bind_Done_inv _ _ _ _ _ E) as [a [s1 [E1 E2]]].
    apply (proj2 (Hk a s1 E1) b s' E2).
Qed.

(** Sequencing two specified runs. *)
Lemma spec_seq {A B} (m : M A) (k : A -> M B) s
  (needs needs1 : Prop) (Q1 : A -> State -> Prop) (Q : B -> State -> Prop) :
  outcome_spec (m s) needs1 Q1 ->
  (needs -> needs1) ->
  (forall a s1, Q1 a s1 -> outcome_spec (k a s1) needs Q) ->
  outcome_spec (bind m k s) needs Q.
Proof.
  intros [T P] Hn Hk. apply spec_bind.
  - intros H. apply T, Hn, H.
  - intros a s1 E. apply Hk, P, E.
Qed.

(** ** The seek loop *)

(** The loop of [SeekToStartSequence] runs with [started_] cleared, so the
    batches it reads are accepted without a gap check.  It needs a reader
    and one unit of fuel more than the reader holds records. *)
Lemma SeekLoop_spec env d strict : forall n s,
  started_ s = false ->
  outcome_spec (SeekLoop env n d strict s)
               (ready s /\ (reader_len s < n)%nat)
               (SeekLoop_post env strict s).
Proof.
  induction n as [|n IH]; intros s Hst.
  - apply spec_fuel. lia.
  - rewrite SeekLoop_eq.
    apply spec_bind;
      [intros [Hrd _]; apply RestrictedRead_returns, (proj1 Hrd)|].
    intros r s1 Hr.
    destruct (RestrictedRead_inv _ _ _ _ Hr) as [[ord Hs1] [K1 Hx]].
    assert (Hst1 : started_ s1 = false) by (subst s1; exact Hst).
    destruct r as [record|].
    2:{ apply spec_Done. split; [exact K1|]. subst s1. cbn.
        repeat apply conj; auto; try discriminate.
        unfold Valid. cbn. rewrite Hst. discriminate. }
    destruct (Hx record eq_refl) as [Hlen [_ _]].
    destruct (Z.ltb_spec (size record) 12) as [Hsm|Hbig].
    + eapply spec_weaken; [apply (IH s1 Hst1)| |].
      { intros [Hrd Hn]. split; [apply (k_ready _ _ _ K1), Hrd|lia]. }
      intros b s' [K [A [B C]]].
      split; [eapply kept_trans; eauto|].
      subst s1. cbn in *. repeat apply conj; tauto.
    + destruct n as [|n'].
      { apply spec_fuel. lia. }
      rewrite (bind_Done _ _ _ _ _
                 (UpdateCurrentWriteBatch_unstarted env n' d record s1 Hst1)).
      pose proof (accept_state_fields env record s1) as F. cbv zeta in F.
      destruct F as [Fst [Fsn [Fix [Ff [Fr [Fv [Fs [Fb [Fq Fl]]]]]]]]].
      pose proof (accept_after_read _ _ _ _ Hr Hbig) as Ka.
      pose proof (accept_state_coherent env record s1) as Hco.
      remember (accept_state env record s1) as sa eqn:Esa. clear Esa.
      rewrite bind_get.
      assert (Es : startingSequenceNumber_ sa = startingSequenceNumber_ s)
        by (rewrite Fsn; subst s1; reflexivity).
      assert (Ei : currentFileIndex_ sa = currentFileIndex_ s)
        by (rewrite Fix; subst s1; reflexivity).
      destruct (Z.leb_spec (startingSequenceNumber_ sa) (currentLastSeq_ sa)) as [Hge|Hlt].
      * destruct (strict && negb (currentBatchSeq_ sa =? startingSequenceNumber_ sa))
          eqn:Hgap; repeat rewrite bind_modify; apply spec_Done.
        -- split; [eapply kept_trans; [exact Ka|apply kept_frame; cbn; auto; intro; auto]|].
           cbn. repeat apply conj; auto; try discriminate.
           unfold Valid. cbn. rewrite Fst, Hst1. discriminate.
        -- split; [eapply kept_trans; [exact Ka|apply kept_frame; cbn; auto; intro; auto]|].
           cbn. repeat apply conj; auto; try discriminate.
           intros _.
           split; [destruct Hco as [b0 Hb0]; exists b0; cbn; exact Hb0|].
           split; [assumption|].
           intros ->. cbn in Hgap. apply negb_false_iff in Hgap.
           apply Z.eqb_eq in Hgap. congruence.
      * rewrite bind_modify.
        assert (Hst2 : started_ (set_isValid false sa) = false)
          by (cbn; congruence).
        assert (Kv : kept env s (set_isValid false sa)).
        { eapply kept_trans; [exact Ka|].
          apply kept_frame; cbn; auto; intro; auto. }
        eapply spec_weaken; [apply (IH _ Hst2)| |].
        -- intros [Hrd Hn]. split; [apply (k_ready _ _ _ Kv), Hrd|].
           unfold reader_len in *. cbn. rewrite Fr. lia.
        -- intros b s' [K [A [B C]]]. split.
           { eapply kept_trans; [exact Ka|].
             eapply kept_trans; [|exact K].
             apply kept_frame; cbn; auto; intro; auto. }
           cbn in *. rewrite Es in *. rewrite Ei in *.
           repeat apply conj; tauto.
Qed.

Lemma positioned_invalid s : isValid_ s = false -> positioned s.
Proof.
  intros H V. unfold Valid in V. rewrite H, andb_false_r in V. discriminate.
Qed.

Lemma contiguous_invalid s s' : isValid_ s' = false -> contiguous s s'.
Proof.
  intros H _ V. unfold Valid in V. rewrite H, andb_false_r in V. discriminate.
Qed.

Lemma contiguous_from s s1 s' :
  started_ s1 = started_ s -> currentLastSeq_ s1 = currentLastSeq_ s ->
  contiguous s1 s' -> contiguous s s'.
Proof. unfold contiguous. intros -> ->. auto. Qed.

Lemma kept_unmark env s rd :
  currentLogReader_ s = Some rd ->
  kept env s (set_currentLogReader (Some (UnmarkEOF rd)) s).
Proof.
  intros E. apply (kept_reader env s rd); [exact E|cbn; lia|cbn; auto].
Qed.

(** ** The loops of [NextImpl]

    Both loops are specified once, for any caller that knows what
    [UpdateCurrentWriteBatch] does on the states it is called in: the
    internal call from the seek runs unstarted, the call from [Next] runs
    started. *)

Section NextLoops.

Variable env : Env.
Variables (d : nat) (internal : bool) (cU m : nat).

Hypothesis Update_known : forall n record s,
  loop_pre internal s ->
  outcome_spec (UpdateCurrentWriteBatch env n d record s)
               (ready s /\ bounded env m s /\ (cU <= n)%nat)
               (fun _ s' => Update_post env record s s').

Lemma NextReadLoop_spec : forall n s,
  loop_pre internal s ->
  outcome_spec (NextReadLoop env n d internal s)
               (ready s /\ bounded env m s /\ (reader_len s + cU < n)%nat)
               (NextReadLoop_post env s).
Proof.
  induction n as [|n IH]; intros s Hpre.
  - apply spec_fuel. lia.
  - rewrite NextReadLoop_eq.
    apply spec_bind;
      [intros [Hrd _]; apply RestrictedRead_returns, (proj1 Hrd)|].
    intros r s1 Hr.
    destruct (RestrictedRead_inv _ _ _ _ Hr) as [[ord Hs1] [K1 Hx]].
    assert (Hpre1 : loop_pre internal s1) by (subst s1; exact Hpre).
    destruct r as [record|].
    2:{ apply spec_Done. split; [exact K1|]. split; [eauto|discriminate]. }
    destruct (Hx record eq_refl) as [Hlen [_ Hcr]].
    destruct (Z.ltb_spec (size record) 12) as [Hsm|Hbig].
    + eapply spec_weaken; [apply (IH s1 Hpre1)| |].
      * intros [Hrd [Hb Hn]].
        split; [apply (k_ready _ _ _ K1), Hrd|].
        split; [apply (k_bounded _ _ _ K1); exact Hb|lia].
      * intros b s' [K [A B]].
        split; [eapply kept_trans; eauto|]. split.
        -- intros Hb. destruct (A Hb) as [ord' ->]. subst s1.
           exists ord'. reflexivity.
        -- intros Hb. destruct (B Hb) as [P C]. split; [exact P|].
           intros Hs Hv. unfold contiguous in C. subst s1.
           apply C; [exact Hs|exact Hv].
    + rewrite bind_get.
      set (a1 := assert_ AssertStartedIfExternal (internal || started_ s1)).
      set (a2 := assert_ AssertUnstartedIfInternal
                         (negb internal || negb (started_ s1))).
      assert (Ha : exists s2, (a1 ;;; a2 ;;; ret tt) s1 = Done tt s2 /\
                   kept env s1 s2 /\ started_ s2 = started_ s1 /\
                   currentLastSeq_ s2 = currentLastSeq_ s1).
      { subst a1 a2. unfold assert_, bind, modify, ret.
        destruct (internal || started_ s1), (negb internal || negb (started_ s1));
          eexists; (split; [reflexivity|]);
          (split; [apply kept_frame; cbn; auto; intros Hin; cbn in Hin;
                   intuition discriminate|cbn; auto]). }
      destruct Ha as [s2 [E2 [K2 [St2 L2]]]].
      assert (E2' : forall B (k : M B),
                 (a1 ;;; a2 ;;; k) s1 = k s2).
      { intros B k. revert E2. unfold bind.
        destruct (a1 s1) as [[] x| | | |]; try discriminate.
        destruct (a2 x) as [[] y| | | |]; try discriminate.
        unfold ret. intros E; injection E as <-. reflexivity. }
      rewrite E2'. clear E2 E2'.
      assert (Hpre2 : loop_pre internal s2).
      { intros Hi. rewrite St2. apply Hpre1, Hi. }
      assert (K12 : kept env s s2) by (eapply kept_trans; eauto).
      eapply spec_seq; [apply (Update_known n record s2 Hpre2)| |].
      { intros [Hrd [Hb Hn]].
        split; [apply (k_ready _ _ _ K12), Hrd|].
        split; [apply (k_bounded _ _ _ K12), Hb|lia]. }
      intros [] s3 [K3 [P3 [C3 U3]]].
      rewrite bind_get.
      assert (K : kept env s s3).
      { eapply kept_given_after; [exact K12| |exact K3].
        intros Hrc. apply Hcr; assumption. }
      assert (Hsl : started_ s2 = started_ s /\ currentLastSeq_ s2 = currentLastSeq_ s).
      { rewrite St2, L2. subst s1. split; reflexivity. }
      destruct Hsl as [Hs2 Hl2].
      destruct (internal && negb (started_ s3)) eqn:Hw; unfold when;
        [rewrite bind_modify|]; rewrite ?bind_ret; apply spec_Done.
      * apply andb_true_iff in Hw. destruct Hw as [Hi Hn3].
        subst internal.
        assert (Hs : started_ s2 = false) by (apply Hpre2; reflexivity).
        destruct (U3 Hs) as [_ [V3 [Co3 S3]]].
        split; [eapply kept_trans; [exact K|apply kept_frame; cbn; auto; intro; auto]|].
        split; [discriminate|]. intros _. split.
        -- intros _. split; [|exact S3].
           destruct Co3 as [b0 Hb0]. exists b0. exact Hb0.
        -- intros Hs'. rewrite <- Hs2 in Hs'. congruence.
      * split; [exact K|]. split; [discriminate|]. intros _.
        split; [exact P3|].
        intros Hs Hv. rewrite <- Hl2. apply C3; [congruence|exact Hv].
Qed.

(** Opening the next file brings the end of the list closer. *)
Lemma files_left_next s :
  (currentFileIndex_ s <? u64 (files_size s - 1)) = true ->
  (0 <= u64 (currentFileIndex_ s + 1) < files_size s) ->
  (files_left (set_currentFileIndex (u64 (currentFileIndex_ s + 1)) s)
   < files_left s)%nat.
Proof.
  intros Hlt Hin. apply Z.ltb_lt in Hlt.
  unfold files_left, files_size in *. cbn.
  destruct (Z.ltb_spec (u64 (currentFileIndex_ s + 1)) 0) as [H|H]; [lia|].
  destruct (Z.ltb_spec (currentFileIndex_ s) 0) as [H0|H0]; [lia|].
  assert (Hm : u64 (Z.of_nat (List.length (files_ s)) - 1) < 2 ^ 64)
    by (unfold u64; apply Z.mod_pos_bound; lia).
  assert (E : u64 (currentFileIndex_ s + 1) = currentFileIndex_ s + 1)
    by (unfold u64; apply Z.mod_small; lia).
  rewrite E in *. lia.
Qed.

(** Moving the file index within the list. *)
Lemma kept_index s i :
  0 <= i < files_size s -> kept env s (set_currentFileIndex i s).
Proof.
  intros Hi. split; cbn; auto.
  - intros _ Hr. split; [exact Hr|intro; auto].
  - intros [_ [_ Hl]]. split; [|split]; cbn; [lia|left; exact (proj2 Hi)|exact Hl].
  - intros [Hr [_ Hl]]. split; [exact Hr|]. split; [exact Hi|exact Hl].
Qed.

(** In a ready state, the test [currentFileIndex_ < files_->size() - 1]
    means that there is a next file. *)
Lemma next_file_in_range s :
  ready s ->
  (currentFileIndex_ s <? u64 (files_size s - 1)) = true ->
  u64 (currentFileIndex_ s + 1) = currentFileIndex_ s + 1 /\
  0 <= currentFileIndex_ s + 1 < files_size s.
Proof.
  intros [_ [Hi Hl]] Hlt. apply Z.ltb_lt in Hlt.
  assert (E : u64 (files_size s - 1) = files_size s - 1)
    by (unfold u64; apply Z.mod_small; lia).
  rewrite E in Hlt. split; [|lia].
  unfold u64. apply Z.mod_small. lia.
Qed.

Lemma NextFileLoop_spec : forall n s,
  loop_pre internal s ->
  outcome_spec (NextFileLoop env n d internal s)
               (ready s /\ bounded env m s /\
                (files_left s + m + cU + 2 <= n)%nat)
               (fun _ s' => Next_post env s s').
Proof.
  induction n as [|n IH]; intros s Hpre.
  - apply spec_fuel. lia.
  - rewrite NextFileLoop_eq. rewrite bind_get.
    destruct (currentLogReader_ s) as [rd|] eqn:Erd.
    2:{ apply spec_absurd; [|discriminate].
        intros [[Hr _] _]. congruence. }
    set (s1 := if IsEOF rd then set_currentLogReader (Some (UnmarkEOF rd)) s else s).
    assert (E1 : forall B (k : unit -> M B),
               (when (IsEOF rd) (modify (set_currentLogReader (Some (UnmarkEOF rd)))) ;;; k tt) s
               = k tt s1).
    { intros B k. subst s1. unfold when. destruct (IsEOF rd); reflexivity. }
    rewrite (E1 _ (fun _ => _)). clear E1.
    assert (K1 : kept env s s1).
    { subst s1. destruct (IsEOF rd); [apply kept_unmark; exact Erd|apply kept_refl]. }
    assert (F1 : started_ s1 = started_ s /\ currentLastSeq_ s1 = currentLastSeq_ s /\
                 currentFileIndex_ s1 = currentFileIndex_ s /\ files_ s1 = files_ s).
    { subst s1. destruct (IsEOF rd); cbn; auto. }
    destruct F1 as [Fs [Fl [Fi Ff]]].
    assert (Hpre1 : loop_pre internal s1).
    { intros Hi. rewrite Fs. apply Hpre, Hi. }
    clearbody s1.
    eapply spec_seq; [apply (NextReadLoop_spec n s1 Hpre1)| |].
    { intros [Hrd [Hb Hn]]. split; [apply (k_ready _ _ _ K1), Hrd|].
      split; [apply (k_bounded _ _ _ K1), Hb|].
      destruct (k_bounded _ _ _ K1 _ Hb) as [Hr _]. lia. }
    intros b s2 [K2 [A2 B2]].
    assert (K12 : kept env s s2) by (eapply kept_trans; eauto).
    destruct b.
    { apply spec_Done. destruct (B2 eq_refl) as [P C].
      split; [exact K12|]. split; [exact P|].
      eapply contiguous_from; eauto. }
    destruct (A2 eq_refl) as [ord2 Es2]. clear A2 B2.
    rewrite bind_get.
    assert (F2 : started_ s2 = started_ s /\ currentLastSeq_ s2 = currentLastSeq_ s /\
                 currentFileIndex_ s2 = currentFileIndex_ s /\ files_ s2 = files_ s).
    { subst s2. cbn. auto. }
    destruct F2 as [Fs2 [Fl2 [Fi2 Ff2]]]. clear Es2.
    destruct (currentFileIndex_ s2 <? u64 (files_size s2 - 1)) eqn:Hnext.
    + rewrite bind_modify, bind_get.
      set (s3 := set_currentFileIndex (u64 (currentFileIndex_ s2 + 1)) s2).
      apply spec_bind.
      { intros [Hrd _]. apply files_at_returns.
        destruct (next_file_in_range s2 (k_ready _ _ _ K12 Hrd) Hnext) as [E Hr].
        cbn. rewrite E. exact Hr. }
      intros f s3' Hf. destruct (files_at_inv _ _ _ _ Hf) as [-> [Hin Hrange]].
      assert (K3 : kept env s2 s3) by (apply kept_index; exact Hrange).
      apply spec_bind; [intros _; apply OpenLogReader_returns|].
      intros st s4 Ho.
      destruct (OpenLogReader_inv _ _ _ _ _ Hin Ho) as [K4 [[-> [file ->]]|[Hno ->]]].
      * cbn [ok negb].
        assert (Hpre4 : loop_pre internal
                  (set_currentLogReader (Some (mkReader file false)) s3)).
        { intros Hi. cbn. rewrite Fs2. apply Hpre, Hi. }
        eapply spec_weaken; [apply (IH _ Hpre4)| |].
        -- intros [Hrd [Hb Hn]].
           split; [apply (k_ready _ _ _ K4), (k_ready _ _ _ K3),
                     (k_ready _ _ _ K12), Hrd|].
           split.
           ++ apply (k_bounded _ _ _ K4), (k_bounded _ _ _ K3),
                (k_bounded _ _ _ K12), Hb.
           ++ pose proof (files_left_next s2 Hnext Hrange) as Hd.
              assert (El : files_left (set_currentLogReader (Some (mkReader file false)) s3)
                           = files_left s3) by reflexivity.
              assert (El2 : files_left s2 = files_left s).
              { unfold files_left, files_size. rewrite Fi2, Ff2. reflexivity. }
              fold s3 in Hd. lia.
        -- intros _ s' [K [P C]]. split.
           ++ eapply kept_trans; [exact K12|].
              eapply kept_trans; [exact K3|].
              eapply kept_trans; [exact K4|exact K].
           ++ split; [exact P|].
              eapply contiguous_from; [| |exact C]; cbn; assumption.
      * rewrite Hno. cbn [negb]. rewrite !bind_modify. apply spec_Done.
        split.
        -- eapply kept_trans; [exact K12|].
           eapply kept_trans; [exact K3|].
           apply kept_frame; cbn; auto; intro; auto.
        -- split; [apply positioned_invalid|apply contiguous_invalid]; reflexivity.
    + rewrite bind_modify.
      destruct (currentLastSeq_ s2 =? LastSequence env); apply spec_Done;
        (split; [eapply kept_trans; [exact K12|];
                 apply kept_frame; cbn; auto; intro; auto|]);
        (split; [apply positioned_invalid|apply contiguous_invalid]; reflexivity).
Qed.

End NextLoops.

(** ** The three member functions *)

Lemma positioned_unstarted s : started_ s = false -> positioned s.
Proof. intros H V. unfold Valid in V. rewrite H in V. discriminate. Qed.

Lemma files_left_le s : (files_left s <= S (List.length (files_ s)))%nat.
Proof.
  unfold files_left, files_size.
  destruct (Z.ltb_spec (currentFileIndex_ s) 0); lia.
Qed.

Lemma accept_Update_post env r s :
  (started_ s = true -> Sequence r = u64 (currentLastSeq_ s + 1)) ->
  Update_post env r s (accept_state env r s).
Proof.
  intros Hexp.
  pose proof (accept_state_fields env r s) as F. cbv zeta in F.
  destruct F as [Fst [_ [_ [_ [_ [Fv [Fs [_ [Fq _]]]]]]]]].
  pose proof (accept_state_coherent env r s) as Hco.
  split; [apply accept_kept_given|].
  split; [intros _; split; assumption|].
  split.
  - intros Hs _. rewrite Fq. apply Hexp, Hs.
  - intros Hs. rewrite Fst. auto.
Qed.

Lemma ready_index_ok s : ready s -> index_ok s.
Proof. intros [_ [Hi Hl]]. split; [lia|]. split; [left; lia|exact Hl]. Qed.

Lemma u64_le i : 0 <= i -> 0 <= u64 i <= i.
Proof.
  intros Hi. unfold u64. split.
  - apply Z.mod_pos_bound. lia.
  - apply Z.mod_le; lia.
Qed.

(** From an unstarted state [UpdateCurrentWriteBatch] needs one unit of
    fuel, whatever the reseek budget. *)
Lemma Update_unstarted_spec env d m n record s :
  loop_pre true s ->
  outcome_spec (UpdateCurrentWriteBatch env n d record s)
               (ready s /\ bounded env m s /\ (1 <= n)%nat)
               (fun _ s' => Update_post env record s s').
Proof.
  intros Hpre. specialize (Hpre eq_refl).
  destruct n as [|n]; [apply spec_fuel; lia|].
  rewrite UpdateCurrentWriteBatch_unstarted by exact Hpre.
  apply spec_Done. apply accept_Update_post. congruence.
Qed.

(** [SeekToStartSequence] returns from every state whose file index is in
    order, given fuel for the records of one file and, when it goes on into
    [NextImpl], for the files of the list. *)
Lemma SeekToStartSequence_spec env d m strict startFileIndex : forall n s,
  outcome_spec (SeekToStartSequence env n d startFileIndex strict s)
               (index_ok s /\ 0 <= startFileIndex /\
                bounded env m s /\ (seek_fuel m <= n)%nat)
               (fun _ s' => Seek_post env strict s s').
Proof.
  intros n s. unfold seek_fuel.
  destruct n as [|n]; [apply spec_fuel; lia|].
  rewrite SeekToStartSequence_eq. rewrite !bind_modify, bind_get.
  set (s0 := set_isValid false (set_started false s)).
  assert (K0 : kept env s s0) by (apply kept_frame; cbn; auto; intro; auto).
  destruct (Z.leb_spec (files_size s0) startFileIndex) as [_|Hsize].
  { apply spec_Done. split; [exact K0|].
    split; [apply positioned_invalid; reflexivity|].
    split; [intros _ V; unfold Valid in V; cbn in V; discriminate|].
    intros _ Hs. cbn in Hs. discriminate. }
  apply spec_bind.
  { intros [_ [H0 _]]. apply files_at_returns. lia. }
  intros f s0' Hf. destruct (files_at_inv _ _ _ _ Hf) as [-> [Hin Hrange]].
  apply spec_bind; [intros _; apply OpenLogReader_returns|].
  intros st s1 Ho.
  destruct (OpenLogReader_inv _ _ _ _ _ Hin Ho) as [K1 [[-> [file ->]]|[Hno ->]]].
  2:{ rewrite Hno. cbn [negb]. apply spec_Done.
      split; [eapply kept_trans; [exact K0|apply kept_frame; cbn; auto; intro; auto]|].
      split; [apply positioned_invalid; reflexivity|].
      split; [intros _ V; unfold Valid in V; cbn in V; discriminate|].
      intros _ Hs. cbn in Hs. discriminate. }
  cbn [ok negb].
  set (s1 := set_currentLogReader (Some (mkReader file false)) s0) in *.
  assert (Hst1 : started_ s1 = false) by reflexivity.
  assert (K01 : kept env s s1) by (eapply kept_trans; eauto).
  assert (Hready1 : index_ok s -> ready s1).
  { intros [Hi0 [Hi1 Hl]]. split; [discriminate|].
    change (currentFileIndex_ s1) with (currentFileIndex_ s).
    change (files_size s1) with (files_size s).
    change (files_size s0) with (files_size s) in Hrange.
    split; [lia|exact Hl]. }
  eapply spec_seq; [apply (SeekLoop_spec env d strict n s1 Hst1)| |].
  { intros [Hi [_ [Hb Hn]]]. split; [apply Hready1, Hi|].
    destruct (k_bounded _ _ _ K01 _ Hb) as [Hr _]. lia. }
  intros b s2 [K2 [Esn [Eix [Hfalse [Hgap Hval]]]]].
  assert (K02 : kept env s s2) by (eapply kept_trans; eauto).
  destruct b.
  { apply spec_Done. split; [exact K02|]. split; [|split].
    - intros V. destruct (Hval V) as [Hc [Hs _]]. auto.
    - intros Hstrict V. destruct (Hval V) as [_ [_ Hq]].
      rewrite (Hq Hstrict). reflexivity.
    - intros Hi _. apply (k_ready _ _ _ K2), Hready1, Hi. }
  specialize (Hfalse eq_refl).
  destruct strict.
  { apply spec_Done.
    split; [eapply kept_trans; [exact K02|apply kept_frame; cbn; auto; intro; auto]|].
    split; [apply positioned_unstarted; exact Hfalse|].
    split.
    - intros _ V. unfold Valid in V. cbn in V. rewrite Hfalse in V. discriminate.
    - intros _ Hs. cbn in Hs. congruence. }
  rewrite bind_get.
  destruct (negb (files_size s2 =? 1)).
  2:{ apply spec_Done. split; [exact K02|].
      split; [apply positioned_unstarted; exact Hfalse|].
      split; [discriminate|]. intros _ Hs. congruence. }
  rewrite bind_modify.
  destruct n as [|n]; [apply spec_fuel; lia|].
  rewrite NextImpl_eq. rewrite bind_modify, bind_get. cbn [negb andb].
  set (s3 := set_isValid false (set_currentStatus StartNotFound s2)).
  assert (K23 : kept env s2 s3) by (apply kept_frame; cbn; auto; intro; auto).
  assert (Hpre3 : loop_pre true s3) by (intros _; exact Hfalse).
  assert (Hready3 : index_ok s -> ready s3).
  { intros Hi. apply (k_ready _ _ _ K23), (k_ready _ _ _ K2), Hready1, Hi. }
  eapply spec_weaken;
    [apply (NextFileLoop_spec env d true 1 m
              (fun n record s => Update_unstarted_spec env d m n record s)
              n s3 Hpre3)| |].
  - intros [Hi [_ [Hb Hn]]]. split; [apply Hready3, Hi|].
    pose proof (k_bounded _ _ _ K23 _ (k_bounded _ _ _ K02 _ Hb)) as Hb3.
    split; [exact Hb3|].
    pose proof (files_left_le s3) as Hl. destruct Hb3 as [_ [_ Hfl]]. lia.
  - intros _ s' [K [P _]].
    split; [eapply kept_trans; [exact K02|eapply kept_trans; eauto]|].
    split; [exact P|]. split; [discriminate|].
    intros Hi _. apply (k_ready _ _ _ K), Hready3, Hi.
Qed.

(** With a reseek budget of at least one, [UpdateCurrentWriteBatch] always
    returns: the strict seek it may start reads with [started_] cleared and
    does not reseek again. *)
Lemma UpdateCurrentWriteBatch_spec env d m n record s :
  outcome_spec (UpdateCurrentWriteBatch env n (S d) record s)
               (ready s /\ bounded env m s /\ (update_fuel m <= n)%nat)
               (fun _ s' => Update_post env record s s').
Proof.
  unfold update_fuel.
  destruct n as [|n]; [apply spec_fuel; lia|].
  rewrite UpdateCurrentWriteBatch_eq. rewrite bind_get. cbv zeta.
  destruct (started_ s) eqn:Hst.
  2:{ cbn [andb]. rewrite accept_batch_run. apply spec_Done.
      apply accept_Update_post. congruence. }
  cbn [andb].
  destruct (IsBatchExpected record (u64 (currentLastSeq_ s + 1))) eqn:Hexp.
  { cbn [negb]. rewrite accept_batch_run. apply spec_Done.
    apply accept_Update_post. intros _. apply Z.eqb_eq. exact Hexp. }
  cbn [negb].
  apply spec_bind.
  { intros [[_ [Hi _]] _]. apply files_at_returns, Hi. }
  intros f s' Hf. destruct (files_at_inv _ _ _ _ Hf) as [-> [_ Hrange]].
  set (expectedSeq := u64 (currentLastSeq_ s + 1)).
  set (s1 := if (expectedSeq <? StartSequence f) && negb (currentFileIndex_ s =? 0)
             then set_currentFileIndex (u64 (currentFileIndex_ s - 1)) s else s).
  assert (E1 : forall B (k : unit -> M B),
             (when (expectedSeq <? StartSequence f)
                   (when (negb (currentFileIndex_ s =? 0))
                      (modify (set_currentFileIndex (u64 (currentFileIndex_ s - 1))))) ;;;
              k tt) s = k tt s1).
  { intros B k. subst s1. unfold when.
    destruct (expectedSeq <? StartSequence f), (negb (currentFileIndex_ s =? 0));
      reflexivity. }
  rewrite (E1 _ (fun _ => _)). clear E1.
  assert (K1 : kept env s s1).
  { subst s1.
    destruct (expectedSeq <? StartSequence f); cbn [andb]; [|apply kept_refl].
    destruct (Z.eqb_spec (currentFileIndex_ s) 0) as [_|Hne]; cbn [negb];
      [apply kept_refl|].
    apply kept_index.
    pose proof (u64_le (currentFileIndex_ s - 1)). lia. }
  assert (F1 : started_ s1 = true).
  { subst s1. destruct (_ && _); cbn; exact Hst. }
  assert (I1 : 0 <= currentFileIndex_ s1).
  { subst s1. destruct (_ && _); cbn; [|lia].
    unfold u64. apply Z.mod_pos_bound. lia. }
  clearbody s1.
  rewrite !bind_modify, bind_get.
  set (s2 := set_currentStatus GapNotFound (set_startingSequenceNumber expectedSeq s1)).
  assert (K2 : kept env s s2).
  { eapply kept_trans; [exact K1|apply kept_frame; cbn; auto; intro; auto]. }
  eapply spec_weaken; [apply (SeekToStartSequence_spec env d m true _ n s2)| |].
  - intros [Hrd [Hb Hn]].
    split; [apply ready_index_ok, (k_ready _ _ _ K2), Hrd|].
    split; [exact I1|].
    split; [apply (k_bounded _ _ _ K2), Hb|lia].
  - intros _ s' [K [P [Q _]]]. split.
    + apply kept_is_given. eapply kept_trans; eauto.
    + split; [exact P|]. split.
      * intros _ V. apply (Q eq_refl V).
      * congruence.
Qed.

(** [NextImpl] as [Next] calls it: from a well-formed state, with the fuel
    [next_fuel] and a budget of one reseek, it returns, in a well-formed
    state. *)
Lemma Next_spec env d m n s :
  outcome_spec (Next env n (S d) s)
               (wf s /\ bounded env m s /\ (next_fuel m <= n)%nat)
               (fun _ s' => Next_post env s s' /\ (wf s -> wf s')).
Proof.
  unfold Next, next_fuel.
  destruct n as [|n]; [apply spec_fuel; lia|].
  rewrite NextImpl_eq. rewrite bind_modify, bind_get. cbn [negb andb].
  set (s0 := set_isValid false s).
  assert (K0 : kept env s s0) by (apply kept_frame; cbn; auto; intro; auto).
  change (started_ s0) with (started_ s).
  destruct (started_ s) eqn:Hst; cbn [negb].
  - assert (Hpre : loop_pre false s0) by (intro; discriminate).
    eapply spec_weaken;
      [apply (NextFileLoop_spec env (S d) false (update_fuel m) m
                (fun n record s _ => UpdateCurrentWriteBatch_spec env d m n record s)
                n s0 Hpre)| |].
    + intros [[_ Hw] [Hb Hn]].
      split; [apply (k_ready _ _ _ K0), Hw, Hst|].
      pose proof (k_bounded _ _ _ K0 _ Hb) as Hb0. split; [exact Hb0|].
      pose proof (files_left_le s0) as Hl. destruct Hb0 as [_ [_ Hfl]].
      unfold update_fuel, seek_fuel. lia.
    + intros _ s' [K [P C]]. split.
      * split; [eapply kept_trans; eauto|]. split; [exact P|].
        eapply contiguous_from; [| |exact C]; reflexivity.
      * intros [Hi Hw]. split.
        -- apply (k_index _ _ _ K), (k_index _ _ _ K0), Hi.
        -- intros _. apply (k_ready _ _ _ K), (k_ready _ _ _ K0), Hw, Hst.
  - eapply spec_weaken; [apply (SeekToStartSequence_spec env (S d) m false 0 n s0)| |].
    + intros [[Hi _] [Hb Hn]].
      split; [apply (k_index _ _ _ K0), Hi|]. split; [lia|].
      split; [apply (k_bounded _ _ _ K0), Hb|unfold seek_fuel; lia].
    + intros _ s' [K [P [_ R]]]. split.
      * split; [eapply kept_trans; eauto|]. split; [exact P|].
        intros Hs. congruence.
      * intros [Hi _]. split.
        -- apply (k_index _ _ _ K), (k_index _ _ _ K0), Hi.
        -- apply R, (k_index _ _ _ K0), Hi.
Qed.

(** * The claims *)

(** ** Reading is restricted to committed sequences *)

(** C6. A record is read only while [currentLastSeq_] is below the last
    sequence of the version set: in every state with
    [currentLastSeq_ >= LastSequence], [RestrictedRead] answers false and
    leaves the state, and so the reader, untouched. *)
Theorem RestrictedRead_at_last_sequence env s :
  LastSequence env <= currentLastSeq_ s ->
  RestrictedRead env s = Done None s.
Proof.
  intros H. unfold RestrictedRead, bind, get, ret.
  apply Z.leb_le in H. rewrite H. reflexivity.
Qed.

Lemma RestrictedRead_at_last_sequence_witness :
  let s := state_of (run clean_env 20 1 [live_log 1 1] 1) in
  LastSequence clean_env <= currentLastSeq_ s /\
  RestrictedRead clean_env s = Done None s.
Proof.
  cbv zeta. split.
  - vm_compute. discriminate.
  - apply RestrictedRead_at_last_sequence. vm_compute. discriminate.
Defined.

(** ** Opening a log file *)

(** C8. An archived file is opened at its archived path only.  A live file
    is opened at its live path; when that fails, with whatever error, the
    archived path is tried and its result is the result.  So a live file
    whose live path is missing opens when the archived path exists. *)
Theorem OpenLogFile_archive_fallback env logFile :
  let live := NewSequentialFile env (LogFileName (LogNumber logFile)) in
  let archived := NewSequentialFile env (ArchivedLogFileName (LogNumber logFile)) in
  let result r := match r with
                  | inr file => (OK, Some file)
                  | inl (c, m) => (Err c m, None)
                  end in
  (Type_ logFile = kArchivedLogFile ->
   OpenLogFile env logFile = result archived) /\
  (Type_ logFile = kAliveLogFile ->
   (forall file, live = inr file -> OpenLogFile env logFile = (OK, Some file)) /\
   (forall e, live = inl e -> OpenLogFile env logFile = result archived) /\
   (forall e file, live = inl e -> archived = inr file ->
      OpenLogFile env logFile = (OK, Some file))).
Proof.
  cbv zeta. unfold OpenLogFile. split.
  - intros ->. reflexivity.
  - intros ->. split; [|split].
    + intros file ->. reflexivity.
    + intros e ->. reflexivity.
    + intros e file -> ->. reflexivity.
Qed.

Lemma OpenLogFile_archive_fallback_witness :
  let env := mkEnv (archived_log [batch 1 2; batch 3 1]) 3 in
  NewSequentialFile env (LogFileName 1) = no_such_file /\
  OpenLogFile env (live_log 1 1) = (OK, Some [batch 1 2; batch 3 1]) /\
  OpenLogFile env (mkLogFile 1 kArchivedLogFile 1 0)
  = (OK, Some [batch 1 2; batch 3 1]).
Proof.
  cbv zeta. split; [reflexivity|]. split.
  - apply (proj2 (OpenLogFile_archive_fallback
                    (mkEnv (archived_log [batch 1 2; batch 3 1]) 3)
                    (live_log 1 1)) eq_refl)
      with (e := (kNotFound, "No such file or directory"%string));
      reflexivity.
  - apply (proj1 (OpenLogFile_archive_fallback
                    (mkEnv (archived_log [batch 1 2; batch 3 1]) 3)
                    (mkLogFile 1 kArchivedLogFile 1 0)) eq_refl).
Defined.

(** ** GetBatch after a failed reseek *)

(** C9. [GetBatch] looks at [isValid_] only.  In the run below the log
    holds sequences 1 and 3; the first [Next] finds the gap, the strict
    reseek fails on the batch of sequence 3 and returns with [isValid_] set
    and [started_] clear.  [Valid] is false, the status is the gap
    corruption, and [GetBatch] passes its assertion and hands out the batch
    of sequence 3. *)
Theorem GetBatch_after_failed_reseek :
  let s := state_of (run (gap_env 3) 20 1 [live_log 1 1] 1) in
  reachable (gap_env 3) s /\
  run (gap_env 3) 20 1 [live_log 1 1] 1 = Done tt s /\
  Valid s = false /\ isValid_ s = true /\ started_ s = false /\
  currentStatus_ s = GapCorruption /\
  GetBatch s = Done (mkBatchResult 3 (Some (batch 3 1)))
                    (set_currentBatch None s) /\
  failed_ (set_currentBatch None s) = [].
Proof.
  cbv zeta. split.
  - apply (reach_Next (gap_env 3) 20 0
             (state_of (run (gap_env 3) 20 1 [live_log 1 1] 0))).
    + apply (reach_new (gap_env 3) 20 1 1 [live_log 1 1]);
        vm_compute; reflexivity.
    + vm_compute. reflexivity.
  - repeat apply conj; vm_compute; reflexivity.
Qed.

(** ** Running past the last file *)

Lemma set_currentLogReader_same s rd :
  currentLogReader_ s = Some rd -> set_currentLogReader (Some rd) s = s.
Proof. destruct s. cbn. intros ->. reflexivity. Qed.

Lemma RestrictedRead_blocked env s :
  LastSequence env <= currentLastSeq_ s -> RestrictedRead env s = Done None s.
Proof.
  intros H. apply Z.leb_le in H.
  unfold RestrictedRead, bind, get, ret. rewrite H. reflexivity.
Qed.

Lemma RestrictedRead_empty env s rd :
  currentLastSeq_ s < LastSequence env ->
  currentLogReader_ s = Some rd -> pending rd = [] ->
  RestrictedRead env s
  = Done None (set_currentLogReader (Some (mkReader [] true)) s).
Proof.
  intros H Hrd Hp. apply Z.leb_gt in H.
  unfold RestrictedRead, bind, get, ret, modify, ReadRecord.
  rewrite H, Hrd, Hp. reflexivity.
Qed.

Lemma RestrictedRead_cons env s rd r rest :
  currentLastSeq_ s < LastSequence env ->
  currentLogReader_ s = Some rd -> pending rd = r :: rest ->
  RestrictedRead env s
  = Done (Some r) (set_currentLogReader (Some (mkReader rest (eof_ rd))) s).
Proof.
  intros H Hrd Hp. apply Z.leb_gt in H.
  unfold RestrictedRead, bind, get, ret, modify, ReadRecord.
  rewrite H, Hrd, Hp. reflexivity.
Qed.

(** With nothing left to read but records too short to hold a batch, the
    record loop of [NextImpl] falls through and changes the reader only. *)
Lemma NextReadLoop_nothing_to_read env d internal :
  forall l n s rd,
    currentLogReader_ s = Some rd -> pending rd = l ->
    LastSequence env <= currentLastSeq_ s \/ Forall (fun r => size r < 12) l ->
    (List.length l < n)%nat ->
    exists rd',
      NextReadLoop env n d internal s
      = Done false (set_currentLogReader (Some rd') s) /\
      (LastSequence env <= currentLastSeq_ s \/ pending rd' = []) /\
      (List.length (pending rd') <= List.length l)%nat.
Proof.
  induction l as [|r l IH]; intros n s rd Hrd Hp Hex Hn;
    (destruct n as [|n]; [cbn in Hn; lia|]);
    rewrite NextReadLoop_eq.
  - destruct (Z.leb_spec (LastSequence env) (currentLastSeq_ s)) as [H|H].
    + rewrite (bind_Done _ _ _ _ _ (RestrictedRead_blocked env s H)).
      exists rd. rewrite set_currentLogReader_same by exact Hrd.
      rewrite Hp. auto.
    + rewrite (bind_Done _ _ _ _ _ (RestrictedRead_empty env s rd H Hrd Hp)).
      eexists. split; [reflexivity|]. cbn. auto.
  - destruct (Z.leb_spec (LastSequence env) (currentLastSeq_ s)) as [H|H].
    + rewrite (bind_Done _ _ _ _ _ (RestrictedRead_blocked env s H)).
      exists rd. rewrite set_currentLogReader_same by exact Hrd.
      rewrite Hp. auto.
    + destruct Hex as [Hex|Hex]; [lia|].
      rewrite (bind_Done _ _ _ _ _ (RestrictedRead_cons env s rd r l H Hrd Hp)).
      inversion Hex as [|x y Hr Hl]; subst x y.
      apply Z.ltb_lt in Hr. rewrite Hr.
      destruct (IH n (set_currentLogReader (Some (mkReader l (eof_ rd))) s)
                  (mkReader l (eof_ rd)) eq_refl eq_refl (or_intror Hl))
        as [rd' [E [Hend Hle]]]; [cbn in Hn; lia|].
      exists rd'. rewrite E. split; [destruct s; reflexivity|].
      split; [exact Hend|cbn; lia].
Qed.

(** Past the last file: [NextImpl] clears [isValid_] and sets the final
    status, OK when the iterator has caught up with the writer and
    "NO MORE DATA LEFT" otherwise. *)
Lemma NextFileLoop_past_last_file env d internal n s rd :
  currentLogReader_ s = Some rd ->
  LastSequence env <= currentLastSeq_ s \/
    Forall (fun r => size r < 12) (pending rd) ->
  ~ currentFileIndex_ s < u64 (files_size s - 1) ->
  (reader_len s + 2 <= n)%nat ->
  exists rd',
    NextFileLoop env n d internal s
    = Done tt (set_currentStatus (final_status env s)
                 (set_isValid false (set_currentLogReader (Some rd') s))) /\
    (LastSequence env <= currentLastSeq_ s \/ pending rd' = []) /\
    (List.length (pending rd') <= reader_len s)%nat.
Proof.
  intros Hrd Hex Hidx Hn.
  destruct n as [|n]; [lia|].
  rewrite NextFileLoop_eq, bind_get, Hrd.
  set (rd1 := if IsEOF rd then UnmarkEOF rd else rd).
  set (s1 := set_currentLogReader (Some rd1) s).
  assert (E1 : forall B (k : unit -> M B),
             (when (IsEOF rd) (modify (set_currentLogReader (Some (UnmarkEOF rd)))) ;;; k tt) s
             = k tt s1).
  { intros B k. subst s1 rd1. unfold when. destruct (IsEOF rd).
    - reflexivity.
    - rewrite set_currentLogReader_same by exact Hrd. reflexivity. }
  rewrite (E1 _ (fun _ => _)). clear E1.
  assert (Hp1 : pending rd1 = pending rd) by (subst rd1; destruct (IsEOF rd); reflexivity).
  destruct (NextReadLoop_nothing_to_read env d internal (pending rd) n s1 rd1
              eq_refl Hp1 Hex) as [rd' [E [Hend Hle]]].
  { unfold reader_len in Hn. rewrite Hrd in Hn. lia. }
  rewrite (bind_Done _ _ _ _ _ E). rewrite bind_get.
  change (currentFileIndex_ (set_currentLogReader (Some rd') s1))
    with (currentFileIndex_ s).
  change (files_size (set_currentLogReader (Some rd') s1)) with (files_size s).
  destruct (Z.ltb_spec (currentFileIndex_ s) (u64 (files_size s - 1))) as [H|_];
    [contradiction|].
  rewrite bind_modify. exists rd'.
  split; [|split; [exact Hend|unfold reader_len; rewrite Hrd; exact Hle]].
  unfold final_status.
  change (currentLastSeq_ (set_currentLogReader (Some rd') s1))
    with (currentLastSeq_ s).
  destruct (currentLastSeq_ s =? LastSequence env); unfold modify;
    destruct s; reflexivity.
Qed.

Lemma max_file_len_bounds env files :
  Forall (fun f => (file_len env f <= max_file_len env files)%nat) files.
Proof.
  induction files as [|f files IH]; constructor; cbn.
  - apply Nat.le_max_l.
  - eapply Forall_impl; [|exact IH]. cbn. intros g Hg.
    etransitivity; [exact Hg|apply Nat.le_max_r].
Qed.

Lemma bounded_size_bound env s : bounded env (size_bound env s) s.
Proof.
  unfold bounded, size_bound. split; [apply Nat.le_max_l|]. split.
  - eapply Forall_impl; [|apply (max_file_len_bounds env)].
    intros f Hf. cbv beta in Hf |- *. lia.
  - lia.
Qed.

Lemma skipn_cons_nth {A} (l : list A) : forall n x rest,
  skipn n l = x :: rest ->
  nth_error l n = Some x /\ skipn (S n) l = rest.
Proof.
  induction l as [|y l IH]; intros n x rest H.
  - destruct n; discriminate.
  - destruct n as [|n].
    + cbn in H. injection H as -> ->. auto.
    + cbn in H. apply IH in H. exact H.
Qed.

(** The loop of [NextImpl] over files that give nothing: it opens each of
    the [k] files left, runs past the last one and sets the final status. *)
Lemma NextFileLoop_runs_off env d internal m : forall k n s rd,
  currentLogReader_ s = Some rd ->
  yields_nothing env (currentLastSeq_ s) (pending rd) ->
  0 <= currentFileIndex_ s ->
  files_size s < 2 ^ 64 ->
  (Z.to_nat (currentFileIndex_ s) + 1 + k = List.length (files_ s))%nat ->
  Forall (opens_empty env (currentLastSeq_ s))
         (skipn (Z.to_nat (currentFileIndex_ s) + 1) (files_ s)) ->
  bounded env m s ->
  (k + m + 2 <= n)%nat ->
  exists s',
    NextFileLoop env n d internal s = Done tt s' /\
    isValid_ s' = false /\
    started_ s' = started_ s /\
    currentLastSeq_ s' = currentLastSeq_ s /\
    currentStatus_ s' = final_status env s.
Proof.
  induction k as [|k IH]; intros n s rd Hrd Hex Hi Hsz Hlen Hrest Hb Hn;
    (destruct n as [|n]; [lia|]);
    rewrite NextFileLoop_eq, bind_get, Hrd;
    set (rd1 := if IsEOF rd then UnmarkEOF rd else rd);
    set (s1 := set_currentLogReader (Some rd1) s);
    assert (E1 : forall B (k0 : unit -> M B),
               (when (IsEOF rd) (modify (set_currentLogReader (Some (UnmarkEOF rd)))) ;;; k0 tt) s
               = k0 tt s1)
      by (intros B k0; subst s1 rd1; unfold when; destruct (IsEOF rd);
          [reflexivity|rewrite set_currentLogReader_same by exact Hrd; reflexivity]);
    rewrite (E1 _ (fun _ => _)); clear E1;
    assert (Hp1 : pending rd1 = pending rd)
      by (subst rd1; destruct (IsEOF rd); reflexivity);
    (destruct (NextReadLoop_nothing_to_read env d internal (pending rd) n s1 rd1
                 eq_refl Hp1 Hex) as [rd' [E _]];
     [destruct Hb as [Hb _]; unfold reader_len in Hb; rewrite Hrd in Hb; lia|]);
    rewrite (bind_Done _ _ _ _ _ E), bind_get;
    set (s2 := set_currentLogReader (Some rd') s1) in *;
    change (currentFileIndex_ s2) with (currentFileIndex_ s);
    change (files_size s2) with (files_size s);
    assert (Eu : u64 (files_size s - 1) = files_size s - 1)
      by (unfold u64, files_size in *; apply Z.mod_small; lia).
  - destruct (Z.ltb_spec (currentFileIndex_ s) (u64 (files_size s - 1))) as [H|_];
      [unfold files_size in *; lia|].
    rewrite bind_modify. unfold final_status.
    change (currentLastSeq_ s2) with (currentLastSeq_ s).
    destruct (currentLastSeq_ s =? LastSequence env); unfold modify;
      eexists; (split; [reflexivity|]); cbn; auto.
  - destruct (Z.ltb_spec (currentFileIndex_ s) (u64 (files_size s - 1))) as [_|H];
      [|unfold files_size in *; lia].
    rewrite bind_modify, bind_get.
    assert (Ei : u64 (currentFileIndex_ s + 1) = currentFileIndex_ s + 1)
      by (unfold u64, files_size in *; apply Z.mod_small; lia).
    change (currentFileIndex_ s2) with (currentFileIndex_ s). rewrite Ei.
    set (s3 := set_currentFileIndex (currentFileIndex_ s + 1) s2).
    destruct (skipn (Z.to_nat (currentFileIndex_ s) + 1) (files_ s))
      as [|f rest] eqn:Esk.
    { apply (f_equal (@List.length _)) in Esk. rewrite length_skipn in Esk.
      cbn in Esk. lia. }
    destruct (skipn_cons_nth _ _ _ _ Esk) as [Hnth Hsk].
    inversion Hrest as [|x y [recs [Ho Hy]] Hrest']; subst x y.
    assert (Hf : files_at (currentFileIndex_ s + 1) s3 = Done f s3).
    { unfold files_at. change (currentFileIndex_ s3) with (currentFileIndex_ s + 1).
      destruct (Z.ltb_spec (currentFileIndex_ s + 1) 0) as [H|_]; [lia|].
      change (files_ s3) with (files_ s).
      replace (Z.to_nat (currentFileIndex_ s + 1))
        with (Z.to_nat (currentFileIndex_ s) + 1)%nat by lia.
      rewrite Hnth. reflexivity. }
    change (currentFileIndex_ s3) with (currentFileIndex_ s + 1).
    rewrite (bind_Done _ _ _ _ _ Hf).
    unfold OpenLogReader. rewrite Ho.
    rewrite (bind_Done _ _ s3 OK
               (set_currentLogReader (Some (mkReader recs false)) s3) eq_refl).
    cbn [ok negb].
    set (s4 := set_currentLogReader (Some (mkReader recs false)) s3).
    destruct (IH n s4 (mkReader recs false) eq_refl Hy) as [s' [E' P]].
    + cbn. lia.
    + exact Hsz.
    + change (currentFileIndex_ s4) with (currentFileIndex_ s + 1).
      change (files_ s4) with (files_ s). lia.
    + change (currentFileIndex_ s4) with (currentFileIndex_ s + 1).
      change (files_ s4) with (files_ s).
      change (currentLastSeq_ s4) with (currentLastSeq_ s).
      replace (Z.to_nat (currentFileIndex_ s + 1) + 1)%nat
        with (S (Z.to_nat (currentFileIndex_ s) + 1)) by lia.
      rewrite Hsk. exact Hrest'.
    + destruct Hb as [_ [Hbf Hbl]]. split; [|split; assumption].
      unfold reader_len. cbn.
      rewrite Forall_forall in Hbf.
      specialize (Hbf f (nth_error_In _ _ Hnth)).
      unfold file_len in Hbf. rewrite Ho in Hbf. exact Hbf.
    + lia.
    + exists s'. split; [exact E'|]. exact P.
Qed.

(** C3. When an advance runs past the last file of the list, [NextImpl]
    returns with [isValid_] false and the status OK if [currentLastSeq_]
    equals the last sequence of the version set, and Corruption
    "NO MORE DATA LEFT" otherwise.  The advance runs past the last file when
    neither the open reader nor any of the [k] files after the current one
    gives a batch: reading is blocked at the last sequence, or the records
    are too short to hold a batch. *)
Theorem NextImpl_past_last_file env d internal k n s rd :
  internal = true \/ started_ s = true ->
  currentLogReader_ s = Some rd ->
  yields_nothing env (currentLastSeq_ s) (pending rd) ->
  0 <= currentFileIndex_ s ->
  files_size s < 2 ^ 64 ->
  (Z.to_nat (currentFileIndex_ s) + 1 + k = List.length (files_ s))%nat ->
  Forall (opens_empty env (currentLastSeq_ s))
         (skipn (Z.to_nat (currentFileIndex_ s) + 1) (files_ s)) ->
  (k + size_bound env s + 3 <= n)%nat ->
  exists s',
    NextImpl env n d internal s = Done tt s' /\
    isValid_ s' = false /\ Valid s' = false /\
    currentLastSeq_ s' = currentLastSeq_ s /\
    currentStatus_ s' =
      (if currentLastSeq_ s =? LastSequence env then OK else NoMoreData).
Proof.
  intros Hmode Hrd Hex Hi Hsz Hlen Hrest Hn.
  destruct n as [|n]; [lia|].
  rewrite NextImpl_eq, bind_modify, bind_get.
  change (started_ (set_isValid false s)) with (started_ s).
  assert (Hc : negb internal && negb (started_ s) = false).
  { destruct Hmode as [-> | ->]; [reflexivity|apply andb_false_r]. }
  rewrite Hc.
  destruct (NextFileLoop_runs_off env d internal (size_bound env s) k n
              (set_isValid false s) rd Hrd Hex Hi Hsz Hlen Hrest)
    as [s' [E [Hv [Hs [Hl Hst]]]]].
  { apply (bounded_size_bound env s). }
  { lia. }
  exists s'. split; [exact E|].
  split; [exact Hv|]. split; [unfold Valid; rewrite Hv; apply andb_false_r|].
  split; [exact Hl|exact Hst].
Qed.

Lemma NextImpl_past_last_file_witness :
  let env := mkEnv (two_logs [batch 1 2] []) 5 in
  let files := [live_log 1 1; live_log 2 3] in
  let s := state_of (run env 20 1 files 0) in
  started_ s = true /\ currentLastSeq_ s = 2 /\ currentFileIndex_ s = 0 /\
  exists s',
    NextImpl env 10 1 false s = Done tt s' /\
    isValid_ s' = false /\ Valid s' = false /\
    currentLastSeq_ s' = currentLastSeq_ s /\
    currentStatus_ s' =
      (if currentLastSeq_ s =? LastSequence env then OK else NoMoreData).
Proof.
  intros env files s.
  split; [vm_compute; reflexivity|]. split; [vm_compute; reflexivity|].
  split; [vm_compute; reflexivity|].
  apply (NextImpl_past_last_file env 1 false 1 10 s (mkReader [] false)).
  - right. vm_compute. reflexivity.
  - vm_compute. reflexivity.
  - right. constructor.
  - vm_compute. discriminate.
  - vm_compute. reflexivity.
  - vm_compute. reflexivity.
  - change (skipn (Z.to_nat (currentFileIndex_ s) + 1) (files_ s))
      with [live_log 2 3].
    constructor; [|constructor].
    exists []. split; [reflexivity|]. right. constructor.
  - vm_compute. lia.
Defined.

(** ** Stickiness of the final status *)

Lemma Next_past_last_file env d n s :
  past_last_file env s ->
  (reader_len s + 3 <= n)%nat ->
  exists s',
    Next env n d s = Done tt s' /\
    past_last_file env s' /\ (reader_len s' <= reader_len s)%nat /\
    Valid s' = false /\
    final_status env s' = final_status env s /\
    currentStatus_ s' = final_status env s.
Proof.
  intros [Hst [[rd [Hrd Hex]] Hidx]] Hn.
  unfold Next. destruct n as [|n]; [lia|].
  rewrite NextImpl_eq, bind_modify, bind_get.
  change (started_ (set_isValid false s)) with (started_ s).
  rewrite Hst. cbn [negb andb].
  destruct (NextFileLoop_past_last_file env d false n (set_isValid false s) rd
              Hrd Hex Hidx) as [rd' [E [Hend Hle]]].
  { change (reader_len (set_isValid false s)) with (reader_len s). lia. }
  eexists. split; [exact E|].
  split; [|split; [|split; [|split]]].
  - split; [exact Hst|]. split; [|exact Hidx].
    exists rd'. split; [reflexivity|].
    destruct Hend as [H|H]; [left; exact H|right; rewrite H; constructor].
  - unfold reader_len at 1. cbn. exact Hle.
  - unfold Valid. cbn. apply andb_false_r.
  - reflexivity.
  - reflexivity.
Qed.

(** On a started iterator that stands past its last file, every further
    [Next] returns, leaves [Valid] false and sets the final status again. *)
Lemma Next_times_past_last_file env d s : forall k n,
  past_last_file env s ->
  (reader_len s + 3 <= n)%nat ->
  exists s',
    Next_times env n d (S k) s = Done tt s' /\
    Valid s' = false /\
    currentStatus_ s' = final_status env s.
Proof.
  intros k n. revert s.
  induction k as [|k IH]; intros s Hp Hn;
    destruct (Next_past_last_file env d n s Hp Hn)
      as [s1 [E [Hp1 [Hl [Hv [Hf Hs]]]]]].
  - exists s1. cbn. rewrite E. auto.
  - destruct (IH s1 Hp1) as [s' [E' [Hv' Hs']]]; [lia|].
    exists s'. change (Next_times env n d (S (S k)) s)
      with (match Next env n d s with
            | Done _ s0 => Next_times env n d (S k) s0
            | o => o
            end).
    rewrite E. split; [exact E'|]. split; [exact Hv'|congruence].
Qed.

(** C2, as stated, fails.  The log holds sequences 1 and 3 and the writer is
    at sequence 5.  The first [Next] finds the gap; the strict reseek fails
    and latches the gap corruption with [Valid] false.  The next [Next]
    finds the iterator unstarted, seeks again from the first file without
    the strict flag, and lands on the batch of sequence 3: [Valid] is true
    again and the status is OK. *)
Lemma gap_status_not_sticky :
  let s1 := state_of (run (gap_env 5) 20 1 [live_log 1 1] 1) in
  let s2 := state_of (run (gap_env 5) 20 1 [live_log 1 1] 2) in
  run (gap_env 5) 20 1 [live_log 1 1] 1 = Done tt s1 /\
  currentStatus_ s1 = GapCorruption /\ Valid s1 = false /\
  Next (gap_env 5) 20 1 s1 = Done tt s2 /\
  Valid s2 = true /\ currentStatus_ s2 = OK /\
  currentBatch_ s2 = Some (batch 3 1).
Proof.
  cbv zeta. repeat apply conj; vm_compute; reflexivity.
Qed.

(** The error of a failed open is not final either: the second log cannot
    be opened, the first [Next] latches the error, and the following [Next],
    now standing on the last file, replaces it by OK. *)
Lemma open_error_not_sticky :
  let env := mkEnv (one_log [batch 1 1]) 1 in
  let files := [live_log 1 1; live_log 2 2] in
  let s1 := state_of (run env 20 1 files 1) in
  let s2 := state_of (run env 20 1 files 2) in
  run env 20 1 files 1 = Done tt s1 /\
  currentStatus_ s1 = Err kNotFound "No such file or directory"%string /\
  Valid s1 = false /\
  Next env 20 1 s1 = Done tt s2 /\
  Valid s2 = false /\ currentStatus_ s2 = OK.
Proof.
  cbv zeta. repeat apply conj; vm_compute; reflexivity.
Qed.

(** ** A strict seek that cannot land on the starting sequence *)

Lemma SeekLoop_strict_gap env d r post : forall pre n s e,
  started_ s = false ->
  currentLogReader_ s = Some (mkReader (pre ++ r :: post) e) ->
  currentLastSeq_ s < LastSequence env ->
  Forall (passed_over env (startingSequenceNumber_ s)) pre ->
  12 <= size r ->
  startingSequenceNumber_ s <= u64 (Sequence r + Count r - 1) ->
  Sequence r <> startingSequenceNumber_ s ->
  (List.length pre + 2 <= n)%nat ->
  exists s',
    SeekLoop env n d true s = Done true s' /\
    currentStatus_ s' = GapCorruption /\
    started_ s' = false /\ isValid_ s' = true /\
    currentBatch_ s' = Some r /\
    startingSequenceNumber_ s' = startingSequenceNumber_ s.
Proof.
  induction pre as [|x pre IH]; intros n s e Hst Hrd Hlast Hpre Hsz Hreach Hgap Hn;
    (destruct n as [|n]; [cbn in Hn; lia|]);
    rewrite SeekLoop_eq;
    rewrite (bind_Done _ _ _ _ _
               (RestrictedRead_cons env s _ _ _ Hlast Hrd eq_refl));
    cbn [pending eof_];
    match goal with
    | |- context [set_currentLogReader ?o s] =>
        set (s1 := set_currentLogReader o s)
    end;
    assert (Hst1 : started_ s1 = false) by exact Hst.
  - destruct (Z.ltb_spec (size r) 12) as [H|_]; [lia|].
    destruct n as [|n]; [cbn in Hn; lia|].
    rewrite (bind_Done _ _ _ _ _
               (UpdateCurrentWriteBatch_unstarted env n d r s1 Hst1)).
    pose proof (accept_state_fields env r s1) as F. cbv zeta in F.
    destruct F as [Fst [Fsn [_ [_ [_ [Fv [_ [Fb [Fq Fl]]]]]]]]].
    rewrite bind_get, Fsn, Fl, Fq.
    change (startingSequenceNumber_ s1) with (startingSequenceNumber_ s).
    apply Z.leb_le in Hreach. rewrite Hreach.
    apply Z.eqb_neq in Hgap. rewrite Hgap. cbn [negb andb].
    rewrite bind_modify. unfold ret.
    eexists. split; [reflexivity|].
    cbn [currentStatus_ started_ isValid_ currentBatch_
         startingSequenceNumber_ set_currentStatus].
    rewrite Fst, Fv, Fb, Fsn. auto.
  - inversion Hpre as [|y l Hx Hrest]; subst y l.
    destruct (Z.ltb_spec (size x) 12) as [Hsm|Hbig].
    + destruct (IH n s1 e Hst1 eq_refl Hlast Hrest Hsz Hreach Hgap)
        as [s' [E P]]; [cbn in Hn; lia|].
      exists s'. split; [exact E|exact P].
    + destruct Hx as [Hx|[Hx1 Hx2]]; [lia|].
      destruct n as [|n]; [cbn in Hn; lia|].
      rewrite (bind_Done _ _ _ _ _
                 (UpdateCurrentWriteBatch_unstarted env n d x s1 Hst1)).
      pose proof (accept_state_fields env x s1) as F. cbv zeta in F.
      destruct F as [Fst [Fsn [_ [_ [Fr [_ [_ [_ [_ Fl]]]]]]]]].
      rewrite bind_get, Fsn, Fl.
      change (startingSequenceNumber_ s1) with (startingSequenceNumber_ s).
      destruct (Z.leb_spec (startingSequenceNumber_ s)
                           (u64 (Sequence x + Count x - 1))) as [H|_]; [lia|].
      rewrite bind_modify.
      set (s2 := set_isValid false (accept_state env x s1)).
      assert (Hst2 : started_ s2 = false) by (cbn; rewrite Fst; exact Hst1).
      assert (Hrd2 : currentLogReader_ s2 = Some (mkReader (pre ++ r :: post) e))
        by (cbn; rewrite Fr; reflexivity).
      assert (Hlast2 : currentLastSeq_ s2 < LastSequence env)
        by (cbn; rewrite Fl; exact Hx2).
      assert (Hsn2 : startingSequenceNumber_ s2 = startingSequenceNumber_ s)
        by (cbn; rewrite Fsn; reflexivity).
      clearbody s2. rewrite <- Hsn2 in Hrest, Hreach, Hgap.
      destruct (IH (S n) s2 e Hst2 Hrd2 Hlast2 Hrest Hsz Hreach Hgap)
        as [s' [E P]]; [cbn in Hn; lia|].
      exists s'. split; [exact E|].
      rewrite <- Hsn2. exact P.
Qed.

(** C5. A strict seek opens the file and passes over the records that end
    before the starting sequence.  If the first batch that reaches the
    starting sequence does not start exactly there, the seek returns with
    the status Corruption "Gap in sequence number. Could not seek to
    required sequence number" and [Valid] false.  ([started_] is false;
    the flag [isValid_] itself is left set.) *)
Theorem strict_seek_gap env d n startFileIndex s f pre r post :
  files_at startFileIndex s = Done f s ->
  OpenLogFile env f = (OK, Some (pre ++ r :: post)) ->
  currentLastSeq_ s < LastSequence env ->
  Forall (passed_over env (startingSequenceNumber_ s)) pre ->
  12 <= size r ->
  startingSequenceNumber_ s <= u64 (Sequence r + Count r - 1) ->
  Sequence r <> startingSequenceNumber_ s ->
  (List.length pre + 3 <= n)%nat ->
  exists s',
    SeekToStartSequence env n d startFileIndex true s = Done tt s' /\
    currentStatus_ s' = GapCorruption /\
    Valid s' = false /\
    started_ s' = false /\ isValid_ s' = true.
Proof.
  intros Hf Ho Hlast Hpre Hsz Hreach Hgap Hn.
  destruct n as [|n]; [lia|].
  rewrite SeekToStartSequence_eq, !bind_modify, bind_get.
  set (s0 := set_isValid false (set_started false s)).
  destruct (files_at_inv _ _ _ _ Hf) as [_ [_ Hrange]].
  change (files_size s0) with (files_size s).
  destruct (Z.leb_spec (files_size s) startFileIndex) as [H|_]; [lia|].
  assert (Hf0 : files_at startFileIndex s0 = Done f s0).
  { revert Hf. unfold files_at. change (files_ s0) with (files_ s).
    destruct (startFileIndex <? 0); [discriminate|].
    destruct (nth_error (files_ s) (Z.to_nat startFileIndex)); [|discriminate].
    intros E. injection E as ->. reflexivity. }
  rewrite (bind_Done _ _ _ _ _ Hf0).
  unfold OpenLogReader. rewrite Ho.
  rewrite (bind_Done _ _ s0 OK
             (set_currentLogReader (Some (mkReader (pre ++ r :: post) false)) s0)
             eq_refl).
  cbn [ok negb].
  destruct (SeekLoop_strict_gap env d r post pre n
              (set_currentLogReader (Some (mkReader (pre ++ r :: post) false)) s0)
              false eq_refl eq_refl Hlast Hpre Hsz Hreach Hgap)
    as [s' [E [Hs [Hst [Hv _]]]]]; [lia|].
  rewrite (bind_Done _ _ _ _ _ E).
  exists s'. split; [reflexivity|].
  unfold Valid. rewrite Hst, Hv. auto.
Qed.

Lemma strict_seek_gap_witness :
  let env := gap_env 3 in
  let s := set_currentStatus GapNotFound
             (set_startingSequenceNumber 2
                (state_of (run env 20 1 [live_log 1 1] 0))) in
  currentLastSeq_ s = 1 /\
  exists s',
    SeekToStartSequence env 10 0 0 true s = Done tt s' /\
    currentStatus_ s' = GapCorruption /\
    Valid s' = false /\
    started_ s' = false /\ isValid_ s' = true.
Proof.
  cbv zeta. split; [vm_compute; reflexivity|].
  apply (strict_seek_gap (gap_env 3) 0 10 0 _ (live_log 1 1)
           [batch 1 1] (batch 3 1) []).
  - vm_compute. reflexivity.
  - vm_compute. reflexivity.
  - vm_compute. reflexivity.
  - constructor; [|constructor]. right. vm_compute. split; reflexivity.
  - vm_compute. discriminate.
  - vm_compute. discriminate.
  - vm_compute. discriminate.
  - vm_compute. lia.
Defined.

(** ** The reseek after a gap *)

(** A strict seek leaves the starting sequence as it found it. *)
Lemma strict_seek_keeps_starting env d startFileIndex n s s' :
  SeekToStartSequence env n d startFileIndex true s = Done tt s' ->
  startingSequenceNumber_ s' = startingSequenceNumber_ s.
Proof.
  enough (H : outcome_spec (SeekToStartSequence env n d startFileIndex true s) False
                (fun _ s' => startingSequenceNumber_ s' = startingSequenceNumber_ s))
    by (apply (proj2 H tt s')).
  destruct n as [|n]; [apply spec_fuel; tauto|].
  rewrite SeekToStartSequence_eq, !bind_modify, bind_get.
  set (s0 := set_isValid false (set_started false s)).
  destruct (files_size s0 <=? startFileIndex); [apply spec_Done; reflexivity|].
  apply spec_bind; [tauto|].
  intros f s0' Hf. destruct (files_at_inv _ _ _ _ Hf) as [-> [Hin _]].
  apply spec_bind; [tauto|].
  intros st s1 Ho.
  destruct (OpenLogReader_inv _ _ _ _ _ Hin Ho) as [_ [[-> [file ->]]|[Hno ->]]].
  2:{ rewrite Hno. cbn [negb]. apply spec_Done. reflexivity. }
  cbn [ok negb].
  eapply spec_seq; [apply (SeekLoop_spec env d true n)| |]; [reflexivity|tauto|].
  intros b s2 [_ [Esn _]].
  destruct b; apply spec_Done; cbn; rewrite ?Esn; reflexivity.
Qed.

(** C4. When a started iterator is handed a batch that does not start at
    the expected sequence, one past [currentLastSeq_], then
    [UpdateCurrentWriteBatch] steps one file back exactly when the expected
    sequence is below the start sequence of the current file and the
    current file is not the first; it sets the starting sequence to the
    expected one and the status to NotFound "Gap in sequence numbers"; and
    it runs the strict seek from the chosen file.  The starting sequence
    stays the expected one, and if the strict seek positions the iterator,
    it does so on the batch that starts at the expected sequence, with the
    status OK again. *)
Theorem gap_starts_strict_reseek env n d record s f :
  started_ s = true ->
  Sequence record <> u64 (currentLastSeq_ s + 1) ->
  files_at (currentFileIndex_ s) s = Done f s ->
  let expected := u64 (currentLastSeq_ s + 1) in
  let step_back := (expected <? StartSequence f)
                   && negb (currentFileIndex_ s =? 0) in
  let index := if step_back then u64 (currentFileIndex_ s - 1)
               else currentFileIndex_ s in
  let s1 := if step_back
            then set_currentFileIndex (u64 (currentFileIndex_ s - 1)) s
            else s in
  let s2 := set_currentStatus GapNotFound
              (set_startingSequenceNumber expected s1) in
  UpdateCurrentWriteBatch env (S n) (S d) record s
  = SeekToStartSequence env n d index true s2 /\
  (forall s',
     UpdateCurrentWriteBatch env (S n) (S d) record s = Done tt s' ->
     startingSequenceNumber_ s' = expected /\
     (Valid s' = true ->
      currentStatus_ s' = OK /\ currentBatchSeq_ s' = expected)) /\
  (forall n' d' record' s0,
     started_ s0 = false ->
     exists s1,
       UpdateCurrentWriteBatch env (S n') d' record' s0 = Done tt s1 /\
       currentStatus_ s1 = OK).
Proof.
  intros Hst Hgap Hf. cbv zeta.
  assert (E : UpdateCurrentWriteBatch env (S n) (S d) record s
              = SeekToStartSequence env n d
                  (if (u64 (currentLastSeq_ s + 1) <? StartSequence f)
                      && negb (currentFileIndex_ s =? 0)
                   then u64 (currentFileIndex_ s - 1) else currentFileIndex_ s)
                  true
                  (set_currentStatus GapNotFound
                     (set_startingSequenceNumber (u64 (currentLastSeq_ s + 1))
                        (if (u64 (currentLastSeq_ s + 1) <? StartSequence f)
                            && negb (currentFileIndex_ s =? 0)
                         then set_currentFileIndex
                                (u64 (currentFileIndex_ s - 1)) s
                         else s)))).
  { rewrite UpdateCurrentWriteBatch_eq, bind_get. cbv zeta.
    unfold IsBatchExpected. apply Z.eqb_neq in Hgap. rewrite Hst, Hgap.
    cbn [negb andb]. rewrite (bind_Done _ _ _ _ _ Hf).
    unfold when.
    destruct (u64 (currentLastSeq_ s + 1) <? StartSequence f);
      destruct (negb (currentFileIndex_ s =? 0)); reflexivity. }
  split; [exact E|]. split.
  - intros s' Hrun. rewrite E in Hrun. split.
    + rewrite (strict_seek_keeps_starting _ _ _ _ _ _ Hrun). reflexivity.
    + intros V.
      destruct (proj2 (SeekToStartSequence_spec env d 0 true _ n _) tt s' Hrun)
        as [_ [P [Q _]]].
      destruct (P V) as [_ Hs]. split; [exact Hs|].
      rewrite (Q eq_refl V). reflexivity.
  - intros n' d' record' s0 Hs0. eexists.
    split; [apply UpdateCurrentWriteBatch_unstarted, Hs0|].
    pose proof (accept_state_fields env record' s0) as F. cbv zeta in F.
    tauto.
Qed.

Lemma gap_starts_strict_reseek_witness :
  let env := mkEnv (two_logs [batch 1 1; batch 2 1] [batch 4 1; batch 3 1]) 4 in
  let files := [live_log 1 1; live_log 2 4] in
  let s := set_currentFileIndex 1 (state_of (run env 20 1 files 1)) in
  let f := live_log 2 4 in
  let record := batch 4 1 in
  (started_ s = true /\ currentLastSeq_ s = 2 /\
   files_at (currentFileIndex_ s) s = Done f s) /\
  let expected := u64 (currentLastSeq_ s + 1) in
  let step_back := (expected <? StartSequence f)
                   && negb (currentFileIndex_ s =? 0) in
  let index := if step_back then u64 (currentFileIndex_ s - 1)
               else currentFileIndex_ s in
  let s1 := if step_back
            then set_currentFileIndex (u64 (currentFileIndex_ s - 1)) s
            else s in
  let s2 := set_currentStatus GapNotFound
              (set_startingSequenceNumber expected s1) in
  UpdateCurrentWriteBatch env 10 1 record s
  = SeekToStartSequence env 9 0 index true s2 /\
  (forall s',
     UpdateCurrentWriteBatch env 10 1 record s = Done tt s' ->
     startingSequenceNumber_ s' = expected /\
     (Valid s' = true ->
      currentStatus_ s' = OK /\ currentBatchSeq_ s' = expected)) /\
  (forall n' d' record' s0,
     started_ s0 = false ->
     exists s1,
       UpdateCurrentWriteBatch env (S n') d' record' s0 = Done tt s1 /\
       currentStatus_ s1 = OK).
Proof.
  intros env files s f record. split.
  - repeat apply conj; vm_compute; reflexivity.
  - apply (gap_starts_strict_reseek env 9 0 record s f).
    + vm_compute. reflexivity.
    + vm_compute. discriminate.
    + vm_compute. reflexivity.
Defined.

(** ** Consecutive deliveries *)

Lemma GetBatch_run s :
  isValid_ s = true ->
  GetBatch s = Done (mkBatchResult (currentBatchSeq_ s) (currentBatch_ s))
                    (set_currentBatch None s).
Proof.
  intros H. unfold GetBatch, bind, get, assert_, modify, ret.
  rewrite H. reflexivity.
Qed.

(** A reachable state that reports [Valid] either has had its batch taken
    by [GetBatch] or holds a batch that agrees with its counters. *)
Lemma reachable_batch env s :
  reachable env s -> Valid s = true ->
  currentBatch_ s = None \/ coherent s.
Proof.
  intros R V.
  destruct R as [fuel d seq files s Hlen H|fuel d s0 s H0 H|s0 r s H0 H].
  - right. unfold TransactionLogIteratorImpl in H.
    pose proof (proj2 (SeekToStartSequence_spec env d 0 false 0 fuel _) tt s H)
      as [_ [P _]].
    apply P, V.
  - right. pose proof (proj2 (Next_spec env d 0 fuel s0) tt s H) as [[_ [P _]] _].
    apply P, V.
  - left. revert H. unfold GetBatch, bind, get, assert_, modify, ret.
    destruct (isValid_ s0); intros E; injection E as _ <-; reflexivity.
Qed.

Lemma u64_succ_pred x : u64 (u64 (x - 1) + 1) = u64 x.
Proof.
  unfold u64. rewrite Z.add_mod_idemp_l by lia. f_equal. lia.
Qed.

(** C1. Consecutively delivered batches are to be contiguous once the
    iterator has started; the code delivers across a gap.  The log holds
    sequences 1 and 3 and the writer is at sequence 5.  The constructor
    positions the iterator and [GetBatch] delivers the batch of sequence 1.
    [Next] finds the gap and fails the strict reseek, which has cleared
    [started_]: [Valid] is false.  The following [Next] finds the iterator
    unstarted, seeks again from the first file without the strict flag, and
    positions the iterator on the batch of sequence 3, which [GetBatch]
    delivers next: 3 is not 1 + 1. *)
Lemma deliveries_across_failed_reseek :
  let env := gap_env 5 in
  let files := [live_log 1 1] in
  let a0 := state_of (TransactionLogIteratorImpl env 20 1 1 files) in
  let a1 := set_currentBatch None a0 in
  let a2 := state_of (Next env 20 1 a1) in
  let a3 := state_of (Next env 20 1 a2) in
  let b1 := batch 1 1 in
  let b2 := batch 3 1 in
  TransactionLogIteratorImpl env 20 1 1 files = Done tt a0 /\
  Valid a0 = true /\
  GetBatch a0 = Done (mkBatchResult 1 (Some b1)) a1 /\
  Next env 20 1 a1 = Done tt a2 /\
  Valid a2 = false /\
  Next env 20 1 a2 = Done tt a3 /\
  Valid a3 = true /\
  GetBatch a3 = Done (mkBatchResult 3 (Some b2)) (set_currentBatch None a3) /\
  Sequence b2 <> u64 (Sequence b1 + Count b1).
Proof.
  cbv zeta. repeat apply conj; try (vm_compute; reflexivity).
  vm_compute. discriminate.
Qed.

(** ** The bound on the last sequence *)

Lemma reachable_committed env s :
  env_committed env -> reachable env s ->
  reader_committed env s /\ ~ In AssertLastSeqBound (failed_ s).
Proof.
  intros He R.
  induction R as [fuel d seq files s Hlen H|fuel d s0 s R IH H|s0 r s R IH H].
  - unfold TransactionLogIteratorImpl in H.
    pose proof (proj2 (SeekToStartSequence_spec env d 0 false 0 fuel _) tt s H)
      as [K _].
    destruct (k_committed _ _ _ K He) as [Hr Hn].
    + split; intros x Hx; discriminate.
    + split; [exact Hr|]. intros Hin. apply Hn in Hin. exact Hin.
  - destruct IH as [Hr0 Hn0].
    pose proof (proj2 (Next_spec env d 0 fuel s0) tt s H) as [[K _] _].
    destruct (k_committed _ _ _ K He Hr0) as [Hr Hn].
    split; [exact Hr|]. intros Hin. apply Hn0, Hn, Hin.
  - destruct IH as [[Hr0 Hb0] Hn0]. revert H.
    unfold GetBatch, bind, get, assert_, modify, ret.
    destruct (isValid_ s0); intros E; injection E as _ <-; cbn.
    + split; [split; [exact Hr0|intros b Hb; discriminate]|exact Hn0].
    + split; [split; [exact Hr0|intros b Hb; discriminate]|].
      intros [Hd|Hin]; [discriminate|auto].
Qed.

(** C7. If the log files hold only batches the writer has committed, each
    with its range of sequence numbers within [LastSequence], then in no
    run does the assertion [currentLastSeq_ <= versions_->LastSequence()],
    made right after a batch is accepted, fail; and whenever the iterator
    is valid and holds a batch to deliver, the last sequence of that batch
    is [currentLastSeq_] and is at most [LastSequence]. *)
Theorem last_sequence_assertion_holds env s :
  env_committed env -> reachable env s ->
  ~ In AssertLastSeqBound (failed_ s) /\
  forall b, Valid s = true -> currentBatch_ s = Some b ->
    currentLastSeq_ s = Sequence b + Count b - 1 /\
    currentLastSeq_ s <= LastSequence env.
Proof.
  intros He R. destruct (reachable_committed env s He R) as [[_ Hb] Hn].
  split; [exact Hn|].
  intros b V Eb. specialize (Hb b Eb). destruct Hb as [H0 [H1 H2]].
  destruct (reachable_batch env s R V) as [Hnone|[b' [Eb' [_ Hl]]]];
    [congruence|].
  assert (b' = b) by congruence. subst b'.
  assert (E : u64 (Sequence b + Count b - 1) = Sequence b + Count b - 1).
  { unfold u64. apply Z.mod_small. destruct He as [Hls _]. lia. }
  rewrite Hl, E. split; [reflexivity|exact H2].
Qed.

Lemma clean_env_committed : env_committed clean_env.
Proof.
  split; [vm_compute; reflexivity|].
  intros name recs H.
  destruct name as [[|[p|p|]|p]|n]; cbn in H; try discriminate.
  injection H as <-.
  repeat constructor; unfold committed; cbn; lia.
Qed.

Lemma last_sequence_assertion_holds_witness :
  let s := state_of (run clean_env 20 1 [live_log 1 1] 1) in
  ~ In AssertLastSeqBound (failed_ s) /\
  forall b, Valid s = true -> currentBatch_ s = Some b ->
    currentLastSeq_ s = Sequence b + Count b - 1 /\
    currentLastSeq_ s <= LastSequence clean_env.
Proof.
  cbv zeta.
  apply (last_sequence_assertion_holds clean_env).
  - exact clean_env_committed.
  - apply (reach_Next clean_env 20 0
             (state_of (run clean_env 20 1 [live_log 1 1] 0))).
    + apply (reach_new clean_env 20 1 1 [live_log 1 1]);
        vm_compute; reflexivity.
    + vm_compute. reflexivity.
Defined.

(** ** Termination *)

(** The states of a run are well-formed. *)
Lemma reachable_wf env s : reachable env s -> wf s.
Proof.
  intros R.
  induction R as [fuel d seq files s Hlen H|fuel d s0 s R IH H|s0 r s R IH H].
  - unfold TransactionLogIteratorImpl in H.
    pose proof (proj2 (SeekToStartSequence_spec env d 0 false 0 fuel _) tt s H)
      as [K [_ [_ Hr]]].
    assert (Hi : index_ok (initial seq files)).
    { split; [cbn; lia|]. split; [right; reflexivity|exact Hlen]. }
    split; [apply (k_index _ _ _ K), Hi|apply Hr, Hi].
  - pose proof (proj2 (Next_spec env d 0 fuel s0) tt s H) as [_ Hw].
    apply Hw, IH.
  - revert H. unfold GetBatch, bind, get, assert_, modify, ret.
    destruct (isValid_ s0); intros E; injection E as _ <-; exact IH.
Qed.

(** C10. Every public operation terminates.  For a list of fewer than
    2^64 files, the constructor returns, with no reseek at all.  In every
    state of a run, [Next] returns when given the fuel [enough_fuel],
    computed from the number of files and of the records in them, or more,
    and a budget of one nested reseek: the recursion between
    [UpdateCurrentWriteBatch] and the strict reseek never goes deeper,
    because the strict reseek clears [started_] and, unstarted,
    [UpdateCurrentWriteBatch] only accepts the batch.  [GetBatch] returns
    too; [Valid] and [status] do not recurse. *)
Theorem operations_terminate env s k :
  (forall seq files,
     Z.of_nat (List.length files) < 2 ^ 64 ->
     exists s',
       TransactionLogIteratorImpl env
         (seek_fuel (size_bound env (initial seq files)) + k) 0 seq files
       = Done tt s') /\
  (reachable env s ->
   exists s', Next env (enough_fuel env s + k) 1 s = Done tt s') /\
  (forall n d record,
     started_ s = false ->
     UpdateCurrentWriteBatch env (S n) d record s
     = Done tt (accept_state env record s)) /\
  (exists r s', GetBatch s = Done r s').
Proof.
  split; [|split; [|split]].
  - intros seq files Hlen. unfold TransactionLogIteratorImpl.
    destruct (proj1 (SeekToStartSequence_spec env 0
                       (size_bound env (initial seq files)) false 0
                       (seek_fuel (size_bound env (initial seq files)) + k)
                       (initial seq files))) as [[] [s' E]].
    + split; [|split; [lia|split; [apply bounded_size_bound|lia]]].
      split; [cbn; lia|]. split; [right; reflexivity|exact Hlen].
    + exists s'. exact E.
  - intros R.
    destruct (proj1 (Next_spec env 0 (size_bound env s)
                       (enough_fuel env s + k) s)) as [[] [s' E]].
    + split; [apply (reachable_wf env), R|].
      split; [apply bounded_size_bound|unfold enough_fuel; lia].
    + exists s'. exact E.
  - intros n d record Hs. apply UpdateCurrentWriteBatch_unstarted, Hs.
  - unfold GetBatch, bind, get, assert_, modify, ret.
    destruct (isValid_ s); eexists; eexists; reflexivity.
Qed.

Lemma operations_terminate_witness :
  let env := gap_env 5 in
  let files := [live_log 1 1] in
  let s := state_of (run env 20 1 files 1) in
  (exists s',
     TransactionLogIteratorImpl env
       (seek_fuel (size_bound env (initial 1 files)) + 0) 0 1 files
     = Done tt s') /\
  (exists s', Next env (enough_fuel env s + 0) 1 s = Done tt s') /\
  UpdateCurrentWriteBatch env 1 0 (batch 1 1) s
  = Done tt (accept_state env (batch 1 1) s).
Proof.
  intros env files s.
  pose proof (operations_terminate env s 0) as [Hnew [Hnext [Hupd _]]].
  split; [apply Hnew; vm_compute; reflexivity|].
  split.
  - apply Hnext.
    apply (reach_Next env 20 0 (state_of (run env 20 1 files 0))).
    + apply (reach_new env 20 1 1 files); vm_compute; reflexivity.
    + vm_compute. reflexivity.
  - apply Hupd. vm_compute. reflexivity.
Defined.

(** * Further properties of the iterator *)

(** ** Edge cases of the constructor *)

(** X1. With an empty file list the constructor returns at once, and so
    does every [Next]: the iterator is never valid, holds no batch, and its
    status stays OK. *)
Theorem empty_file_list env seq fuel k :
  run env (S (S fuel)) seq [] k = Done tt (initial seq []) /\
  Valid (initial seq []) = false /\
  currentStatus_ (initial seq []) = OK /\
  currentBatch_ (initial seq []) = None.
Proof.
  split; [|repeat apply conj; reflexivity].
  unfold run.
  assert (E0 : TransactionLogIteratorImpl env (S (S fuel)) 1 seq []
               = Done tt (initial seq [])) by reflexivity.
  rewrite E0.
  induction k as [|k IH]; [reflexivity|].
  cbn [Next_times].
  assert (E1 : Next env (S (S fuel)) 1 (initial seq []) = Done tt (initial seq []))
    by reflexivity.
  rewrite E1. exact IH.
Qed.

(** The state in which a seek leaves the iterator when the file it starts
    from cannot be opened. *)
Lemma seek_unopenable env d n strict s f c m :
  files_at 0 s = Done f s ->
  OpenLogFile env f = (Err c m, None) ->
  SeekToStartSequence env (S n) d 0 strict s
  = Done tt (set_currentStatus (Err c m)
               (set_isValid false (set_started false s))).
Proof.
  intros Hf Ho.
  rewrite SeekToStartSequence_eq, !bind_modify, bind_get.
  set (s0 := set_isValid false (set_started false s)).
  destruct (files_at_inv _ _ _ _ Hf) as [_ [_ Hrange]].
  change (files_size s0) with (files_size s).
  destruct (Z.leb_spec (files_size s) 0) as [H|_]; [lia|].
  assert (Hf0 : files_at 0 s0 = Done f s0).
  { revert Hf. unfold files_at. change (files_ s0) with (files_ s).
    cbn [Z.ltb Z.to_nat Z.compare].
    destruct (nth_error (files_ s) 0); [|discriminate].
    intros E. injection E as ->. reflexivity. }
  rewrite (bind_Done _ _ _ _ _ Hf0).
  unfold OpenLogReader. rewrite Ho. rewrite bind_ret. reflexivity.
Qed.

(** X2. If the first file of the list cannot be opened, at its live path
    nor at its archived path, the constructor leaves the iterator invalid
    with the error of the open as status; while the file stays missing,
    every [Next] tries the seek again and ends in the same state. *)
Theorem unopenable_first_file env seq f rest c m fuel k :
  OpenLogFile env f = (Err c m, None) ->
  let s := set_currentStatus (Err c m) (initial seq (f :: rest)) in
  run env (S (S fuel)) seq (f :: rest) k = Done tt s /\
  Valid s = false /\ status s = Err c m.
Proof.
  intros Ho. cbv zeta. split; [|split; reflexivity].
  unfold run, TransactionLogIteratorImpl.
  rewrite (seek_unopenable env 1 (S fuel) false (initial seq (f :: rest)) f c m
             eq_refl Ho).
  change (set_currentStatus (Err c m)
            (set_isValid false (set_started false (initial seq (f :: rest)))))
    with (set_currentStatus (Err c m) (initial seq (f :: rest))).
  induction k as [|k IH]; [reflexivity|].
  cbn [Next_times].
  assert (E : Next env (S (S fuel)) 1
                (set_currentStatus (Err c m) (initial seq (f :: rest)))
              = Done tt (set_currentStatus (Err c m) (initial seq (f :: rest)))).
  { unfold Next. rewrite NextImpl_eq, bind_modify, bind_get. cbn [negb andb].
    change (started_ (set_isValid false
              (set_currentStatus (Err c m) (initial seq (f :: rest)))))
      with false.
    cbn [negb andb].
    rewrite (seek_unopenable env 1 fuel false
               (set_isValid false
                  (set_currentStatus (Err c m) (initial seq (f :: rest))))
               f c m eq_refl Ho).
    reflexivity. }
  rewrite E. exact IH.
Qed.

Lemma unopenable_first_file_witness :
  let env := mkEnv (one_log [batch 1 1]) 1 in
  let f := live_log 7 1 in
  let s := set_currentStatus (Err kNotFound "No such file or directory"%string)
             (initial 1 [f]) in
  run env 2 1 [f] 3 = Done tt s /\
  Valid s = false /\
  status s = Err kNotFound "No such file or directory"%string.
Proof.
  intros env f s.
  apply (unopenable_first_file env 1 f [] kNotFound
           "No such file or directory"%string 0 3).
  reflexivity.
Defined.

(** ** The seek, record by record *)

(** The seek loop passes over the records that end before the starting
    sequence: it accepts each batch among them, clears [isValid_] and reads
    on. *)
Lemma SeekLoop_pass env d strict : forall pre n s e rest,
  started_ s = false ->
  currentLogReader_ s = Some (mkReader (pre ++ rest) e) ->
  currentLastSeq_ s < LastSequence env ->
  Forall (passed_over env (startingSequenceNumber_ s)) pre ->
  exists s1,
    SeekLoop env (List.length pre + S n) d strict s
    = SeekLoop env (S n) d strict s1 /\
    started_ s1 = false /\
    currentLogReader_ s1 = Some (mkReader rest e) /\
    currentLastSeq_ s1 < LastSequence env /\
    startingSequenceNumber_ s1 = startingSequenceNumber_ s /\
    currentFileIndex_ s1 = currentFileIndex_ s /\
    files_ s1 = files_ s /\
    isValid_ s1 = (if has_batch pre then false else isValid_ s) /\
    currentStatus_ s1 = (if has_batch pre then OK else currentStatus_ s).
Proof.
  induction pre as [|x pre IH]; intros n s e rest Hst Hrd Hlast Hpre.
  - exists s. cbn. repeat apply conj; auto.
  - inversion Hpre as [|y l Hx Hrest]; subst y l.
    cbn [List.length Nat.add app] in *.
    rewrite SeekLoop_eq.
    rewrite (bind_Done _ _ _ _ _
               (RestrictedRead_cons env s _ _ _ Hlast Hrd eq_refl)).
    cbn [pending eof_].
    set (s0 := set_currentLogReader (Some (mkReader (pre ++ rest) e)) s).
    assert (Hst0 : started_ s0 = false) by exact Hst.
    destruct (Z.ltb_spec (size x) 12) as [Hsm|Hbig].
    + destruct (IH n s0 e rest Hst0 eq_refl Hlast Hrest)
        as [s1 [E [A1 [A2 [A3 [A4 [A5 [A6 [A7 A8]]]]]]]]].
      exists s1. split; [exact E|].
      assert (Hh : has_batch (x :: pre) = has_batch pre).
      { unfold has_batch. cbn.
        destruct (Z.leb_spec 12 (size x)); [lia|reflexivity]. }
      rewrite Hh. repeat apply conj; assumption.
    + destruct Hx as [Hx|[Hx1 Hx2]]; [lia|].
      replace (List.length pre + S n)%nat with (S (List.length pre + n)) by lia.
      rewrite (bind_Done _ _ _ _ _
                 (UpdateCurrentWriteBatch_unstarted env _ d x s0 Hst0)).
      pose proof (accept_state_fields env x s0) as F. cbv zeta in F.
      destruct F as [Fst [Fsn [Fi [Ff [Fr [_ [Fs [_ [_ Fl]]]]]]]]].
      rewrite bind_get, Fsn, Fl.
      change (startingSequenceNumber_ s0) with (startingSequenceNumber_ s).
      destruct (Z.leb_spec (startingSequenceNumber_ s)
                           (u64 (Sequence x + Count x - 1))) as [H|_]; [lia|].
      rewrite bind_modify.
      set (s2 := set_isValid false (accept_state env x s0)).
      assert (Hst2 : started_ s2 = false) by (cbn; rewrite Fst; exact Hst0).
      assert (Hrd2 : currentLogReader_ s2 = Some (mkReader (pre ++ rest) e))
        by (cbn; rewrite Fr; reflexivity).
      assert (Hlast2 : currentLastSeq_ s2 < LastSequence env)
        by (cbn; rewrite Fl; exact Hx2).
      assert (Hsn2 : startingSequenceNumber_ s2 = startingSequenceNumber_ s)
        by (cbn; rewrite Fsn; reflexivity).
      assert (Hi2 : currentFileIndex_ s2 = currentFileIndex_ s)
        by (cbn; rewrite Fi; reflexivity).
      assert (Hf2 : files_ s2 = files_ s) by (cbn; rewrite Ff; reflexivity).
      assert (Hs2 : currentStatus_ s2 = OK) by (cbn; exact Fs).
      assert (Hv2 : isValid_ s2 = false) by reflexivity.
      clearbody s2. rewrite <- Hsn2 in Hrest.
      replace (S (List.length pre + n)) with (List.length pre + S n)%nat by lia.
      destruct (IH n s2 e rest Hst2 Hrd2 Hlast2 Hrest)
        as [s1 [E [A1 [A2 [A3 [A4 [A5 [A6 [A7 A8]]]]]]]]].
      exists s1. split; [exact E|].
      assert (Hh : has_batch (x :: pre) = true).
      { unfold has_batch. cbn.
        destruct (Z.leb_spec 12 (size x)); [reflexivity|lia]. }
      rewrite Hh. rewrite Hv2 in A7. rewrite Hs2 in A8.
      repeat apply conj; try congruence.
      * destruct (has_batch pre); exact A7.
      * destruct (has_batch pre); exact A8.
Qed.

(** The seek loop lands on a batch that reaches the starting sequence: for a
    strict seek the batch has to start there. *)
Lemma SeekLoop_land env d strict n s e r post :
  started_ s = false ->
  currentLogReader_ s = Some (mkReader (r :: post) e) ->
  currentLastSeq_ s < LastSequence env ->
  12 <= size r ->
  startingSequenceNumber_ s <= u64 (Sequence r + Count r - 1) ->
  (strict = true -> Sequence r = startingSequenceNumber_ s) ->
  SeekLoop env (S (S n)) d strict s
  = Done true
      (set_started true
         (set_isValid true
            (accept_state env r
               (set_currentLogReader (Some (mkReader post e)) s)))).
Proof.
  intros Hst Hrd Hlast Hsz Hreach Hstrict.
  rewrite SeekLoop_eq.
  rewrite (bind_Done _ _ _ _ _
             (RestrictedRead_cons env s _ _ _ Hlast Hrd eq_refl)).
  cbn [pending eof_].
  set (s0 := set_currentLogReader (Some (mkReader post e)) s).
  assert (Hst0 : started_ s0 = false) by exact Hst.
  destruct (Z.ltb_spec (size r) 12) as [H|_]; [lia|].
  rewrite (bind_Done _ _ _ _ _
             (UpdateCurrentWriteBatch_unstarted env n d r s0 Hst0)).
  pose proof (accept_state_fields env r s0) as F. cbv zeta in F.
  destruct F as [_ [Fsn [_ [_ [_ [_ [_ [_ [Fq Fl]]]]]]]]].
  rewrite bind_get, Fsn, Fl, Fq.
  change (startingSequenceNumber_ s0) with (startingSequenceNumber_ s).
  apply Z.leb_le in Hreach. rewrite Hreach.
  assert (Hg : strict && negb (Sequence r =? startingSequenceNumber_ s) = false).
  { destruct strict; [|reflexivity].
    rewrite (Hstrict eq_refl), Z.eqb_refl. reflexivity. }
  rewrite Hg. reflexivity.
Qed.

(** The seek loop falls through when the reader has nothing more. *)
Lemma SeekLoop_end env d strict n s e :
  currentLogReader_ s = Some (mkReader [] e) ->
  currentLastSeq_ s < LastSequence env ->
  SeekLoop env (S n) d strict s
  = Done false (set_currentLogReader (Some (mkReader [] true)) s).
Proof.
  intros Hrd Hlast. rewrite SeekLoop_eq.
  rewrite (bind_Done _ _ _ _ _
             (RestrictedRead_empty env s _ Hlast Hrd eq_refl)).
  reflexivity.
Qed.

(** The beginning of a seek that opens its file. *)
Lemma seek_opens env d n strict i s f recs :
  files_at i s = Done f s ->
  OpenLogFile env f = (OK, Some recs) ->
  SeekToStartSequence env (S n) d i strict s
  = (returned <- SeekLoop env n d strict ;;
     if returned : bool then ret tt
     else if strict then modify (set_currentStatus GapCorruption)
     else
       s <- get ;;
       if negb (files_size s =? 1) then
         modify (set_currentStatus StartNotFound) ;;;
         NextImpl env n d true
       else ret tt)
      (set_currentLogReader (Some (mkReader recs false))
         (set_isValid false (set_started false s))).
Proof.
  intros Hf Ho.
  rewrite SeekToStartSequence_eq, !bind_modify, bind_get.
  set (s0 := set_isValid false (set_started false s)).
  destruct (files_at_inv _ _ _ _ Hf) as [_ [_ Hrange]].
  change (files_size s0) with (files_size s).
  destruct (Z.leb_spec (files_size s) i) as [H|_]; [lia|].
  assert (Hf0 : files_at i s0 = Done f s0).
  { revert Hf. unfold files_at. change (files_ s0) with (files_ s).
    destruct (i <? 0); [discriminate|].
    destruct (nth_error (files_ s) (Z.to_nat i)); [|discriminate].
    intros E. injection E as ->. reflexivity. }
  rewrite (bind_Done _ _ _ _ _ Hf0).
  unfold OpenLogReader. rewrite Ho.
  rewrite (bind_Done _ _ s0 OK
             (set_currentLogReader (Some (mkReader recs false)) s0) eq_refl).
  reflexivity.
Qed.

(** X3. A seek opens its file, passes over the records that end before
    the starting sequence and lands on the first batch that reaches it: the
    iterator is valid on that batch with status OK, and the reader stands
    right after it.  The batch may start before the starting sequence; only
    a strict seek requires it to start exactly there. *)
Theorem seek_lands_on_first_reaching_batch env d n strict i s f pre r post :
  files_at i s = Done f s ->
  OpenLogFile env f = (OK, Some (pre ++ r :: post)) ->
  currentLastSeq_ s < LastSequence env ->
  Forall (passed_over env (startingSequenceNumber_ s)) pre ->
  12 <= size r ->
  startingSequenceNumber_ s <= u64 (Sequence r + Count r - 1) ->
  (strict = true -> Sequence r = startingSequenceNumber_ s) ->
  (List.length pre + 3 <= n)%nat ->
  exists s',
    SeekToStartSequence env n d i strict s = Done tt s' /\
    Valid s' = true /\
    currentBatch_ s' = Some r /\
    currentBatchSeq_ s' = Sequence r /\
    currentLastSeq_ s' = u64 (Sequence r + Count r - 1) /\
    currentStatus_ s' = OK /\
    currentLogReader_ s' = Some (mkReader post false) /\
    currentFileIndex_ s' = currentFileIndex_ s.
Proof.
  intros Hf Ho Hlast Hpre Hsz Hreach Hstrict Hn.
  destruct n as [|n]; [lia|].
  rewrite (seek_opens env d n strict i s f _ Hf Ho).
  set (s0 := set_currentLogReader (Some (mkReader (pre ++ r :: post) false))
               (set_isValid false (set_started false s))).
  replace n with (List.length pre + S (n - List.length pre - 1))%nat by lia.
  destruct (SeekLoop_pass env d strict pre (n - List.length pre - 1) s0 false
              (r :: post) eq_refl eq_refl Hlast Hpre)
    as [s1 [E [A1 [A2 [A3 [A4 [A5 _]]]]]]].
  assert (E' : SeekLoop env (List.length pre + S (n - List.length pre - 1)) d strict s0
               = Done true
                   (set_started true
                      (set_isValid true
                         (accept_state env r
                            (set_currentLogReader (Some (mkReader post false)) s1))))).
  { rewrite E.
    replace (S (n - List.length pre - 1)) with (S (S (n - List.length pre - 2)))
      by lia.
    apply SeekLoop_land; try assumption.
    - rewrite A4. exact Hreach.
    - rewrite A4. exact Hstrict. }
  rewrite (bind_Done _ _ _ _ _ E'). eexists. split; [reflexivity|].
  pose proof (accept_state_fields env r
                (set_currentLogReader (Some (mkReader post false)) s1)) as F.
  cbv zeta in F.
  destruct F as [_ [_ [Fi [_ [Fr [_ [Fs [Fb [Fq Fl]]]]]]]]].
  unfold Valid. cbn. rewrite Fi, Fr, Fs, Fb, Fq, Fl. cbn.
  repeat apply conj; auto.
Qed.

Lemma seek_lands_on_first_reaching_batch_witness :
  let env := mkEnv (one_log [batch 1 2; batch 3 2; batch 5 1]) 5 in
  let s := initial 4 [live_log 1 1] in
  exists s',
    SeekToStartSequence env 10 1 0 false s = Done tt s' /\
    Valid s' = true /\
    currentBatch_ s' = Some (batch 3 2) /\
    currentBatchSeq_ s' = Sequence (batch 3 2) /\
    currentLastSeq_ s' = u64 (Sequence (batch 3 2) + Count (batch 3 2) - 1) /\
    currentStatus_ s' = OK /\
    currentLogReader_ s' = Some (mkReader [batch 5 1] false) /\
    currentFileIndex_ s' = currentFileIndex_ s.
Proof.
  intros env s.
  apply (seek_lands_on_first_reaching_batch env 1 10 false 0 s (live_log 1 1)
           [batch 1 2] (batch 3 2) [batch 5 1]).
  - reflexivity.
  - reflexivity.
  - reflexivity.
  - constructor; [|constructor]. right. vm_compute. split; reflexivity.
  - vm_compute. discriminate.
  - vm_compute. discriminate.
  - discriminate.
  - vm_compute. lia.
Defined.

(** X4. A strict seek that reads its whole file without reaching the
    starting sequence ends with the gap corruption and [Valid] false.  It
    stays on its file: unlike the seek of the constructor it does not go on
    to the following files. *)
Theorem strict_seek_runs_out env d n i s f recs :
  files_at i s = Done f s ->
  OpenLogFile env f = (OK, Some recs) ->
  currentLastSeq_ s < LastSequence env ->
  Forall (passed_over env (startingSequenceNumber_ s)) recs ->
  (List.length recs + 2 <= n)%nat ->
  exists s',
    SeekToStartSequence env n d i true s = Done tt s' /\
    currentStatus_ s' = GapCorruption /\
    Valid s' = false /\
    currentFileIndex_ s' = currentFileIndex_ s /\
    currentLogReader_ s' = Some (mkReader [] true).
Proof.
  intros Hf Ho Hlast Hpre Hn.
  destruct n as [|n]; [lia|].
  rewrite (seek_opens env d n true i s f _ Hf Ho).
  set (s0 := set_currentLogReader (Some (mkReader recs false))
               (set_isValid false (set_started false s))).
  replace n with (List.length recs + S (n - List.length recs - 1))%nat by lia.
  assert (Hrd0 : currentLogReader_ s0 = Some (mkReader (recs ++ []) false))
    by (rewrite app_nil_r; reflexivity).
  destruct (SeekLoop_pass env d true recs (n - List.length recs - 1) s0 false
              [] eq_refl Hrd0 Hlast Hpre)
    as [s1 [E [A1 [A2 [A3 [A4 [A5 _]]]]]]].
  rewrite (bind_Done _ _ _ _ _
             (eq_trans E (SeekLoop_end env d true _ s1 false A2 A3))).
  eexists. split; [reflexivity|].
  unfold Valid. cbn. rewrite A1, A5. auto.
Qed.

Lemma strict_seek_runs_out_witness :
  let env := mkEnv (one_log [batch 1 1; batch 2 1]) 9 in
  let s := set_startingSequenceNumber 5 (initial 1 [live_log 1 1]) in
  exists s',
    SeekToStartSequence env 10 0 0 true s = Done tt s' /\
    currentStatus_ s' = GapCorruption /\
    Valid s' = false /\
    currentFileIndex_ s' = currentFileIndex_ s /\
    currentLogReader_ s' = Some (mkReader [] true).
Proof.
  intros env s.
  apply (strict_seek_runs_out env 0 10 0 s (live_log 1 1) [batch 1 1; batch 2 1]).
  - reflexivity.
  - reflexivity.
  - reflexivity.
  - repeat constructor; right; vm_compute; split; reflexivity.
  - vm_compute. lia.
Defined.

(** While the iterator has not started, [Next] is the seek of the
    constructor again. *)
Lemma Next_unstarted env n d s :
  started_ s = false ->
  Next env (S n) d s = SeekToStartSequence env n d 0 false (set_isValid false s).
Proof.
  intros Hst. unfold Next. rewrite NextImpl_eq, bind_modify, bind_get.
  change (started_ (set_isValid false s)) with (started_ s).
  rewrite Hst. reflexivity.
Qed.

(** ** The advance, record by record *)

(** The record loop of [NextImpl] skips the records too short to hold a
    batch. *)
Lemma NextReadLoop_skip env d internal : forall pre n s e rest,
  currentLogReader_ s = Some (mkReader (pre ++ rest) e) ->
  currentLastSeq_ s < LastSequence env ->
  all_short pre ->
  NextReadLoop env (List.length pre + n) d internal s
  = NextReadLoop env n d internal
      (set_currentLogReader (Some (mkReader rest e)) s).
Proof.
  induction pre as [|x pre IH]; intros n s e rest Hrd Hlast Hpre.
  - cbn in *. rewrite set_currentLogReader_same by exact Hrd. reflexivity.
  - inversion Hpre as [|y l Hx Hrest]; subst y l.
    cbn [List.length Nat.add app] in *.
    rewrite NextReadLoop_eq.
    rewrite (bind_Done _ _ _ _ _
               (RestrictedRead_cons env s _ _ _ Hlast Hrd eq_refl)).
    cbn [pending eof_].
    apply Z.ltb_lt in Hx. rewrite Hx.
    rewrite (IH n (set_currentLogReader (Some (mkReader (pre ++ rest) e)) s)
               e rest eq_refl Hlast Hrest).
    destruct s; reflexivity.
Qed.

Lemma NextReadLoop_end env d internal n s e :
  currentLogReader_ s = Some (mkReader [] e) ->
  currentLastSeq_ s < LastSequence env ->
  NextReadLoop env (S n) d internal s
  = Done false (set_currentLogReader (Some (mkReader [] true)) s).
Proof.
  intros Hrd Hlast. rewrite NextReadLoop_eq.
  rewrite (bind_Done _ _ _ _ _
             (RestrictedRead_empty env s _ Hlast Hrd eq_refl)).
  reflexivity.
Qed.

(** The record loop hands the first batch to [UpdateCurrentWriteBatch]; the
    assertions on [started_] pass when the iterator is started exactly if
    the call is not internal. *)
Lemma NextReadLoop_take env d internal n s e r post :
  currentLogReader_ s = Some (mkReader (r :: post) e) ->
  currentLastSeq_ s < LastSequence env ->
  12 <= size r ->
  started_ s = negb internal ->
  NextReadLoop env (S n) d internal s
  = (UpdateCurrentWriteBatch env n d r ;;;
     s' <- get ;;
     when (internal && negb (started_ s')) (modify (set_started true)) ;;;
     ret true)
      (set_currentLogReader (Some (mkReader post e)) s).
Proof.
  intros Hrd Hlast Hsz Hst. rewrite NextReadLoop_eq.
  rewrite (bind_Done _ _ _ _ _
             (RestrictedRead_cons env s _ _ _ Hlast Hrd eq_refl)).
  cbn [pending eof_].
  destruct (Z.ltb_spec (size r) 12) as [H|_]; [lia|].
  rewrite bind_get.
  change (started_ (set_currentLogReader (Some (mkReader post e)) s))
    with (started_ s).
  rewrite Hst. unfold assert_.
  destruct internal; reflexivity.
Qed.

(** One turn of the [while(true)] of [NextImpl]: the end-of-file mark of
    the reader is cleared, then the records are read. *)
Lemma NextFileLoop_turn env d internal n s rd :
  currentLogReader_ s = Some rd ->
  NextFileLoop env (S n) d internal s
  = (returned <- NextReadLoop env n d internal ;;
     if returned : bool then ret tt
     else
       s <- get ;;
       if currentFileIndex_ s <? u64 (files_size s - 1) then
         modify (set_currentFileIndex (u64 (currentFileIndex_ s + 1))) ;;;
         s <- get ;;
         f <- files_at (currentFileIndex_ s) ;;
         st <- OpenLogReader env f ;;
         if negb (ok st) then
           modify (set_isValid false) ;;;
           modify (set_currentStatus st)
         else NextFileLoop env n d internal
       else
         modify (set_isValid false) ;;;
         (if currentLastSeq_ s =? LastSequence env
          then modify (set_currentStatus OK)
          else modify (set_currentStatus NoMoreData)))
      (set_currentLogReader (Some (UnmarkEOF rd)) s).
Proof.
  intros Hrd. rewrite NextFileLoop_eq, bind_get, Hrd.
  unfold when. destruct (IsEOF rd) eqn:He; [reflexivity|].
  rewrite bind_ret.
  assert (Hu : UnmarkEOF rd = rd).
  { destruct rd as [p e]. unfold IsEOF in He. cbn in He. subst e. reflexivity. }
  rewrite Hu, set_currentLogReader_same by exact Hrd. reflexivity.
Qed.

(** X6. Next on a started iterator delivers the next batch of the open
    file when it starts right after the last sequence delivered: records
    too short to hold a batch are skipped, the iterator is valid on the
    batch with status OK, the file index stays, and the reader stands right
    after the batch. *)
Theorem Next_delivers_next_batch env d n s rd pre r post :
  started_ s = true ->
  currentLogReader_ s = Some rd ->
  pending rd = pre ++ r :: post ->
  all_short pre ->
  currentLastSeq_ s < LastSequence env ->
  12 <= size r ->
  Sequence r = u64 (currentLastSeq_ s + 1) ->
  (List.length pre + 4 <= n)%nat ->
  exists s',
    Next env n d s = Done tt s' /\
    Valid s' = true /\
    currentBatch_ s' = Some r /\
    currentBatchSeq_ s' = u64 (currentLastSeq_ s + 1) /\
    currentLastSeq_ s' = u64 (Sequence r + Count r - 1) /\
    currentStatus_ s' = OK /\
    currentFileIndex_ s' = currentFileIndex_ s /\
    currentLogReader_ s' = Some (mkReader post false).
Proof.
  intros Hst Hrd Hp Hpre Hlast Hsz Hexp Hn.
  unfold Next. destruct n as [|n]; [lia|].
  rewrite NextImpl_eq, bind_modify, bind_get.
  change (started_ (set_isValid false s)) with (started_ s).
  rewrite Hst. cbn [negb andb].
  destruct n as [|n]; [lia|].
  rewrite (NextFileLoop_turn env d false n (set_isValid false s) rd Hrd).
  set (s1 := set_currentLogReader (Some (UnmarkEOF rd)) (set_isValid false s)).
  assert (Hrd1 : currentLogReader_ s1 = Some (mkReader (pre ++ r :: post) false)).
  { subst s1. cbn. unfold UnmarkEOF. rewrite Hp. reflexivity. }
  replace n with (List.length pre + S (S (n - List.length pre - 2)))%nat by lia.
  assert (E : NextReadLoop env (List.length pre + S (S (n - List.length pre - 2)))
                d false s1
              = Done true
                  (accept_state env r
                     (set_currentLogReader (Some (mkReader post false)) s1))).
  { rewrite (NextReadLoop_skip env d false pre _ s1 false (r :: post) Hrd1 Hlast Hpre).
    rewrite (NextReadLoop_take env d false _
               (set_currentLogReader (Some (mkReader (r :: post) false)) s1)
               false r post eq_refl Hlast Hsz Hst).
    set (s2 := set_currentLogReader (Some (mkReader post false))
                 (set_currentLogReader (Some (mkReader (r :: post) false)) s1)).
    assert (Es2 : s2 = set_currentLogReader (Some (mkReader post false)) s1)
      by reflexivity.
    rewrite UpdateCurrentWriteBatch_eq.
    unfold bind at 1. rewrite bind_get. cbv zeta.
    change (started_ s2) with (started_ s).
    change (currentLastSeq_ s2) with (currentLastSeq_ s).
    unfold IsBatchExpected. rewrite Hst, Hexp, Z.eqb_refl. cbn [negb andb].
    rewrite accept_batch_run. rewrite Es2. reflexivity. }
  rewrite (bind_Done _ _ _ _ _ E). eexists. split; [reflexivity|].
  pose proof (accept_state_fields env r
                (set_currentLogReader (Some (mkReader post false)) s1)) as F.
  cbv zeta in F.
  destruct F as [Fst [_ [Fi [_ [Fr [Fv [Fs [Fb [Fq Fl]]]]]]]]].
  unfold Valid. rewrite Fst, Fv, Fs, Fb, Fq, Fl, Fi, Fr.
  cbn. rewrite Hst. repeat apply conj; auto.
Qed.

Lemma Next_delivers_next_batch_witness :
  let s := state_of (run clean_env 20 1 [live_log 1 1] 0) in
  exists s',
    Next clean_env 10 1 s = Done tt s' /\
    Valid s' = true /\
    currentBatch_ s' = Some (batch 3 1) /\
    currentBatchSeq_ s' = u64 (currentLastSeq_ s + 1) /\
    currentLastSeq_ s' = u64 (Sequence (batch 3 1) + Count (batch 3 1) - 1) /\
    currentStatus_ s' = OK /\
    currentFileIndex_ s' = currentFileIndex_ s /\
    currentLogReader_ s' = Some (mkReader [] false).
Proof.
  intros s.
  apply (Next_delivers_next_batch clean_env 1 10 s
           (mkReader [batch 3 1] false) [] (batch 3 1) []).
  - vm_compute. reflexivity.
  - vm_compute. reflexivity.
  - reflexivity.
  - constructor.
  - vm_compute. reflexivity.
  - vm_compute. discriminate.
  - vm_compute. reflexivity.
  - vm_compute. lia.
Defined.

(** ** The advance, file by file *)

Lemma NextImpl_started env n d s :
  started_ s = true ->
  NextImpl env (S n) d false s = NextFileLoop env n d false (set_isValid false s).
Proof.
  intros Hst. rewrite NextImpl_eq, bind_modify, bind_get.
  change (started_ (set_isValid false s)) with (started_ s).
  rewrite Hst. reflexivity.
Qed.

Lemma OpenLogReader_opens env f recs s :
  OpenLogFile env f = (OK, Some recs) ->
  OpenLogReader env f s
  = Done OK (set_currentLogReader (Some (mkReader recs false)) s).
Proof. intros H. unfold OpenLogReader. rewrite H. reflexivity. Qed.

Lemma OpenLogReader_fails env f c m s :
  OpenLogFile env f = (Err c m, None) ->
  OpenLogReader env f s = Done (Err c m) s.
Proof. intros H. unfold OpenLogReader. rewrite H. reflexivity. Qed.

(** The record loop drains a reader that holds only records too short to
    hold a batch, and leaves it at its end of file. *)
Lemma NextReadLoop_drains env d internal n s rd :
  currentLogReader_ s = Some rd ->
  all_short (pending rd) ->
  currentLastSeq_ s < LastSequence env ->
  (List.length (pending rd) + 1 <= n)%nat ->
  NextReadLoop env n d internal s
  = Done false (set_currentLogReader (Some (mkReader [] true)) s).
Proof.
  intros Hrd Hall Hlast Hn. destruct rd as [p e]. cbn [pending] in *.
  replace n with (List.length p + S (n - List.length p - 1))%nat by lia.
  rewrite (NextReadLoop_skip env d internal p _ s e []);
    [| rewrite app_nil_r; exact Hrd | exact Hlast | exact Hall].
  rewrite (NextReadLoop_end env d internal _
             (set_currentLogReader (Some (mkReader [] e)) s) e eq_refl Hlast).
  reflexivity.
Qed.

(** On a started iterator the record loop delivers the first batch of the
    reader when it is the expected one. *)
Lemma NextReadLoop_delivers env d n s e pre r post :
  started_ s = true ->
  currentLogReader_ s = Some (mkReader (pre ++ r :: post) e) ->
  all_short pre ->
  currentLastSeq_ s < LastSequence env ->
  12 <= size r ->
  Sequence r = u64 (currentLastSeq_ s + 1) ->
  (List.length pre + 2 <= n)%nat ->
  NextReadLoop env n d false s
  = Done true
      (accept_state env r (set_currentLogReader (Some (mkReader post e)) s)).
Proof.
  intros Hst Hrd Hpre Hlast Hsz Hexp Hn.
  replace n with (List.length pre + S (S (n - List.length pre - 2)))%nat by lia.
  rewrite (NextReadLoop_skip env d false pre _ s e (r :: post) Hrd Hlast Hpre).
  rewrite (NextReadLoop_take env d false _
             (set_currentLogReader (Some (mkReader (r :: post) e)) s)
             e r post eq_refl Hlast Hsz Hst).
  set (s2 := set_currentLogReader (Some (mkReader post e))
               (set_currentLogReader (Some (mkReader (r :: post) e)) s)).
  assert (Es2 : s2 = set_currentLogReader (Some (mkReader post e)) s)
    by reflexivity.
  rewrite UpdateCurrentWriteBatch_eq.
  unfold bind at 1. rewrite bind_get. cbv zeta.
  change (started_ s2) with (started_ s).
  change (currentLastSeq_ s2) with (currentLastSeq_ s).
  unfold IsBatchExpected. rewrite Hst, Hexp, Z.eqb_refl. cbn [negb andb].
  rewrite accept_batch_run. rewrite Es2. reflexivity.
Qed.

Lemma NextFileLoop_delivers env d n s rd pre r post :
  started_ s = true ->
  currentLogReader_ s = Some rd ->
  pending rd = pre ++ r :: post ->
  all_short pre ->
  currentLastSeq_ s < LastSequence env ->
  12 <= size r ->
  Sequence r = u64 (currentLastSeq_ s + 1) ->
  (List.length pre + 3 <= n)%nat ->
  NextFileLoop env n d false s
  = Done tt
      (accept_state env r (set_currentLogReader (Some (mkReader post false)) s)).
Proof.
  intros Hst Hrd Hp Hpre Hlast Hsz Hexp Hn.
  destruct n as [|n]; [lia|].
  rewrite (NextFileLoop_turn env d false n s rd Hrd).
  rewrite (bind_Done _ _ _ _ _
             (NextReadLoop_delivers env d n
                (set_currentLogReader (Some (UnmarkEOF rd)) s)
                false pre r post Hst
                ltac:(cbn; unfold UnmarkEOF; rewrite Hp; reflexivity)
                Hpre Hlast Hsz Hexp ltac:(lia))).
  reflexivity.
Qed.

(** With nothing left to deliver in the open file and a file after it in
    the list, the file loop moves the index on before it opens that file. *)
Lemma NextFileLoop_roll env d internal n s rd f :
  currentLogReader_ s = Some rd ->
  all_short (pending rd) ->
  currentLastSeq_ s < LastSequence env ->
  currentFileIndex_ s < u64 (files_size s - 1) ->
  nth_error (files_ s) (Z.to_nat (u64 (currentFileIndex_ s + 1))) = Some f ->
  (List.length (pending rd) + 2 <= n)%nat ->
  NextFileLoop env n d internal s
  = (st <- OpenLogReader env f ;;
     if negb (ok st) then
       modify (set_isValid false) ;;;
       modify (set_currentStatus st)
     else NextFileLoop env (n - 1) d internal)
      (set_currentFileIndex (u64 (currentFileIndex_ s + 1))
         (set_currentLogReader (Some (mkReader [] true)) s)).
Proof.
  intros Hrd Hall Hlast Hidx Hf Hn.
  destruct n as [|n]; [lia|].
  rewrite (NextFileLoop_turn env d internal n s rd Hrd).
  rewrite (bind_Done _ _ _ _ _
             (NextReadLoop_drains env d internal n
                (set_currentLogReader (Some (UnmarkEOF rd)) s)
                (UnmarkEOF rd) eq_refl Hall Hlast ltac:(cbn; lia))).
  rewrite bind_get.
  set (s2 := set_currentLogReader (Some (mkReader [] true))
               (set_currentLogReader (Some (UnmarkEOF rd)) s)).
  change (currentFileIndex_ s2) with (currentFileIndex_ s).
  change (files_size s2) with (files_size s).
  apply Z.ltb_lt in Hidx. rewrite Hidx.
  rewrite bind_modify, bind_get.
  change (currentFileIndex_ (set_currentFileIndex (u64 (currentFileIndex_ s + 1)) s2))
    with (u64 (currentFileIndex_ s + 1)).
  assert (Hat : files_at (u64 (currentFileIndex_ s + 1))
                  (set_currentFileIndex (u64 (currentFileIndex_ s + 1)) s2)
                = Done f (set_currentFileIndex (u64 (currentFileIndex_ s + 1)) s2)).
  { unfold files_at.
    destruct (Z.ltb_spec (u64 (currentFileIndex_ s + 1)) 0) as [H|_].
    - unfold u64 in H. pose proof (Z.mod_pos_bound (currentFileIndex_ s + 1) (2 ^ 64)).
      lia.
    - change (files_ (set_currentFileIndex (u64 (currentFileIndex_ s + 1)) s2))
        with (files_ s).
      rewrite Hf. reflexivity. }
  rewrite (bind_Done _ _ _ _ _ Hat).
  replace (S n - 1)%nat with n by lia.
  reflexivity.
Qed.

(** X7. Next on a started iterator whose open file has nothing more to
    deliver rolls to the next file of the list: the file index is moved on
    by one, the file is opened, and its first batch is delivered when it
    starts right after the last sequence delivered. *)
Theorem Next_rolls_to_next_file env d n s rd f pre r post :
  started_ s = true ->
  currentLogReader_ s = Some rd ->
  all_short (pending rd) ->
  currentLastSeq_ s < LastSequence env ->
  currentFileIndex_ s < u64 (files_size s - 1) ->
  nth_error (files_ s) (Z.to_nat (u64 (currentFileIndex_ s + 1))) = Some f ->
  OpenLogFile env f = (OK, Some (pre ++ r :: post)) ->
  all_short pre ->
  12 <= size r ->
  Sequence r = u64 (currentLastSeq_ s + 1) ->
  (List.length (pending rd) + List.length pre + 5 <= n)%nat ->
  exists s',
    Next env n d s = Done tt s' /\
    Valid s' = true /\
    currentBatch_ s' = Some r /\
    currentBatchSeq_ s' = u64 (currentLastSeq_ s + 1) /\
    currentStatus_ s' = OK /\
    currentFileIndex_ s' = u64 (currentFileIndex_ s + 1) /\
    currentLogReader_ s' = Some (mkReader post false).
Proof.
  intros Hst Hrd Hall Hlast Hidx Hf Hopen Hpre Hsz Hexp Hn.
  unfold Next. destruct n as [|n]; [lia|].
  rewrite (NextImpl_started env n d s Hst).
  rewrite (NextFileLoop_roll env d false n (set_isValid false s) rd f
             Hrd Hall Hlast Hidx Hf ltac:(lia)).
  set (s1 := set_currentFileIndex (u64 (currentFileIndex_ s + 1))
               (set_currentLogReader (Some (mkReader [] true))
                  (set_isValid false s))).
  rewrite (bind_Done _ _ _ _ _ (OpenLogReader_opens env f _ s1 Hopen)).
  cbn [ok negb].
  set (s2 := set_currentLogReader (Some (mkReader (pre ++ r :: post) false)) s1).
  rewrite (NextFileLoop_delivers env d (n - 1) s2
             (mkReader (pre ++ r :: post) false) pre r post
             Hst eq_refl eq_refl Hpre Hlast Hsz Hexp ltac:(lia)).
  eexists. split; [reflexivity|].
  pose proof (accept_state_fields env r
                (set_currentLogReader (Some (mkReader post false)) s2)) as F.
  cbv zeta in F.
  destruct F as [Fst [_ [Fi [_ [Fr [Fv [Fs [Fb [Fq _]]]]]]]]].
  unfold Valid. rewrite Fst, Fv, Fs, Fb, Fq, Fi, Fr.
  cbn. rewrite Hst. repeat apply conj; auto.
Qed.

Lemma Next_rolls_to_next_file_witness :
  let s := state_of (run rolling_env 20 1 [live_log 1 1; live_log 2 3] 0) in
  exists s',
    Next rolling_env 10 1 s = Done tt s' /\
    Valid s' = true /\
    currentBatch_ s' = Some (batch 3 1) /\
    currentBatchSeq_ s' = u64 (currentLastSeq_ s + 1) /\
    currentStatus_ s' = OK /\
    currentFileIndex_ s' = u64 (currentFileIndex_ s + 1) /\
    currentLogReader_ s' = Some (mkReader [] false).
Proof.
  intros s.
  apply (Next_rolls_to_next_file rolling_env 1 10 s
           (mkReader [] false) (live_log 2 3) [mkSlice 4 0 0] (batch 3 1) []).
  - vm_compute. reflexivity.
  - vm_compute. reflexivity.
  - constructor.
  - vm_compute. reflexivity.
  - vm_compute. reflexivity.
  - vm_compute. reflexivity.
  - vm_compute. reflexivity.
  - repeat constructor.
  - vm_compute. discriminate.
  - vm_compute. reflexivity.
  - vm_compute. lia.
Defined.

(** X8. When the next file of the list cannot be opened during an advance,
    Next leaves the iterator invalid with the status of the failed open;
    the file index has already been moved to the file that failed, the
    drained reader of the previous file is kept, and the last sequence and
    the batch are untouched. *)
Theorem Next_open_failure env d n s rd f c m :
  started_ s = true ->
  currentLogReader_ s = Some rd ->
  all_short (pending rd) ->
  currentLastSeq_ s < LastSequence env ->
  currentFileIndex_ s < u64 (files_size s - 1) ->
  nth_error (files_ s) (Z.to_nat (u64 (currentFileIndex_ s + 1))) = Some f ->
  OpenLogFile env f = (Err c m, None) ->
  (List.length (pending rd) + 3 <= n)%nat ->
  exists s',
    Next env n d s = Done tt s' /\
    Valid s' = false /\
    status s' = Err c m /\
    currentFileIndex_ s' = u64 (currentFileIndex_ s + 1) /\
    currentLogReader_ s' = Some (mkReader [] true) /\
    currentLastSeq_ s' = currentLastSeq_ s /\
    currentBatch_ s' = currentBatch_ s /\
    files_ s' = files_ s.
Proof.
  intros Hst Hrd Hall Hlast Hidx Hf Hopen Hn.
  unfold Next. destruct n as [|n]; [lia|].
  rewrite (NextImpl_started env n d s Hst).
  rewrite (NextFileLoop_roll env d false n (set_isValid false s) rd f
             Hrd Hall Hlast Hidx Hf ltac:(lia)).
  rewrite (bind_Done _ _ _ _ _ (OpenLogReader_fails env f c m _ Hopen)).
  cbn [ok negb]. rewrite bind_modify.
  eexists. split; [reflexivity|].
  unfold Valid, status. cbn. rewrite Bool.andb_false_r.
  repeat apply conj; reflexivity.
Qed.

Lemma Next_open_failure_witness :
  let s := state_of (run missing_log_env 20 1
                       [live_log 1 1; live_log 2 3; live_log 3 3] 0) in
  exists s',
    Next missing_log_env 10 1 s = Done tt s' /\
    Valid s' = false /\
    status s' = Err kNotFound "No such file or directory"%string /\
    currentFileIndex_ s' = u64 (currentFileIndex_ s + 1) /\
    currentLogReader_ s' = Some (mkReader [] true) /\
    currentLastSeq_ s' = currentLastSeq_ s /\
    currentBatch_ s' = currentBatch_ s /\
    files_ s' = files_ s.
Proof.
  intros s.
  apply (Next_open_failure missing_log_env 1 10 s
           (mkReader [] false) (live_log 2 3)).
  - vm_compute. reflexivity.
  - vm_compute. reflexivity.
  - constructor.
  - vm_compute. reflexivity.
  - vm_compute. reflexivity.
  - vm_compute. reflexivity.
  - vm_compute. reflexivity.
  - vm_compute. lia.
Defined.

(** X9. A file that failed to open during an advance is not tried again:
    the call of Next after the failure starts from the file index the
    failed call left behind, so it opens the file after the failed one and
    delivers its first batch when that is the expected one. *)
Theorem failed_file_is_skipped env d n s rd f c m g pre r post :
  started_ s = true ->
  currentLogReader_ s = Some rd ->
  all_short (pending rd) ->
  currentLastSeq_ s < LastSequence env ->
  currentFileIndex_ s < u64 (files_size s - 1) ->
  nth_error (files_ s) (Z.to_nat (u64 (currentFileIndex_ s + 1))) = Some f ->
  OpenLogFile env f = (Err c m, None) ->
  u64 (currentFileIndex_ s + 1) < u64 (files_size s - 1) ->
  nth_error (files_ s) (Z.to_nat (u64 (u64 (currentFileIndex_ s + 1) + 1)))
    = Some g ->
  OpenLogFile env g = (OK, Some (pre ++ r :: post)) ->
  all_short pre ->
  12 <= size r ->
  Sequence r = u64 (currentLastSeq_ s + 1) ->
  (List.length (pending rd) + List.length pre + 5 <= n)%nat ->
  exists s1 s2,
    Next env n d s = Done tt s1 /\
    Valid s1 = false /\ status s1 = Err c m /\
    Next env n d s1 = Done tt s2 /\
    Valid s2 = true /\ status s2 = OK /\
    currentBatch_ s2 = Some r /\
    currentFileIndex_ s2 = u64 (u64 (currentFileIndex_ s + 1) + 1).
Proof.
  intros Hst Hrd Hall Hlast Hidx Hf Hopen Hidx' Hg Hopen' Hpre Hsz Hexp Hn.
  unfold Next. destruct n as [|n]; [lia|].
  rewrite (NextImpl_started env n d s Hst).
  rewrite (NextFileLoop_roll env d false n (set_isValid false s) rd f
             Hrd Hall Hlast Hidx Hf ltac:(lia)).
  rewrite (bind_Done _ _ _ _ _ (OpenLogReader_fails env f c m _ Hopen)).
  cbn [ok negb]. rewrite bind_modify.
  set (s1 := set_isValid false
               (set_currentFileIndex (u64 (currentFileIndex_ s + 1))
                  (set_currentLogReader (Some (mkReader [] true))
                     (set_isValid false s)))).
  exists (set_currentStatus (Err c m) s1).
  rewrite (NextImpl_started env n d (set_currentStatus (Err c m) s1) Hst).
  rewrite (NextFileLoop_roll env d false n
             (set_isValid false (set_currentStatus (Err c m) s1))
             (mkReader [] true) g
             eq_refl ltac:(constructor) Hlast Hidx' Hg ltac:(cbn; lia)).
  set (s2 := set_currentFileIndex
               (u64 (currentFileIndex_
                       (set_isValid false (set_currentStatus (Err c m) s1)) + 1))
               (set_currentLogReader (Some (mkReader [] true))
                  (set_isValid false (set_currentStatus (Err c m) s1)))).
  rewrite (bind_Done _ _ _ _ _ (OpenLogReader_opens env g _ s2 Hopen')).
  cbn [ok negb].
  set (s3 := set_currentLogReader (Some (mkReader (pre ++ r :: post) false)) s2).
  rewrite (NextFileLoop_delivers env d (n - 1) s3
             (mkReader (pre ++ r :: post) false) pre r post
             Hst eq_refl eq_refl Hpre Hlast Hsz Hexp ltac:(lia)).
  eexists. split; [reflexivity|].
  pose proof (accept_state_fields env r
                (set_currentLogReader (Some (mkReader post false)) s3)) as F.
  cbv zeta in F.
  destruct F as [Fst [_ [Fi [_ [_ [Fv [Fs [Fb _]]]]]]]].
  unfold Valid, status. rewrite Fst, Fv, Fs, Fb, Fi.
  cbn. rewrite Hst, Bool.andb_false_r. repeat apply conj; reflexivity.
Qed.

Lemma failed_file_is_skipped_witness :
  let s := state_of (run missing_log_env 20 1
                       [live_log 1 1; live_log 2 3; live_log 3 3] 0) in
  exists s1 s2,
    Next missing_log_env 10 1 s = Done tt s1 /\
    Valid s1 = false /\
    status s1 = Err kNotFound "No such file or directory"%string /\
    Next missing_log_env 10 1 s1 = Done tt s2 /\
    Valid s2 = true /\ status s2 = OK /\
    currentBatch_ s2 = Some (batch 3 1) /\
    currentFileIndex_ s2 = u64 (u64 (currentFileIndex_ s + 1) + 1).
Proof.
  intros s.
  apply (failed_file_is_skipped missing_log_env 1 10 s
           (mkReader [] false) (live_log 2 3) kNotFound
           "No such file or directory"%string (live_log 3 3) [] (batch 3 1) []).
  - vm_compute. reflexivity.
  - vm_compute. reflexivity.
  - constructor.
  - vm_compute. reflexivity.
  - vm_compute. reflexivity.
  - vm_compute. reflexivity.
  - vm_compute. reflexivity.
  - vm_compute. reflexivity.
  - vm_compute. reflexivity.
  - vm_compute. reflexivity.
  - constructor.
  - vm_compute. discriminate.
  - vm_compute. reflexivity.
  - vm_compute. lia.
Defined.

(** ** The scan forward when the start sequence is not found *)

(** Called internally on an iterator that has not started, the record loop
    takes the first batch it reads, whatever its sequence, and starts the
    iterator. *)
Lemma NextReadLoop_first_batch env d n s e pre r post :
  started_ s = false ->
  currentLogReader_ s = Some (mkReader (pre ++ r :: post) e) ->
  all_short pre ->
  currentLastSeq_ s < LastSequence env ->
  12 <= size r ->
  (List.length pre + 2 <= n)%nat ->
  NextReadLoop env n d true s
  = Done true
      (set_started true
         (accept_state env r (set_currentLogReader (Some (mkReader post e)) s))).
Proof.
  intros Hst Hrd Hpre Hlast Hsz Hn.
  replace n with (List.length pre + S (S (n - List.length pre - 2)))%nat by lia.
  rewrite (NextReadLoop_skip env d true pre _ s e (r :: post) Hrd Hlast Hpre).
  rewrite (NextReadLoop_take env d true _
             (set_currentLogReader (Some (mkReader (r :: post) e)) s)
             e r post eq_refl Hlast Hsz Hst).
  set (s2 := set_currentLogReader (Some (mkReader post e))
               (set_currentLogReader (Some (mkReader (r :: post) e)) s)).
  assert (Es2 : s2 = set_currentLogReader (Some (mkReader post e)) s)
    by reflexivity.
  rewrite (bind_Done _ _ _ _ _
             (UpdateCurrentWriteBatch_unstarted env _ d r s2 Hst)).
  rewrite bind_get.
  pose proof (accept_state_fields env r s2) as F. cbv zeta in F.
  destruct F as [Fst _]. rewrite Fst.
  change (started_ s2) with (started_ s). rewrite Hst.
  cbn [negb andb when]. rewrite bind_modify, Es2. reflexivity.
Qed.

(** X10. The list has more than one file and the first file holds no batch
    that reaches the starting sequence.  The constructor then scans
    forward without checking sequence numbers: it opens the second file and
    stops on its first batch, valid and with status OK, whether or not that
    batch reaches the starting sequence. *)
Theorem start_not_found_takes_next_file env seq f1 f2 rest recs1 pre r post fuel :
  OpenLogFile env f1 = (OK, Some recs1) ->
  Forall (passed_over env seq) recs1 ->
  0 < LastSequence env ->
  Z.of_nat (List.length (f1 :: f2 :: rest)) <= 2 ^ 64 ->
  OpenLogFile env f2 = (OK, Some (pre ++ r :: post)) ->
  all_short pre ->
  12 <= size r ->
  (List.length recs1 + List.length pre + 8 <= fuel)%nat ->
  exists s,
    run env fuel seq (f1 :: f2 :: rest) 0 = Done tt s /\
    Valid s = true /\
    status s = OK /\
    currentBatch_ s = Some r /\
    currentBatchSeq_ s = Sequence r /\
    currentFileIndex_ s = 1 /\
    currentLogReader_ s = Some (mkReader post false).
Proof.
  intros Ho1 Hpass Hls Hlen Ho2 Hpre Hsz Hn.
  unfold run, TransactionLogIteratorImpl. cbn [Next_times].
  set (s := initial seq (f1 :: f2 :: rest)).
  assert (Hf : files_at 0 s = Done f1 s) by reflexivity.
  destruct fuel as [|n]; [lia|].
  rewrite (seek_opens env 1 n false 0 s f1 _ Hf Ho1).
  set (s0 := set_currentLogReader (Some (mkReader recs1 false))
               (set_isValid false (set_started false s))).
  assert (Hrd0 : currentLogReader_ s0 = Some (mkReader (recs1 ++ []) false))
    by (rewrite app_nil_r; reflexivity).
  assert (En : n = (List.length recs1 + S (n - List.length recs1 - 1))%nat) by lia.
  destruct (SeekLoop_pass env 1 false recs1 (n - List.length recs1 - 1) s0 false
              [] eq_refl Hrd0 Hls Hpass)
    as [s1 [E [A1 [A2 [A3 [A4 [A5 [A6 [A7 A8]]]]]]]]].
  rewrite <- En in E.
  rewrite (bind_Done _ _ _ _ _
             (eq_trans E (SeekLoop_end env 1 false _ s1 false A2 A3))).
  rewrite bind_get.
  change (files_size (set_currentLogReader (Some (mkReader [] true)) s1))
    with (files_size s1).
  assert (Hfs : files_ s1 = f1 :: f2 :: rest) by (rewrite A6; reflexivity).
  assert (Hsize : files_size s1 = Z.of_nat (List.length (f1 :: f2 :: rest)))
    by (unfold files_size; rewrite Hfs; reflexivity).
  assert (Hne : (files_size s1 =? 1) = false).
  { apply Z.eqb_neq. rewrite Hsize. cbn [List.length]. lia. }
  rewrite Hne. cbn [negb]. rewrite bind_modify.
  destruct n as [|n]; [lia|].
  rewrite NextImpl_eq, bind_modify, bind_get. cbn [negb andb].
  set (s2 := set_isValid false
               (set_currentStatus StartNotFound
                  (set_currentLogReader (Some (mkReader [] true)) s1))).
  assert (Hidx : currentFileIndex_ s2 = 0) by (cbn; rewrite A5; reflexivity).
  assert (Hu1 : u64 (currentFileIndex_ s2 + 1) = 1) by (rewrite Hidx; reflexivity).
  assert (Hroll : currentFileIndex_ s2 < u64 (files_size s2 - 1)).
  { rewrite Hidx. change (files_size s2) with (files_size s1). rewrite Hsize.
    unfold u64. rewrite Z.mod_small; cbn [List.length] in *; lia. }
  assert (Hnth : nth_error (files_ s2) (Z.to_nat (u64 (currentFileIndex_ s2 + 1)))
                 = Some f2).
  { rewrite Hu1. change (files_ s2) with (files_ s1). rewrite Hfs. reflexivity. }
  rewrite (NextFileLoop_roll env 1 true n s2 (mkReader [] true) f2
             eq_refl ltac:(constructor) A3 Hroll Hnth ltac:(cbn; lia)).
  rewrite Hu1.
  set (s3 := set_currentFileIndex 1
               (set_currentLogReader (Some (mkReader [] true)) s2)).
  rewrite (bind_Done _ _ _ _ _ (OpenLogReader_opens env f2 _ s3 Ho2)).
  cbn [ok negb].
  set (s4 := set_currentLogReader (Some (mkReader (pre ++ r :: post) false)) s3).
  destruct (n - 1)%nat as [|n'] eqn:En'; [lia|].
  rewrite (NextFileLoop_turn env 1 true n' s4 _ eq_refl).
  rewrite (bind_Done _ _ _ _ _
             (NextReadLoop_first_batch env 1 n'
                (set_currentLogReader
                   (Some (UnmarkEOF (mkReader (pre ++ r :: post) false))) s4)
                false pre r post A1 eq_refl Hpre A3 Hsz ltac:(lia))).
  eexists. split; [reflexivity|].
  pose proof (accept_state_fields env r
                (set_currentLogReader (Some (mkReader post false))
                   (set_currentLogReader
                      (Some (UnmarkEOF (mkReader (pre ++ r :: post) false))) s4)))
    as F.
  cbv zeta in F.
  destruct F as [_ [_ [Fi [_ [Fr [Fv [Fs [Fb [Fq _]]]]]]]]].
  unfold Valid, status. cbn. rewrite Fv, Fs, Fb, Fq, Fi, Fr.
  cbn. repeat apply conj; reflexivity.
Qed.

Lemma start_not_found_takes_next_file_witness :
  exists s,
    run (mkEnv (two_logs [batch 1 2] [batch 3 1]) 20) 12 10
        [live_log 1 1; live_log 2 3] 0 = Done tt s /\
    Valid s = true /\
    status s = OK /\
    currentBatch_ s = Some (batch 3 1) /\
    currentBatchSeq_ s = Sequence (batch 3 1) /\
    currentFileIndex_ s = 1 /\
    currentLogReader_ s = Some (mkReader [] false).
Proof.
  apply (start_not_found_takes_next_file
           (mkEnv (two_logs [batch 1 2] [batch 3 1]) 20) 10
           (live_log 1 1) (live_log 2 3) [] [batch 1 2] [] (batch 3 1) [] 12).
  - reflexivity.
  - constructor; [right; split; vm_compute; reflexivity | constructor].
  - reflexivity.
  - vm_compute. discriminate.
  - reflexivity.
  - constructor.
  - vm_compute. discriminate.
  - vm_compute. lia.
Defined.

(** ** What holds in every state of a run *)

Lemma GetBatch_state s r s' :
  GetBatch s = Done r s' ->
  r = mkBatchResult (currentBatchSeq_ s) (currentBatch_ s) /\
  started_ s' = started_ s /\ isValid_ s' = isValid_ s /\
  currentStatus_ s' = currentStatus_ s /\
  currentBatchSeq_ s' = currentBatchSeq_ s /\
  currentBatch_ s' = None /\
  files_ s' = files_ s /\
  (isValid_ s = true -> s' = set_currentBatch None s).
Proof.
  unfold GetBatch, bind, get, assert_, modify, ret.
  destruct (isValid_ s) eqn:V; intros E; injection E as <- <-; cbn;
    rewrite ?V; repeat apply conj; auto; discriminate.
Qed.

(** X11. In every state of a run, an iterator that reports Valid has
    status OK: no error status is ever left behind together with a valid
    position. *)
Theorem valid_has_ok_status env s :
  reachable env s -> Valid s = true -> status s = OK.
Proof.
  intros R.
  induction R as [fuel d seq files s Hlen H|fuel d s0 s R IH H|s0 r s R IH H];
    intros V.
  - unfold TransactionLogIteratorImpl in H.
    pose proof (proj2 (SeekToStartSequence_spec env d 0 false 0 fuel _) tt s H)
      as [_ [P _]].
    apply P, V.
  - pose proof (proj2 (Next_spec env d 0 fuel s0) tt s H) as [[_ [P _]] _].
    apply P, V.
  - destruct (GetBatch_state _ _ _ H) as [_ [Hs [Hv [Hst _]]]].
    unfold status. rewrite Hst. apply IH.
    unfold Valid in *. rewrite <- Hs, <- Hv. exact V.
Qed.

Lemma valid_has_ok_status_witness :
  let s := state_of (run rolling_env 20 1 [live_log 1 1; live_log 2 3] 1) in
  status s = OK.
Proof.
  intros s. apply (valid_has_ok_status rolling_env s).
  - apply (reach_Next rolling_env 20 0
             (state_of (run rolling_env 20 1 [live_log 1 1; live_log 2 3] 0))).
    + apply (reach_new rolling_env 20 1 1 [live_log 1 1; live_log 2 3]);
        vm_compute; reflexivity.
    + vm_compute. reflexivity.
  - vm_compute. reflexivity.
Defined.

(** X12. GetBatch hands the batch out once.  The first call returns the
    batch the iterator holds together with its sequence; a second call
    right after it returns the same sequence and a null batch.  Neither
    call changes Valid or the status, and in a valid state the second call
    changes nothing at all. *)
Theorem GetBatch_hands_out_once s r1 s1 r2 s2 :
  GetBatch s = Done r1 s1 ->
  GetBatch s1 = Done r2 s2 ->
  writeBatchPtr r1 = currentBatch_ s /\
  sequence r1 = currentBatchSeq_ s /\
  writeBatchPtr r2 = None /\
  sequence r2 = sequence r1 /\
  Valid s2 = Valid s /\
  status s2 = status s /\
  (isValid_ s = true -> s2 = s1).
Proof.
  intros H1 H2.
  destruct (GetBatch_state _ _ _ H1) as [-> [A1 [A2 [A3 [A4 [A5 [_ A7]]]]]]].
  destruct (GetBatch_state _ _ _ H2) as [-> [B1 [B2 [B3 [B4 [B5 [_ B7]]]]]]].
  unfold Valid, status. cbn.
  rewrite B1, B2, B3, A1, A2, A3, A4, A5.
  repeat apply conj; try reflexivity.
  intros V. rewrite B7 by (rewrite A2; exact V).
  rewrite (A7 V). reflexivity.
Qed.

Lemma GetBatch_hands_out_once_witness :
  let s := state_of (run clean_env 20 1 [live_log 1 1] 0) in
  let r1 := mkBatchResult 1 (Some (batch 1 2)) in
  let r2 := mkBatchResult 1 None in
  let s1 := set_currentBatch None s in
  writeBatchPtr r1 = currentBatch_ s /\
  sequence r1 = currentBatchSeq_ s /\
  writeBatchPtr r2 = None /\
  sequence r2 = sequence r1 /\
  Valid s1 = Valid s /\
  status s1 = status s /\
  (isValid_ s = true -> s1 = s1).
Proof.
  intros s r1 r2 s1.
  apply (GetBatch_hands_out_once s r1 s1 r2 s1).
  - vm_compute. reflexivity.
  - vm_compute. reflexivity.
Defined.

Lemma Next_times_keeps env fuel : forall k s s',
  wf s ->
  Next_times env fuel 1 k s = Done tt s' ->
  files_ s' = files_ s /\ wf s'.
Proof.
  induction k as [|k IH]; intros s s' W H.
  - cbn in H. injection H as <-. split; [reflexivity|exact W].
  - cbn [Next_times] in H.
    destruct (Next env fuel 1 s) as [[] s1| | | |] eqn:E; try discriminate.
    pose proof (proj2 (Next_spec env 0 0 fuel s) tt s1 E) as [[K _] Hw].
    destruct (IH s1 s' (Hw W) H) as [Hf W'].
    split; [rewrite Hf; apply (k_files _ _ _ K)|exact W'].
Qed.

(** X13. A run never changes the list of files it was given, and keeps
    the file index inside it: the index is a position of the list (or 0
    for the empty list), and once the iterator has started it has a reader
    open and stands on a file of the list, so that [files_->at] and the
    reader are never used out of range. *)
Theorem run_keeps_files env fuel seq files k s :
  Z.of_nat (List.length files) < 2 ^ 64 ->
  run env fuel seq files k = Done tt s ->
  files_ s = files /\
  0 <= currentFileIndex_ s /\
  (currentFileIndex_ s < files_size s \/ currentFileIndex_ s = 0) /\
  (started_ s = true ->
   currentLogReader_ s <> None /\ currentFileIndex_ s < files_size s).
Proof.
  intros Hlen H. unfold run in H.
  destruct (TransactionLogIteratorImpl env fuel 1 seq files)
    as [[] s0| | | |] eqn:E; try discriminate.
  assert (R : reachable env s0) by exact (reach_new env fuel 1 seq files s0 Hlen E).
  unfold TransactionLogIteratorImpl in E.
  pose proof (proj2 (SeekToStartSequence_spec env 1 0 false 0 fuel _) tt s0 E)
    as [K _].
  destruct (Next_times_keeps env fuel k s0 s (reachable_wf env s0 R) H)
    as [Hf [[I1 [I2 I3]] Hr]].
  split; [rewrite Hf; apply (k_files _ _ _ K)|].
  split; [exact I1|]. split; [exact I2|].
  intros Hst. destruct (Hr Hst) as [R1 [[_ R2] _]]. split; assumption.
Qed.

Lemma run_keeps_files_witness :
  let files := [live_log 1 1; live_log 2 3; live_log 3 3] in
  let s := state_of (run missing_log_env 20 1 files 2) in
  files_ s = files /\
  0 <= currentFileIndex_ s /\
  (currentFileIndex_ s < files_size s \/ currentFileIndex_ s = 0) /\
  (started_ s = true ->
   currentLogReader_ s <> None /\ currentFileIndex_ s < files_size s).
Proof.
  intros files s.
  apply (run_keeps_files missing_log_env 20 1 files 2 s).
  - vm_compute. reflexivity.
  - vm_compute. reflexivity.
Defined.

(** ** The iterator sees the file system through [OpenLogFile] only *)

Lemma agree_bind {A B} fs (m1 m2 : M A) (k1 k2 : A -> M B) :
  agree fs m1 m2 -> (forall a, agree fs (k1 a) (k2 a)) ->
  agree fs (bind m1 k1) (bind m2 k2).
Proof.
  intros Hm Hk s Hs. destruct (Hm s Hs) as [E F]. unfold bind. rewrite E.
  destruct (m2 s) as [a s1| | | |]; try (split; [reflexivity|discriminate]).
  apply Hk, (F a s1 eq_refl).
Qed.

Lemma agree_same {A} fs (m : M A) :
  (forall s a s', m s = Done a s' -> files_ s' = files_ s) ->
  agree fs m m.
Proof.
  intros H s Hs. split; [reflexivity|].
  intros a s' E. rewrite (H _ _ _ E). exact Hs.
Qed.

Lemma agree_ret {A} fs (a : A) : agree fs (ret a) (ret a).
Proof. apply agree_same. intros s b s' E. injection E as _ <-. reflexivity. Qed.

Lemma agree_get fs : agree fs get get.
Proof. apply agree_same. intros s b s' E. injection E as _ <-. reflexivity. Qed.

Lemma agree_modify fs f :
  (forall s, files_ (f s) = files_ s) -> agree fs (modify f) (modify f).
Proof.
  intros H. apply agree_same. intros s b s' E. injection E as E.
  subst s'. apply H.
Qed.

Lemma agree_fail {A} fs (o : Outcome A) :
  (forall a s', o <> Done a s') -> agree fs (fun _ => o) (fun _ => o).
Proof. intros H. apply agree_same. intros s a s' E. elim (H _ _ E). Qed.

Lemma agree_assert fs a c : agree fs (assert_ a c) (assert_ a c).
Proof.
  unfold assert_. destruct c; [apply agree_ret|].
  apply agree_modify. reflexivity.
Qed.

Lemma agree_files_at {B} fs i (k1 k2 : LogFile -> M B) :
  (forall f, In f fs -> agree fs (k1 f) (k2 f)) ->
  agree fs (bind (files_at i) k1) (bind (files_at i) k2).
Proof.
  intros Hk s Hs. unfold bind.
  destruct (files_at i s) as [f s1| | | |] eqn:E;
    try (split; [reflexivity|discriminate]).
  destruct (files_at_inv _ _ _ _ E) as [-> [Hin _]].
  rewrite Hs in Hin. apply (Hk f Hin s Hs).
Qed.

Section SameFiles.

Variables env1 env2 : Env.
Variable fs : list LogFile.
Hypothesis same_last : LastSequence env1 = LastSequence env2.
Hypothesis same_open :
  forall f, In f fs -> OpenLogFile env1 f = OpenLogFile env2 f.

Lemma agree_RestrictedRead :
  agree fs (RestrictedRead env1) (RestrictedRead env2).
Proof.
  intros s Hs. unfold RestrictedRead. rewrite same_last. split; [reflexivity|].
  intros a s' E. destruct (RestrictedRead_inv env2 s a s' E) as [[ord ->] _].
  exact Hs.
Qed.

Lemma agree_OpenLogReader f :
  In f fs -> agree fs (OpenLogReader env1 f) (OpenLogReader env2 f).
Proof.
  intros Hin s Hs. unfold OpenLogReader. rewrite (same_open f Hin).
  split; [reflexivity|].
  destruct (OpenLogFile env2 f) as [[|c m] [file|]];
    unfold bind, modify, ret; intros a s' E; injection E as _ <-; exact Hs.
Qed.

Lemma agree_accept_batch r :
  agree fs (accept_batch env1 r) (accept_batch env2 r).
Proof.
  intros s Hs. split.
  { rewrite !accept_batch_run. unfold accept_state. rewrite same_last.
    reflexivity. }
  intros a s' E. rewrite accept_batch_run in E. injection E as _ <-.
  destruct (accept_state_fields env2 r s) as [_ [_ [_ [F _]]]].
  rewrite F. exact Hs.
Qed.

Ltac agree_step :=
  first
    [ apply agree_ret
    | apply agree_get
    | apply agree_assert
    | apply agree_RestrictedRead
    | apply agree_accept_batch
    | apply agree_modify; reflexivity
    | apply agree_fail; discriminate
    | apply agree_files_at; intros ? ?
    | apply agree_OpenLogReader; assumption
    | apply agree_bind; [|intros ?]
    | match goal with
      | |- agree _ (if ?c then _ else _) (if ?c then _ else _) => destruct c
      | |- agree _ (match ?x with Some _ => _ | None => _ end) _ => destruct x
      | |- agree _ (match ?x with O => _ | S _ => _ end) _ => destruct x
      | |- agree _ (when ?c _) (when ?c _) => unfold when
      end ].

(** Every member function gives the same outcome in the two environments. *)
Lemma members_agree : forall fuel,
  (forall d r, agree fs (UpdateCurrentWriteBatch env1 fuel d r)
                        (UpdateCurrentWriteBatch env2 fuel d r)) /\
  (forall d i strict, agree fs (SeekToStartSequence env1 fuel d i strict)
                               (SeekToStartSequence env2 fuel d i strict)) /\
  (forall d strict, agree fs (SeekLoop env1 fuel d strict)
                             (SeekLoop env2 fuel d strict)) /\
  (forall d internal, agree fs (NextImpl env1 fuel d internal)
                               (NextImpl env2 fuel d internal)) /\
  (forall d internal, agree fs (NextFileLoop env1 fuel d internal)
                               (NextFileLoop env2 fuel d internal)) /\
  (forall d internal, agree fs (NextReadLoop env1 fuel d internal)
                               (NextReadLoop env2 fuel d internal)).
Proof.
  induction fuel as [|n [IHu [IHs [IHl [IHn [IHf IHr]]]]]].
  - repeat apply conj; intros; apply agree_fail; discriminate.
  - repeat apply conj; intros.
    + rewrite !UpdateCurrentWriteBatch_eq. cbv zeta.
      repeat first [apply IHs | agree_step].
    + rewrite !SeekToStartSequence_eq.
      repeat first [apply IHl | apply IHn | agree_step].
    + rewrite !SeekLoop_eq.
      repeat first [apply IHl | apply IHu | agree_step].
    + rewrite !NextImpl_eq.
      repeat first [apply IHs | apply IHf | agree_step].
    + rewrite !NextFileLoop_eq. rewrite same_last.
      repeat first [apply IHf | apply IHr | agree_step].
    + rewrite !NextReadLoop_eq.
      repeat first [apply IHr | apply IHu | agree_step].
Qed.

Lemma Next_times_agree fuel d : forall k,
  agree fs (Next_times env1 fuel d k) (Next_times env2 fuel d k).
Proof.
  induction k as [|k IH]; intros s Hs.
  - cbn. split; [reflexivity|]. intros a s' E. injection E as _ <-. exact Hs.
  - cbn [Next_times]. unfold Next.
    destruct (proj1 (proj2 (proj2 (proj2 (members_agree fuel)))) d false s Hs)
      as [E F].
    rewrite E. destruct (NextImpl env2 fuel d false s) as [a s1| | | |];
      try (split; [reflexivity|discriminate]).
    apply IH, (F a s1 eq_refl).
Qed.

End SameFiles.

(** X14. The iterator sees the file system through [OpenLogFile] only.
    Two environments that report the same last sequence and in which
    [OpenLogFile] answers alike for the files of the list give the same
    run, call by call.  In particular a run does not notice whether a live
    log is read from the database directory or, after it has been moved,
    from the archive. *)
Theorem run_depends_on_opened_files env1 env2 fuel seq files k :
  LastSequence env1 = LastSequence env2 ->
  (forall f, In f files -> OpenLogFile env1 f = OpenLogFile env2 f) ->
  run env1 fuel seq files k = run env2 fuel seq files k.
Proof.
  intros HL HO. unfold run, TransactionLogIteratorImpl.
  destruct (proj1 (proj2 (members_agree env1 env2 files HL HO fuel))
              1%nat 0 false (initial seq files) eq_refl) as [E F].
  rewrite E.
  destruct (SeekToStartSequence env2 fuel 1 0 false (initial seq files))
    as [a s1| | | |]; try reflexivity.
  apply (Next_times_agree env1 env2 files HL HO fuel 1 k s1 (F a s1 eq_refl)).
Qed.

Lemma run_depends_on_opened_files_witness :
  run clean_env 20 1 [live_log 1 1] 2
  = run (mkEnv (archived_log [batch 1 2; batch 3 1]) 3) 20 1 [live_log 1 1] 2.
Proof.
  apply (run_depends_on_opened_files clean_env
           (mkEnv (archived_log [batch 1 2; batch 3 1]) 3) 20 1
           [live_log 1 1] 2).
  - reflexivity.
  - intros f [<-|[]]. reflexivity.
Defined.

(** ** The assertions of [NextImpl] on [started_] *)

Lemma holds_bind {A B} (m : M A) (k : A -> M B) s R Q :
  holds m s R -> (forall a s1, R a s1 -> holds (k a) s1 Q) ->
  holds (bind m k) s Q.
Proof.
  intros Hm Hk b s' E.
  destruct (bind_Done_inv _ _ _ _ _ E) as [a [s1 [E1 E2]]].
  exact (Hk a s1 (Hm a s1 E1) b s' E2).
Qed.

Lemma holds_bind_modify {B} f (k : unit -> M B) s Q :
  holds (k tt) (f s) Q -> holds (bind (modify f) k) s Q.
Proof. intros H b s' E. rewrite bind_modify in E. exact (H b s' E). Qed.

Lemma holds_bind_get {B} (k : State -> M B) s Q :
  holds (k s) s Q -> holds (bind get k) s Q.
Proof. intros H b s' E. rewrite bind_get in E. exact (H b s' E). Qed.

Lemma holds_bind_ret {A B} (a : A) (k : A -> M B) s Q :
  holds (k a) s Q -> holds (bind (ret a) k) s Q.
Proof. intros H b s' E. rewrite bind_ret in E. exact (H b s' E). Qed.

Lemma holds_ret {A} (a : A) s (Q : A -> State -> Prop) :
  Q a s -> holds (ret a) s Q.
Proof. intros H b s' E. injection E as <- <-. exact H. Qed.

Lemma holds_modify f s (Q : unit -> State -> Prop) :
  Q tt (f s) -> holds (modify f) s Q.
Proof. intros H [] s' E. injection E as <-. exact H. Qed.

Lemma holds_fail {A} (o : Outcome A) s Q :
  (forall a s', o <> Done a s') -> holds (fun _ => o) s Q.
Proof. intros H a s' E. elim (H a s' E). Qed.

Lemma holds_weaken {A} (m : M A) s (R Q : A -> State -> Prop) :
  holds m s R -> (forall a s', R a s' -> Q a s') -> holds m s Q.
Proof. intros H W a s' E. apply W, (H a s' E). Qed.

(** Reading a record and opening a file change neither [started_] nor the
    list of failed assertions. *)
Lemma holds_RestrictedRead env s :
  holds (RestrictedRead env) s
        (fun _ s1 => started_ s1 = started_ s /\ failed_ s1 = failed_ s).
Proof.
  intros r s1 E. destruct (RestrictedRead_inv env s r s1 E) as [[ord ->] _].
  split; reflexivity.
Qed.

Lemma holds_OpenLogReader env f s :
  holds (OpenLogReader env f) s
        (fun _ s1 => started_ s1 = started_ s /\ failed_ s1 = failed_ s).
Proof.
  unfold OpenLogReader.
  destruct (OpenLogFile env f) as [[|c m] [file|]];
    unfold bind, modify, ret; intros a s' E; injection E as _ <-;
    split; reflexivity.
Qed.

Lemma holds_files_at i s :
  holds (files_at i) s (fun _ s1 => s1 = s).
Proof. intros f s1 E. apply (files_at_inv _ _ _ _ E). Qed.

Lemma accept_state_failed env r s :
  started_failures (accept_state env r s) -> started_failures s.
Proof.
  unfold started_failures, accept_state.
  destruct (u64 (Sequence r + Count r - 1) <=? LastSequence env); cbn;
    intros [H|H]; auto; destruct H as [H|H]; auto; discriminate.
Qed.

Section StartedAssertions.

Variable env : Env.
Variable X : Prop.

Lemma unblamed_same s s1 :
  failed_ s1 = failed_ s -> unblamed X s -> unblamed X s1.
Proof. unfold unblamed, started_failures. intros ->. auto. Qed.

Lemma asserts_hold : forall fuel,
  (forall d r s, unblamed X s ->
     holds (UpdateCurrentWriteBatch env fuel d r) s
           (fun _ s' => unblamed X s' /\
                        (started_ s = false -> started_ s' = false))) /\
  (forall d i strict s, unblamed X s ->
     holds (SeekToStartSequence env fuel d i strict) s
           (fun _ s' => unblamed X s')) /\
  (forall d strict s, unblamed X s -> started_ s = false ->
     holds (SeekLoop env fuel d strict) s
           (fun b s' => unblamed X s' /\ (b = false -> started_ s' = false))) /\
  (forall d internal s, unblamed X s ->
     (internal = true -> started_ s = false) ->
     holds (NextImpl env fuel d internal) s (fun _ s' => unblamed X s')) /\
  (forall d internal s, unblamed X s -> started_ s = negb internal ->
     holds (NextFileLoop env fuel d internal) s (fun _ s' => unblamed X s')) /\
  (forall d internal s, unblamed X s -> started_ s = negb internal ->
     holds (NextReadLoop env fuel d internal) s
           (fun b s' => unblamed X s' /\
                        (b = false -> started_ s' = started_ s))).
Proof.
  induction fuel as [|n [IHu [IHs [IHl [IHn [IHf IHr]]]]]].
  - repeat apply conj; intros; intros ? ? E; cbn in E; discriminate.
  - repeat apply conj.
    + (* UpdateCurrentWriteBatch *)
      intros d r s U. rewrite UpdateCurrentWriteBatch_eq.
      apply holds_bind_get. cbv zeta.
      destruct (started_ s && negb (IsBatchExpected r (u64 (currentLastSeq_ s + 1))))
        eqn:C.
      * apply (holds_bind _ _ _ _ _ (holds_files_at _ s)). intros f s1 ->.
        assert (Hst : started_ s = true) by (destruct (started_ s); [reflexivity|discriminate]).
        apply (holds_bind _ _ s (fun _ s1 => failed_ s1 = failed_ s)).
        { unfold when.
          destruct (u64 (currentLastSeq_ s + 1) <? StartSequence f);
            [destruct (negb (currentFileIndex_ s =? 0))|];
            first [apply holds_modify; reflexivity
                  |apply holds_ret; reflexivity]. }
        intros _ s1 F1.
        apply holds_bind_modify, holds_bind_modify, holds_bind_get.
        destruct d as [|d]; [apply holds_fail; discriminate|].
        eapply holds_weaken.
        { apply IHs. apply (unblamed_same s); [exact F1|exact U]. }
        cbv beta. intros _ s' U'. split; [exact U'|].
        intros Hf. rewrite Hf in Hst. discriminate.
      * intros a s' E. rewrite accept_batch_run in E. injection E as _ <-.
        split.
        -- intros Hf. apply U, (accept_state_failed env r s Hf).
        -- intros Hf. rewrite <- Hf. apply accept_state_fields.
    + (* SeekToStartSequence *)
      intros d i strict s U. rewrite SeekToStartSequence_eq.
      apply holds_bind_modify, holds_bind_modify, holds_bind_get.
      set (s0 := set_isValid false (set_started false s)).
      assert (U0 : unblamed X s0) by exact U.
      destruct (files_size s0 <=? i); [apply holds_ret; exact U0|].
      apply (holds_bind _ _ _ _ _ (holds_files_at _ s0)). intros f s1 ->.
      apply (holds_bind _ _ _ _ _ (holds_OpenLogReader env f s0)).
      intros st s1 [S1 F1].
      assert (U1 : unblamed X s1) by (apply (unblamed_same s0); assumption).
      destruct (negb (ok st)); [apply holds_modify; exact U1|].
      apply (holds_bind _ _ _ _ _ (IHl d strict s1 U1 S1)).
      intros b s2 [U2 S2].
      destruct b; [apply holds_ret; exact U2|].
      destruct strict; [apply holds_modify; exact U2|].
      apply holds_bind_get.
      destruct (negb (files_size s2 =? 1)); [|apply holds_ret; exact U2].
      apply holds_bind_modify.
      apply IHn; [exact U2|]. intros _. apply S2. reflexivity.
    + (* SeekLoop *)
      intros d strict s U Hst. rewrite SeekLoop_eq.
      apply (holds_bind _ _ _ _ _ (holds_RestrictedRead env s)).
      intros r s1 [S1 F1].
      assert (U1 : unblamed X s1) by (apply (unblamed_same s); assumption).
      assert (Hst1 : started_ s1 = false) by (rewrite S1; exact Hst).
      destruct r as [record|]; [|apply holds_ret; split; [exact U1|auto]].
      destruct (size record <? 12); [apply IHl; assumption|].
      apply (holds_bind _ _ _ _ _ (IHu d record s1 U1)).
      intros _ s2 [U2 S2]. specialize (S2 Hst1).
      apply holds_bind_get.
      destruct (startingSequenceNumber_ s2 <=? currentLastSeq_ s2).
      * destruct (strict && negb (currentBatchSeq_ s2 =? startingSequenceNumber_ s2)).
        -- apply holds_bind_modify, holds_ret.
           split; [exact U2|discriminate].
        -- apply holds_bind_modify, holds_bind_modify, holds_ret.
           split; [exact U2|discriminate].
      * apply holds_bind_modify. apply IHl; [exact U2|exact S2].
    + (* NextImpl *)
      intros d internal s U Hin. rewrite NextImpl_eq.
      apply holds_bind_modify, holds_bind_get.
      change (started_ (set_isValid false s)) with (started_ s).
      destruct (negb internal && negb (started_ s)) eqn:C.
      * apply IHs. exact U.
      * apply IHf; [exact U|].
        change (started_ (set_isValid false s)) with (started_ s).
        destruct internal; [apply Hin; reflexivity|].
        destruct (started_ s); [reflexivity|discriminate].
    + (* NextFileLoop *)
      intros d internal s U Hst. rewrite NextFileLoop_eq.
      apply holds_bind_get.
      destruct (currentLogReader_ s) as [rd|]; [|apply holds_fail; discriminate].
      apply (holds_bind _ _ s (fun _ s1 => started_ s1 = started_ s /\
                                            failed_ s1 = failed_ s)).
      { unfold when. destruct (IsEOF rd);
          [apply holds_modify|apply holds_ret]; split; reflexivity. }
      intros _ s1 [S1 F1].
      assert (U1 : unblamed X s1) by (apply (unblamed_same s); assumption).
      assert (Hst1 : started_ s1 = negb internal) by (rewrite S1; exact Hst).
      apply (holds_bind _ _ _ _ _ (IHr d internal s1 U1 Hst1)).
      intros b s2 [U2 S2].
      destruct b; [apply holds_ret; exact U2|]. specialize (S2 eq_refl).
      apply holds_bind_get.
      destruct (currentFileIndex_ s2 <? u64 (files_size s2 - 1)).
      * apply holds_bind_modify, holds_bind_get.
        set (s3 := set_currentFileIndex (u64 (currentFileIndex_ s2 + 1)) s2).
        assert (U3 : unblamed X s3) by exact U2.
        apply (holds_bind _ _ _ _ _ (holds_files_at _ s3)). intros f s4 ->.
        apply (holds_bind _ _ _ _ _ (holds_OpenLogReader env f s3)).
        intros st s4 [S4 F4].
        assert (U4 : unblamed X s4) by (apply (unblamed_same s3); assumption).
        destruct (negb (ok st)).
        -- apply holds_bind_modify, holds_modify. exact U4.
        -- apply IHf; [exact U4|]. rewrite S4.
           change (started_ s3) with (started_ s2). rewrite S2. exact Hst1.
      * apply holds_bind_modify.
        destruct (currentLastSeq_ s2 =? LastSequence env);
          apply holds_modify; exact U2.
    + (* NextReadLoop *)
      intros d internal s U Hst. rewrite NextReadLoop_eq.
      apply (holds_bind _ _ _ _ _ (holds_RestrictedRead env s)).
      intros r s1 [S1 F1].
      assert (U1 : unblamed X s1) by (apply (unblamed_same s); assumption).
      assert (Hst1 : started_ s1 = negb internal) by (rewrite S1; exact Hst).
      destruct r as [record|]; [|apply holds_ret; split; [exact U1|auto]].
      destruct (size record <? 12).
      { eapply holds_weaken; [apply IHr; assumption|].
        cbv beta. intros b s2 [U2 S2]. split; [exact U2|].
        intros Hb. rewrite (S2 Hb). exact S1. }
      apply holds_bind_get. rewrite Hst1.
      replace (internal || negb internal) with true by (destruct internal; reflexivity).
      replace (negb internal || negb (negb internal)) with true
        by (destruct internal; reflexivity).
      unfold assert_. apply holds_bind_ret, holds_bind_ret.
      apply (holds_bind _ _ _ _ _ (IHu d record s1 U1)).
      intros _ s2 [U2 _]. apply holds_bind_get.
      unfold when. destruct (internal && negb (started_ s2)).
      * apply holds_bind_modify, holds_ret. split; [exact U2|discriminate].
      * apply holds_bind_ret, holds_ret. split; [exact U2|discriminate].
Qed.

End StartedAssertions.

(** X15. The two assertions of [NextImpl] on [started_] never fail in a
    run: whenever the record loop is about to hand a batch to
    [UpdateCurrentWriteBatch], the iterator has started if the call comes
    from the application ([assert(internal || started_)]) and has not
    started if the call comes from the seek
    ([assert(!internal || !started_)]). *)
Theorem started_assertions_hold env s :
  reachable env s ->
  ~ In AssertStartedIfExternal (failed_ s) /\
  ~ In AssertUnstartedIfInternal (failed_ s).
Proof.
  intros R.
  assert (U : unblamed False s).
  { induction R as [fuel d seq files s Hlen H|fuel d s0 s R IH H|s0 r s R IH H].
    - unfold TransactionLogIteratorImpl in H.
      apply (proj1 (proj2 (asserts_hold env False fuel)) d 0 false
               (initial seq files)) with (a := tt); [|exact H].
      intros [[]|[]].
    - unfold Next in H.
      apply (proj1 (proj2 (proj2 (proj2 (asserts_hold env False fuel))))
               (S d) false s0 IH) with (a := tt); [discriminate|exact H].
    - revert H. unfold GetBatch, bind, get, assert_, modify, ret.
      destruct (isValid_ s0); intros E; injection E as _ <-; [exact IH|].
      intros [[H|H]|[H|H]]; try discriminate; apply IH; [left|right]; exact H. }
  split; intros H; apply U; [left|right]; exact H.
Qed.

Lemma started_assertions_hold_witness :
  let s := state_of (run (mkEnv (two_logs [batch 1 2] [batch 3 1]) 20) 20 10
                         [live_log 1 1; live_log 2 3] 1) in
  ~ In AssertStartedIfExternal (failed_ s) /\
  ~ In AssertUnstartedIfInternal (failed_ s).
Proof.
  intros s.
  apply (started_assertions_hold (mkEnv (two_logs [batch 1 2] [batch 3 1]) 20) s).
  apply (reach_Next _ 20 0
           (state_of (run (mkEnv (two_logs [batch 1 2] [batch 3 1]) 20) 20 10
                          [live_log 1 1; live_log 2 3] 0))).
  - apply (reach_new _ 20 1 10 [live_log 1 1; live_log 2 3]);
      vm_compute; reflexivity.
  - vm_compute. reflexivity.
Defined.

(** ** Log files *)

(** X16. [OpenLogFile] hands out a file exactly when its status is OK, so
    that [assert(file)] in [OpenLogReader] holds.  It does so exactly when
    the file can be opened under its [PathName] or under its name in the
    archive, and a file that opens under its [PathName] is the one handed
    out. *)
Theorem OpenLogFile_file_iff_ok env f :
  (ok (fst (OpenLogFile env f)) = true <-> snd (OpenLogFile env f) <> None) /\
  (snd (OpenLogFile env f) <> None <->
   (exists file, NewSequentialFile env (PathName f) = inr file) \/
   (exists file,
      NewSequentialFile env (ArchivedLogFileName (LogNumber f)) = inr file)) /\
  (forall file, NewSequentialFile env (PathName f) = inr file ->
     OpenLogFile env f = (OK, Some file)).
Proof.
  unfold OpenLogFile, PathName.
  destruct (Type_ f);
    destruct (NewSequentialFile env (ArchivedLogFileName (LogNumber f)))
      as [[c m]|file] eqn:Ea;
    try (destruct (NewSequentialFile env (LogFileName (LogNumber f)))
           as [[c' m']|file'] eqn:El);
    cbn; repeat apply conj; intros;
    try discriminate; try congruence; eauto;
    repeat match goal with
           | H : _ \/ _ |- _ => destruct H
           | H : exists _, _ |- _ => destruct H
           end;
    try discriminate; try congruence.
Qed.

(** X17. [operator<] of [LogFileImpl] is a strict weak ordering, as
    sorting the list of log files requires: it is irreflexive and
    transitive, being unordered is transitive, and two files are unordered
    exactly when they have the same log number, whatever their type, start
    sequence and size. *)
Theorem LogFile_lt_strict_weak_order :
  (forall a, LogFile_lt a a = false) /\
  (forall a b c, LogFile_lt a b = true -> LogFile_lt b c = true ->
                 LogFile_lt a c = true) /\
  (forall a b, LogFile_lt a b = false /\ LogFile_lt b a = false <->
               LogNumber a = LogNumber b) /\
  (forall a b c, LogFile_lt a b = false -> LogFile_lt b a = false ->
                 LogFile_lt b c = false -> LogFile_lt c b = false ->
                 LogFile_lt a c = false /\ LogFile_lt c a = false).
Proof.
  unfold LogFile_lt. repeat apply conj; intros.
  - apply Z.ltb_irrefl.
  - apply Z.ltb_lt. apply Z.ltb_lt in H, H0. lia.
  - split.
    + intros [H1 H2]. apply Z.ltb_ge in H1, H2. lia.
    + intros ->. split; apply Z.ltb_irrefl.
  - apply Z.ltb_ge in H, H0, H1, H2. split; apply Z.ltb_ge; lia.
Qed.

(** ** The reseek that recovers *)

Lemma files_at_nth i s f :
  0 <= i -> nth_error (files_ s) (Z.to_nat i) = Some f ->
  files_at i s = Done f s.
Proof.
  intros Hi Hn. unfold files_at.
  destruct (Z.ltb_spec i 0) as [H|_]; [lia|]. rewrite Hn. reflexivity.
Qed.

(** A started iterator handed a batch that is not the expected one turns
    to the strict seek. *)
Lemma UpdateCurrentWriteBatch_gap env n d record s f :
  started_ s = true ->
  Sequence record <> u64 (currentLastSeq_ s + 1) ->
  files_at (currentFileIndex_ s) s = Done f s ->
  (u64 (currentLastSeq_ s + 1) <? StartSequence f) = false ->
  UpdateCurrentWriteBatch env (S n) (S d) record s
  = SeekToStartSequence env n d (currentFileIndex_ s) true
      (set_currentStatus GapNotFound
         (set_startingSequenceNumber (u64 (currentLastSeq_ s + 1)) s)).
Proof.
  intros Hst Hgap Hf Hback.
  rewrite UpdateCurrentWriteBatch_eq, bind_get. cbv zeta.
  unfold IsBatchExpected. apply Z.eqb_neq in Hgap. rewrite Hst, Hgap.
  cbn [negb andb]. rewrite (bind_Done _ _ _ _ _ Hf).
  unfold when. rewrite Hback. reflexivity.
Qed.

Lemma seek_lands env d n i strict s f pre r post :
  files_at i s = Done f s ->
  OpenLogFile env f = (OK, Some (pre ++ r :: post)) ->
  currentLastSeq_ s < LastSequence env ->
  Forall (passed_over env (startingSequenceNumber_ s)) pre ->
  12 <= size r ->
  startingSequenceNumber_ s <= u64 (Sequence r + Count r - 1) ->
  (strict = true -> Sequence r = startingSequenceNumber_ s) ->
  (List.length pre + 3 <= n)%nat ->
  exists s',
    SeekToStartSequence env n d i strict s = Done tt s' /\
    started_ s' = true /\ isValid_ s' = true /\
    currentBatch_ s' = Some r /\
    currentBatchSeq_ s' = Sequence r /\
    currentStatus_ s' = OK /\
    currentLogReader_ s' = Some (mkReader post false) /\
    startingSequenceNumber_ s' = startingSequenceNumber_ s.
Proof.
  intros Hf Ho Hlast Hpre Hsz Hreach Hstrict Hn.
  destruct n as [|n]; [lia|].
  rewrite (seek_opens env d n strict i s f _ Hf Ho).
  set (s0 := set_currentLogReader (Some (mkReader (pre ++ r :: post) false))
               (set_isValid false (set_started false s))).
  replace n with (List.length pre + S (n - List.length pre - 1))%nat by lia.
  destruct (SeekLoop_pass env d strict pre (n - List.length pre - 1) s0 false
              (r :: post) eq_refl eq_refl Hlast Hpre)
    as [s1 [E [A1 [A2 [A3 [A4 [A5 _]]]]]]].
  assert (E' : SeekLoop env (List.length pre + S (n - List.length pre - 1)) d strict s0
               = Done true
                   (set_started true
                      (set_isValid true
                         (accept_state env r
                            (set_currentLogReader (Some (mkReader post false)) s1))))).
  { rewrite E.
    replace (S (n - List.length pre - 1)) with (S (S (n - List.length pre - 2)))
      by lia.
    apply SeekLoop_land; try assumption.
    - rewrite A4. exact Hreach.
    - rewrite A4. exact Hstrict. }
  rewrite (bind_Done _ _ _ _ _ E'). eexists. split; [reflexivity|].
  pose proof (accept_state_fields env r
                (set_currentLogReader (Some (mkReader post false)) s1)) as F.
  cbv zeta in F.
  destruct F as [_ [Fn [_ [_ [Fr [_ [Fs [Fb [Fq _]]]]]]]]].
  cbn. rewrite Fn, Fr, Fs, Fb, Fq. cbn. rewrite A4.
  repeat apply conj; auto.
Qed.

(** X18. A reseek that recovers.  A started iterator reads a batch that
    is not the expected one, and the expected sequence is not below the
    start sequence of the current file.  Next then reads that file again
    from its beginning, now with the expected sequence as the starting
    sequence; when the first batch there that reaches the expected sequence
    starts exactly at it, the iterator is valid on that batch with status
    OK, and the batch that was out of order has not been delivered. *)
Theorem Next_reseek_recovers env d n s rd pre r post f pre' r' post' :
  started_ s = true ->
  currentLogReader_ s = Some rd ->
  pending rd = pre ++ r :: post ->
  all_short pre ->
  currentLastSeq_ s < LastSequence env ->
  12 <= size r ->
  Sequence r <> u64 (currentLastSeq_ s + 1) ->
  0 <= currentFileIndex_ s ->
  nth_error (files_ s) (Z.to_nat (currentFileIndex_ s)) = Some f ->
  (u64 (currentLastSeq_ s + 1) <? StartSequence f) = false ->
  OpenLogFile env f = (OK, Some (pre' ++ r' :: post')) ->
  Forall (passed_over env (u64 (currentLastSeq_ s + 1))) pre' ->
  12 <= size r' ->
  Sequence r' = u64 (currentLastSeq_ s + 1) ->
  u64 (currentLastSeq_ s + 1) <= u64 (Sequence r' + Count r' - 1) ->
  (List.length pre + List.length pre' + 8 <= n)%nat ->
  exists s',
    Next env n (S d) s = Done tt s' /\
    Valid s' = true /\
    currentBatch_ s' = Some r' /\
    currentBatchSeq_ s' = u64 (currentLastSeq_ s + 1) /\
    status s' = OK /\
    startingSequenceNumber_ s' = u64 (currentLastSeq_ s + 1) /\
    currentLogReader_ s' = Some (mkReader post' false).
Proof.
  intros Hst Hrd Hp Hpre Hlast Hsz Hgap Hi Hnth Hback Ho Hpass Hsz' Hseq Hreach Hn.
  unfold Next. destruct n as [|n]; [lia|].
  rewrite (NextImpl_started env n (S d) s Hst).
  destruct n as [|n]; [lia|].
  rewrite (NextFileLoop_turn env (S d) false n (set_isValid false s) rd Hrd).
  set (s1 := set_currentLogReader (Some (UnmarkEOF rd)) (set_isValid false s)).
  assert (Hrd1 : currentLogReader_ s1 = Some (mkReader (pre ++ r :: post) false)).
  { subst s1. cbn. unfold UnmarkEOF. rewrite Hp. reflexivity. }
  set (s2 := set_currentLogReader (Some (mkReader post false)) s1).
  set (s3 := set_currentStatus GapNotFound
               (set_startingSequenceNumber (u64 (currentLastSeq_ s + 1)) s2)).
  destruct (seek_lands env d (n - List.length pre - 2)
              (currentFileIndex_ s) true s3 f pre' r' post'
              (files_at_nth _ s3 f Hi Hnth) Ho Hlast Hpass Hsz' Hreach
              (fun _ => Hseq) ltac:(lia))
    as [s' [Es [B1 [B2 [B3 [B4 [B5 [B6 B7]]]]]]]].
  exists s'.
  assert (E : NextReadLoop env n (S d) false s1 = Done true s').
  { replace n with (List.length pre + S (S (n - List.length pre - 2)))%nat
      at 1 by lia.
    rewrite (NextReadLoop_skip env (S d) false pre _ s1 false (r :: post)
               Hrd1 Hlast Hpre).
    rewrite (NextReadLoop_take env (S d) false _
               (set_currentLogReader (Some (mkReader (r :: post) false)) s1)
               false r post eq_refl Hlast Hsz Hst).
    change (set_currentLogReader (Some (mkReader post false))
              (set_currentLogReader (Some (mkReader (r :: post) false)) s1))
      with s2.
    rewrite (bind_Done _ _ s2 tt s').
    - rewrite bind_get. reflexivity.
    - rewrite (UpdateCurrentWriteBatch_gap env _ d r s2 f Hst Hgap
                 (files_at_nth _ s2 f Hi Hnth) Hback).
      exact Es. }
  rewrite (bind_Done _ _ _ _ _ E).
  unfold Valid, status. rewrite B1, B2, B3, B4, B5, B6, B7, Hseq.
  repeat apply conj; reflexivity.
Qed.

Lemma Next_reseek_recovers_witness :
  let env := mkEnv (one_log [batch 1 2; batch 1 1; batch 3 1]) 3 in
  let s := state_of (run env 20 1 [live_log 1 1] 0) in
  exists s',
    Next env 12 1 s = Done tt s' /\
    Valid s' = true /\
    currentBatch_ s' = Some (batch 3 1) /\
    currentBatchSeq_ s' = u64 (currentLastSeq_ s + 1) /\
    status s' = OK /\
    startingSequenceNumber_ s' = u64 (currentLastSeq_ s + 1) /\
    currentLogReader_ s' = Some (mkReader [] false).
Proof.
  intros env s.
  apply (Next_reseek_recovers env 0 12 s
           (mkReader [batch 1 1; batch 3 1] false) [] (batch 1 1) [batch 3 1]
           (live_log 1 1) [batch 1 2; batch 1 1] (batch 3 1) []).
  - vm_compute. reflexivity.
  - vm_compute. reflexivity.
  - reflexivity.
  - constructor.
  - vm_compute. reflexivity.
  - vm_compute. discriminate.
  - vm_compute. discriminate.
  - vm_compute. discriminate.
  - vm_compute. reflexivity.
  - vm_compute. reflexivity.
  - vm_compute. reflexivity.
  - constructor; [right; split; vm_compute; reflexivity|].
    constructor; [right; split; vm_compute; reflexivity|constructor].
  - vm_compute. discriminate.
  - vm_compute. reflexivity.
  - vm_compute. discriminate.
  - vm_compute. lia.
Defined.

(** X19. Next on an iterator that has not started runs the seek of the
    constructor again, from the first file and not strict, with the
    starting sequence the iterator holds at that moment.  After a failed
    reseek that is the sequence that was missing: the call lands on the
    first batch that reaches it, valid and with status OK, even when the
    batch starts after it, so the gap that was reported once is jumped. *)
Theorem unstarted_Next_seeks_again env d n s f pre r post :
  started_ s = false ->
  nth_error (files_ s) 0 = Some f ->
  OpenLogFile env f = (OK, Some (pre ++ r :: post)) ->
  currentLastSeq_ s < LastSequence env ->
  Forall (passed_over env (startingSequenceNumber_ s)) pre ->
  12 <= size r ->
  startingSequenceNumber_ s <= u64 (Sequence r + Count r - 1) ->
  (List.length pre + 4 <= n)%nat ->
  exists s',
    Next env n d s = Done tt s' /\
    Valid s' = true /\
    currentBatch_ s' = Some r /\
    currentBatchSeq_ s' = Sequence r /\
    status s' = OK /\
    currentLogReader_ s' = Some (mkReader post false) /\
    startingSequenceNumber_ s' = startingSequenceNumber_ s.
Proof.
  intros Hst Hnth Ho Hlast Hpass Hsz Hreach Hn.
  destruct n as [|n]; [lia|].
  rewrite (Next_unstarted env n d s Hst).
  destruct (seek_lands env d n 0 false (set_isValid false s) f pre r post
              (files_at_nth 0 (set_isValid false s) f ltac:(lia) Hnth)
              Ho Hlast Hpass Hsz Hreach ltac:(discriminate) ltac:(lia))
    as [s' [Es [B1 [B2 [B3 [B4 [B5 [B6 B7]]]]]]]].
  exists s'. unfold Valid, status. rewrite Es, B1, B2, B3, B4, B5, B6, B7.
  repeat apply conj; reflexivity.
Qed.

Lemma unstarted_Next_seeks_again_witness :
  let s := state_of (run (gap_env 5) 20 1 [live_log 1 1] 1) in
  exists s',
    Next (gap_env 5) 10 1 s = Done tt s' /\
    Valid s' = true /\
    currentBatch_ s' = Some (batch 3 1) /\
    currentBatchSeq_ s' = Sequence (batch 3 1) /\
    status s' = OK /\
    currentLogReader_ s' = Some (mkReader [] false) /\
    startingSequenceNumber_ s' = startingSequenceNumber_ s.
Proof.
  intros s.
  apply (unstarted_Next_seeks_again (gap_env 5) 1 10 s (live_log 1 1)
           [batch 1 1] (batch 3 1) []).
  - vm_compute. reflexivity.
  - vm_compute. reflexivity.
  - reflexivity.
  - vm_compute. reflexivity.
  - constructor; [right; split; vm_compute; reflexivity|constructor].
  - vm_compute. discriminate.
  - vm_compute. discriminate.
  - vm_compute. lia.
Defined.

(** ** A seek that does not find the starting sequence *)

(** Entered again with the last sequence it left behind, the loop of the
    seek leaves the same last sequence behind. *)
Lemma seek_scan_again env starting : forall recs last last',
  seek_scan env starting last recs = Some last' ->
  seek_scan env starting last' recs = Some last'.
Proof.
  induction recs as [|x recs IH]; intros last last' H; [reflexivity|].
  cbn [seek_scan] in *.
  destruct (LastSequence env <=? last') eqn:B'; [reflexivity|].
  destruct (LastSequence env <=? last) eqn:B; [congruence|].
  destruct (size x <? 12); [exact (IH _ _ H)|].
  destruct (starting <=? u64 (Sequence x + Count x - 1));
    [discriminate|exact H].
Qed.

(** A file whose batches all end before the starting sequence is read
    without stopping. *)
Lemma ends_before_scan env starting : forall recs last,
  Forall (ends_before starting) recs ->
  exists last', seek_scan env starting last recs = Some last'.
Proof.
  induction recs as [|x recs IH]; intros last H; [exists last; reflexivity|].
  inversion H as [|y l Hx Hrest]; subst y l. cbn [seek_scan].
  destruct (LastSequence env <=? last); [exists last; reflexivity|].
  destruct (Z.ltb_spec (size x) 12) as [Hs|Hs]; [apply IH, Hrest|].
  destruct (Z.leb_spec starting (u64 (Sequence x + Count x - 1))) as [Hr|Hr].
  - destruct Hx as [Hx|Hx]; lia.
  - apply IH, Hrest.
Qed.

(** The loop of a seek that is not strict, on a file in which it does not
    find the starting sequence: it answers false with the iterator still
    unstarted and not valid, and leaves the last sequence [seek_scan]
    computes; the reader has nothing more to give. *)
Lemma SeekLoop_scan env d : forall recs n s e last',
  started_ s = false ->
  isValid_ s = false ->
  currentLogReader_ s = Some (mkReader recs e) ->
  seek_scan env (startingSequenceNumber_ s) (currentLastSeq_ s) recs
  = Some last' ->
  exists s',
    SeekLoop env (List.length recs + S n) d false s = Done false s' /\
    started_ s' = false /\ isValid_ s' = false /\
    currentLastSeq_ s' = last' /\
    startingSequenceNumber_ s' = startingSequenceNumber_ s /\
    files_ s' = files_ s /\
    currentFileIndex_ s' = currentFileIndex_ s /\
    (currentStatus_ s' = currentStatus_ s \/ currentStatus_ s' = OK) /\
    exists rd',
      currentLogReader_ s' = Some rd' /\
      yields_nothing env last' (pending rd') /\
      (List.length (pending rd') <= List.length recs)%nat.
Proof.
  induction recs as [|x recs IH]; intros n s e last' Hst Hv Hrd Hscan.
  - cbn in Hscan. injection Hscan as <-.
    cbn [List.length Nat.add]. rewrite SeekLoop_eq.
    destruct (Z.leb_spec (LastSequence env) (currentLastSeq_ s)) as [Hb|Hb].
    + rewrite (bind_Done _ _ _ _ _ (RestrictedRead_blocked env s Hb)).
      exists s. repeat apply conj; auto.
      exists (mkReader [] e). repeat apply conj; auto. left. exact Hb.
    + rewrite (bind_Done _ _ _ _ _
                 (RestrictedRead_empty env s _ Hb Hrd eq_refl)).
      eexists. split; [reflexivity|]. cbn. repeat apply conj; auto.
      exists (mkReader [] true). repeat apply conj; auto.
      right. constructor.
  - cbn [seek_scan] in Hscan. cbn [List.length Nat.add]. rewrite SeekLoop_eq.
    destruct (Z.leb_spec (LastSequence env) (currentLastSeq_ s)) as [Hb|Hb].
    + injection Hscan as <-.
      rewrite (bind_Done _ _ _ _ _ (RestrictedRead_blocked env s Hb)).
      exists s. repeat apply conj; auto.
      exists (mkReader (x :: recs) e). repeat apply conj; auto. left. exact Hb.
    + rewrite (bind_Done _ _ _ _ _
                 (RestrictedRead_cons env s _ _ _ Hb Hrd eq_refl)).
      cbn [pending eof_].
      set (s1 := set_currentLogReader (Some (mkReader recs e)) s).
      destruct (size x <? 12).
      * destruct (IH n s1 e last' Hst Hv eq_refl Hscan)
          as [s' [E [A1 [A2 [A3 [A4 [A5 [A6 [A7 [rd' [R1 [R2 R3]]]]]]]]]]]].
        exists s'. split; [exact E|]. repeat apply conj; auto.
        exists rd'. repeat apply conj; auto.
      * destruct (startingSequenceNumber_ s <=? u64 (Sequence x + Count x - 1))
          eqn:Hreach; [discriminate|].
        destruct (List.length recs + S n)%nat as [|m] eqn:Em; [lia|].
        rewrite (bind_Done _ _ _ _ _
                   (UpdateCurrentWriteBatch_unstarted env m d x s1 Hst)).
        pose proof (accept_state_fields env x s1) as F. cbv zeta in F.
        destruct F as [Fst [Fsn [Fi [Ff [Fr [_ [Fs [_ [_ Fl]]]]]]]]].
        rewrite bind_get, Fsn, Fl.
        change (startingSequenceNumber_ s1) with (startingSequenceNumber_ s).
        rewrite Hreach, bind_modify, <- Em.
        set (s2 := set_isValid false (accept_state env x s1)).
        destruct (IH n s2 e last') as
          [s' [E [A1 [A2 [A3 [A4 [A5 [A6 [A7 [rd' [R1 [R2 R3]]]]]]]]]]]].
        -- subst s2. cbn. rewrite Fst. exact Hst.
        -- reflexivity.
        -- subst s2. cbn. rewrite Fr. reflexivity.
        -- subst s2. cbn. rewrite Fsn, Fl. exact Hscan.
        -- exists s'. split; [exact E|].
           subst s2. cbn in A4, A5, A6, A7.
           rewrite Fsn in A4. rewrite Ff in A5. rewrite Fi in A6.
           rewrite Fs in A7.
           repeat apply conj; auto.
           ++ right. destruct A7 as [A7|A7]; exact A7.
           ++ exists rd'. repeat apply conj; auto.
Qed.

(** A seek from the first file that is not strict and does not find the
    starting sequence there: what is left to do after its loop. *)
Lemma seek_falls_through env d n s f0 recs0 last' :
  nth_error (files_ s) 0 = Some f0 ->
  OpenLogFile env f0 = (OK, Some recs0) ->
  seek_scan env (startingSequenceNumber_ s) (currentLastSeq_ s) recs0
  = Some last' ->
  (List.length recs0 + 1 <= n)%nat ->
  exists s1,
    SeekToStartSequence env (S n) d 0 false s
    = (if negb (files_size s =? 1) then
         modify (set_currentStatus StartNotFound) ;;;
         NextImpl env n d true
       else ret tt) s1 /\
    started_ s1 = false /\ isValid_ s1 = false /\
    currentLastSeq_ s1 = last' /\
    startingSequenceNumber_ s1 = startingSequenceNumber_ s /\
    files_ s1 = files_ s /\
    currentFileIndex_ s1 = currentFileIndex_ s /\
    (currentStatus_ s1 = currentStatus_ s \/ currentStatus_ s1 = OK) /\
    exists rd',
      currentLogReader_ s1 = Some rd' /\
      yields_nothing env last' (pending rd') /\
      (List.length (pending rd') <= List.length recs0)%nat.
Proof.
  intros Hnth Ho Hscan Hn.
  rewrite (seek_opens env d n false 0 s f0 _
             (files_at_nth 0 s f0 ltac:(lia) Hnth) Ho).
  set (s0 := set_currentLogReader (Some (mkReader recs0 false))
               (set_isValid false (set_started false s))).
  assert (En : n = (List.length recs0 + S (n - List.length recs0 - 1))%nat)
    by lia.
  destruct (SeekLoop_scan env d recs0 (n - List.length recs0 - 1) s0 false last'
              eq_refl eq_refl eq_refl Hscan)
    as [s1 [E [A1 [A2 [A3 [A4 [A5 [A6 [A7 R]]]]]]]]].
  rewrite <- En in E.
  rewrite (bind_Done _ _ _ _ _ E), bind_get.
  exists s1. split.
  - unfold files_size. rewrite A5. reflexivity.
  - repeat apply conj; auto.
Qed.

(** X5. The list has a single file and every batch in it ends before the
    starting sequence.  The constructor then leaves the iterator invalid
    with status OK, and so does every [Next], which runs the same seek
    again: to the caller the iterator looks cleanly exhausted until the log
    grows.  This holds wherever the last sequence of the version set
    stands, also when the last batch of the file ends exactly there. *)
Theorem start_beyond_single_log env seq f recs fuel k :
  OpenLogFile env f = (OK, Some recs) ->
  Forall (ends_before seq) recs ->
  (List.length recs + 3 <= fuel)%nat ->
  exists s,
    run env fuel seq [f] k = Done tt s /\
    Valid s = false /\ status s = OK /\
    startingSequenceNumber_ s = seq.
Proof.
  intros Ho Hpre Hn.
  assert (Step : forall n s,
             files_ s = [f] -> startingSequenceNumber_ s = seq ->
             currentStatus_ s = OK ->
             (List.length recs + 1 <= n)%nat ->
             exists s',
               SeekToStartSequence env (S n) 1 0 false s = Done tt s' /\
               files_ s' = [f] /\ startingSequenceNumber_ s' = seq /\
               currentStatus_ s' = OK /\
               started_ s' = false /\ isValid_ s' = false).
  { intros n s Hf Hs Hok Hle.
    destruct (ends_before_scan env seq recs (currentLastSeq_ s) Hpre)
      as [last' Hscan].
    destruct (seek_falls_through env 1 n s f recs last')
      as [s1 [E [A1 [A2 [_ [A4 [A5 [_ [A7 _]]]]]]]]]; auto.
    { rewrite Hf. reflexivity. }
    { rewrite Hs. exact Hscan. }
    exists s1. split.
    - rewrite E. unfold files_size. rewrite Hf. reflexivity.
    - repeat apply conj; auto; try congruence.
      destruct A7 as [A7|A7]; congruence. }
  unfold run, TransactionLogIteratorImpl.
  destruct fuel as [|fuel]; [lia|].
  destruct (Step fuel (initial seq [f]) eq_refl eq_refl eq_refl ltac:(lia))
    as [s0 [E [H1 [H2 [H3 [H4 H5]]]]]].
  rewrite E. clear E.
  revert s0 H1 H2 H3 H4 H5.
  induction k as [|k IH]; intros s0 H1 H2 H3 H4 H5.
  - exists s0. split; [reflexivity|].
    unfold Valid, status. rewrite H4. auto.
  - cbn [Next_times].
    rewrite (Next_unstarted env fuel 1 s0 H4).
    destruct fuel as [|fuel]; [lia|].
    destruct (Step fuel (set_isValid false s0) H1 H2 H3 ltac:(lia))
      as [s1 [E [G1 [G2 [G3 [G4 G5]]]]]].
    rewrite E. apply IH; assumption.
Qed.

Lemma start_beyond_single_log_witness :
  let env := mkEnv (one_log [batch 1 1; batch 2 1]) 2 in
  exists s,
    run env 10 3 [live_log 1 1] 3 = Done tt s /\
    Valid s = false /\ status s = OK /\
    startingSequenceNumber_ s = 3.
Proof.
  intros env.
  apply (start_beyond_single_log env 3 (live_log 1 1) [batch 1 1; batch 2 1] 10 3).
  - reflexivity.
  - repeat constructor; right; vm_compute; reflexivity.
  - vm_compute. lia.
Defined.

(** ** The final status, set by the advance of a seek *)

(** The loop of [NextImpl] over files that give nothing, with the state it
    ends in: the list and the starting sequence are as before, and the
    iterator stands on the last file. *)
Lemma NextFileLoop_runs_off_state env d internal m : forall k n s rd,
  currentLogReader_ s = Some rd ->
  yields_nothing env (currentLastSeq_ s) (pending rd) ->
  0 <= currentFileIndex_ s ->
  files_size s < 2 ^ 64 ->
  (Z.to_nat (currentFileIndex_ s) + 1 + k = List.length (files_ s))%nat ->
  Forall (opens_empty env (currentLastSeq_ s))
         (skipn (Z.to_nat (currentFileIndex_ s) + 1) (files_ s)) ->
  bounded env m s ->
  (k + m + 2 <= n)%nat ->
  exists s',
    NextFileLoop env n d internal s = Done tt s' /\
    isValid_ s' = false /\
    started_ s' = started_ s /\
    currentLastSeq_ s' = currentLastSeq_ s /\
    currentStatus_ s' = final_status env s /\
    files_ s' = files_ s /\
    startingSequenceNumber_ s' = startingSequenceNumber_ s /\
    0 <= currentFileIndex_ s' /\
    (Z.to_nat (currentFileIndex_ s') + 1 = List.length (files_ s))%nat /\
    exists rd',
      currentLogReader_ s' = Some rd' /\
      yields_nothing env (currentLastSeq_ s) (pending rd') /\
      (List.length (pending rd') <= m)%nat.
Proof.
  induction k as [|k IH]; intros n s rd Hrd Hex Hi Hsz Hlen Hrest Hb Hn.
  - assert (Hidx : ~ currentFileIndex_ s < u64 (files_size s - 1)).
    { unfold u64, files_size in *. rewrite Z.mod_small; lia. }
    destruct (NextFileLoop_past_last_file env d internal n s rd Hrd Hex Hidx)
      as [rd' [E [Hend Hle]]].
    { destruct Hb as [Hb _]. lia. }
    eexists. split; [exact E|]. cbn. repeat apply conj; auto; [lia|].
    exists rd'. repeat apply conj; auto.
    + destruct Hend as [H|H]; [left; exact H|right; rewrite H; constructor].
    + destruct Hb as [Hb _]. lia.
  - destruct n as [|n]; [lia|].
    rewrite NextFileLoop_eq, bind_get, Hrd.
    set (rd1 := if IsEOF rd then UnmarkEOF rd else rd).
    set (s1 := set_currentLogReader (Some rd1) s).
    assert (E1 : forall B (k0 : unit -> M B),
               (when (IsEOF rd) (modify (set_currentLogReader (Some (UnmarkEOF rd)))) ;;; k0 tt) s
               = k0 tt s1).
    { intros B k0. subst s1 rd1. unfold when. destruct (IsEOF rd);
        [reflexivity|rewrite set_currentLogReader_same by exact Hrd; reflexivity]. }
    rewrite (E1 _ (fun _ => _)). clear E1.
    assert (Hp1 : pending rd1 = pending rd)
      by (subst rd1; destruct (IsEOF rd); reflexivity).
    destruct (NextReadLoop_nothing_to_read env d internal (pending rd) n s1 rd1
                eq_refl Hp1 Hex) as [rd' [E _]].
    { destruct Hb as [Hb _]. unfold reader_len in Hb. rewrite Hrd in Hb. lia. }
    rewrite (bind_Done _ _ _ _ _ E), bind_get.
    set (s2 := set_currentLogReader (Some rd') s1) in *.
    change (currentFileIndex_ s2) with (currentFileIndex_ s).
    change (files_size s2) with (files_size s).
    assert (Eu : u64 (files_size s - 1) = files_size s - 1)
      by (unfold u64, files_size in *; apply Z.mod_small; lia).
    destruct (Z.ltb_spec (currentFileIndex_ s) (u64 (files_size s - 1))) as [_|H];
      [|unfold files_size in *; lia].
    rewrite bind_modify, bind_get.
    assert (Ei : u64 (currentFileIndex_ s + 1) = currentFileIndex_ s + 1)
      by (unfold u64, files_size in *; apply Z.mod_small; lia).
    change (currentFileIndex_ s2) with (currentFileIndex_ s). rewrite Ei.
    set (s3 := set_currentFileIndex (currentFileIndex_ s + 1) s2).
    destruct (skipn (Z.to_nat (currentFileIndex_ s) + 1) (files_ s))
      as [|f rest] eqn:Esk.
    { apply (f_equal (@List.length _)) in Esk. rewrite length_skipn in Esk.
      cbn in Esk. lia. }
    destruct (skipn_cons_nth _ _ _ _ Esk) as [Hnth Hsk].
    inversion Hrest as [|x y [recs [Ho Hy]] Hrest']; subst x y.
    assert (Hf : files_at (currentFileIndex_ s + 1) s3 = Done f s3).
    { apply files_at_nth; [lia|]. change (files_ s3) with (files_ s).
      replace (Z.to_nat (currentFileIndex_ s + 1))
        with (Z.to_nat (currentFileIndex_ s) + 1)%nat by lia.
      exact Hnth. }
    change (currentFileIndex_ s3) with (currentFileIndex_ s + 1).
    rewrite (bind_Done _ _ _ _ _ Hf).
    rewrite (bind_Done _ _ _ _ _ (OpenLogReader_opens env f recs s3 Ho)).
    cbn [ok negb].
    set (s4 := set_currentLogReader (Some (mkReader recs false)) s3).
    destruct (IH n s4 (mkReader recs false) eq_refl Hy) as [s' [E' P]].
    + cbn. lia.
    + exact Hsz.
    + change (currentFileIndex_ s4) with (currentFileIndex_ s + 1).
      change (files_ s4) with (files_ s).
      replace (Z.to_nat (currentFileIndex_ s + 1))
        with (Z.to_nat (currentFileIndex_ s) + 1)%nat by lia.
      lia.
    + change (currentFileIndex_ s4) with (currentFileIndex_ s + 1).
      change (files_ s4) with (files_ s).
      change (currentLastSeq_ s4) with (currentLastSeq_ s).
      replace (Z.to_nat (currentFileIndex_ s + 1) + 1)%nat
        with (S (Z.to_nat (currentFileIndex_ s) + 1)) by lia.
      rewrite Hsk. exact Hrest'.
    + destruct Hb as [_ [Hbf Hbl]]. split; [|split; assumption].
      unfold reader_len. cbn.
      rewrite Forall_forall in Hbf.
      specialize (Hbf f (nth_error_In _ _ Hnth)).
      unfold file_len in Hbf. rewrite Ho in Hbf. exact Hbf.
    + lia.
    + exists s'. split; [exact E'|]. exact P.
Qed.

(** A seek from the first file that is not strict, does not find the
    starting sequence there and, the list having more than one file, goes
    on into [NextImpl], which runs past the last file.  The state it leaves
    is one from which the same seek runs past the last file again. *)
Lemma seek_runs_past_last_file env d m j n s f0 recs0 last' :
  nth_error (files_ s) 0 = Some f0 ->
  OpenLogFile env f0 = (OK, Some recs0) ->
  seek_scan env (startingSequenceNumber_ s) (currentLastSeq_ s) recs0
  = Some last' ->
  files_size s <> 1 ->
  0 <= currentFileIndex_ s ->
  files_size s < 2 ^ 64 ->
  (Z.to_nat (currentFileIndex_ s) + 1 + j = List.length (files_ s))%nat ->
  Forall (opens_empty env last')
         (skipn (Z.to_nat (currentFileIndex_ s) + 1) (files_ s)) ->
  Forall (fun f => (file_len env f <= m)%nat) (files_ s) ->
  (List.length (files_ s) <= m)%nat ->
  (j + m + 4 <= n)%nat ->
  exists s0,
    SeekToStartSequence env n d 0 false s = Done tt s0 /\
    started_ s0 = false /\ isValid_ s0 = false /\
    currentLastSeq_ s0 = last' /\
    currentStatus_ s0 = (if last' =? LastSequence env then OK else NoMoreData) /\
    files_ s0 = files_ s /\
    startingSequenceNumber_ s0 = startingSequenceNumber_ s /\
    0 <= currentFileIndex_ s0 /\
    (Z.to_nat (currentFileIndex_ s0) + 1 = List.length (files_ s))%nat.
Proof.
  intros Hnth Ho Hscan Hne Hi Hsz Hlen Hrest Hbf Hbl Hn.
  assert (Hf0 : (List.length recs0 <= m)%nat).
  { rewrite Forall_forall in Hbf.
    specialize (Hbf f0 (nth_error_In _ _ Hnth)).
    unfold file_len in Hbf. rewrite Ho in Hbf. exact Hbf. }
  destruct n as [|n]; [lia|].
  destruct (seek_falls_through env d n s f0 recs0 last' Hnth Ho Hscan
              ltac:(lia))
    as [s1 [E [A1 [A2 [A3 [A4 [A5 [A6 [_ [rd' [R1 [R2 R3]]]]]]]]]]]].
  rewrite E. apply Z.eqb_neq in Hne. rewrite Hne. cbn [negb].
  rewrite bind_modify.
  destruct n as [|n]; [lia|].
  rewrite NextImpl_eq, bind_modify, bind_get. cbn [negb andb].
  set (s2 := set_isValid false (set_currentStatus StartNotFound s1)).
  destruct (NextFileLoop_runs_off_state env d true m j n s2 rd')
    as [s0 [E0 [B1 [B2 [B3 [B4 [B5 [B6 [B7 [B8 _]]]]]]]]]].
  - exact R1.
  - change (currentLastSeq_ s2) with (currentLastSeq_ s1). rewrite A3. exact R2.
  - change (currentFileIndex_ s2) with (currentFileIndex_ s1). rewrite A6.
    exact Hi.
  - unfold files_size in *. change (files_ s2) with (files_ s1). rewrite A5.
    exact Hsz.
  - change (currentFileIndex_ s2) with (currentFileIndex_ s1).
    change (files_ s2) with (files_ s1). rewrite A5, A6. exact Hlen.
  - change (currentFileIndex_ s2) with (currentFileIndex_ s1).
    change (files_ s2) with (files_ s1).
    change (currentLastSeq_ s2) with (currentLastSeq_ s1).
    rewrite A3, A5, A6. exact Hrest.
  - split; [|split].
    + unfold reader_len. change (currentLogReader_ s2) with (currentLogReader_ s1).
      rewrite R1. lia.
    + change (files_ s2) with (files_ s1). rewrite A5. exact Hbf.
    + change (files_ s2) with (files_ s1). rewrite A5. exact Hbl.
  - lia.
  - exists s0. split; [exact E0|].
    change (started_ s2) with (started_ s1) in B2.
    change (currentLastSeq_ s2) with (currentLastSeq_ s1) in B3.
    change (files_ s2) with (files_ s1) in B5, B8.
    change (startingSequenceNumber_ s2) with (startingSequenceNumber_ s1) in B6.
    unfold final_status in B4.
    change (currentLastSeq_ s2) with (currentLastSeq_ s1) in B4.
    rewrite A3 in B3, B4. rewrite A5 in B5, B8. rewrite A1 in B2.
    rewrite A4 in B6.
    repeat apply conj; assumption.
Qed.

Lemma files_bound_bounds env files :
  Forall (fun f => (file_len env f <= files_bound env files)%nat) files /\
  (List.length files <= files_bound env files)%nat.
Proof.
  unfold files_bound. split; [|apply Nat.le_max_r].
  eapply Forall_impl; [|apply (max_file_len_bounds env)].
  intros f Hf. cbv beta in Hf |- *. lia.
Qed.

(** A [Next] on a started iterator that runs past the last file, over the
    [j] files after the current one, leaves it standing past its last
    file. *)
Lemma Next_runs_past_last_file env d j n s rd :
  started_ s = true ->
  currentLogReader_ s = Some rd ->
  yields_nothing env (currentLastSeq_ s) (pending rd) ->
  0 <= currentFileIndex_ s ->
  files_size s < 2 ^ 64 ->
  (Z.to_nat (currentFileIndex_ s) + 1 + j = List.length (files_ s))%nat ->
  Forall (opens_empty env (currentLastSeq_ s))
         (skipn (Z.to_nat (currentFileIndex_ s) + 1) (files_ s)) ->
  (j + size_bound env s + 3 <= n)%nat ->
  exists s0,
    Next env n d s = Done tt s0 /\
    Valid s0 = false /\
    currentStatus_ s0 = final_status env s /\
    past_last_file env s0 /\
    final_status env s0 = final_status env s /\
    (reader_len s0 <= size_bound env s)%nat.
Proof.
  intros Hst Hrd Hex Hi Hsz Hlen Hrest Hn.
  unfold Next. destruct n as [|n]; [lia|].
  rewrite (NextImpl_started env n d s Hst).
  destruct (NextFileLoop_runs_off_state env d false (size_bound env s) j n
              (set_isValid false s) rd Hrd Hex Hi Hsz Hlen Hrest
              (bounded_size_bound env s) ltac:(lia))
    as [s0 [E [B1 [B2 [B3 [B4 [B5 [B6 [B7 [B8 [rd' [R1 [R2 R3]]]]]]]]]]]]].
  cbn in B2, B3, B5, B8, R2.
  exists s0. split; [exact E|].
  split; [unfold Valid; rewrite B1; apply andb_false_r|].
  split; [exact B4|].
  split; [|split].
  - split; [congruence|]. split.
    + exists rd'. split; [exact R1|]. rewrite B3. exact R2.
    + unfold files_size in *. rewrite B5.
      unfold u64. rewrite Z.mod_small; lia.
  - unfold final_status. rewrite B3. reflexivity.
  - unfold reader_len. rewrite R1. exact R3.
Qed.

(** C2, as the code has it.  The status set by an advance that ran past the
    last file (OK, or Corruption "NO MORE DATA LEFT") is final: with the
    files and the last sequence unchanged, every further [Next] returns,
    leaves [Valid] false and leaves that same status.  This is so wherever
    the advance is made.  First, on a started iterator that stands past its
    last file, every [Next] sets the final status again; and a [Next] on a
    started iterator that runs past the last file, over files that open and
    give nothing, sets the final status and leaves the iterator standing
    past its last file, so that every later [Next] sets that status again.
    Second, when a seek from the first file that is not strict (the
    constructor's, or that of [Next] on an iterator that has not started)
    does not find the starting sequence in the first file and its internal
    advance runs past the last file, it sets the final status with the
    iterator still unstarted, and every later [Next], which runs the seek
    again, ends with that same status.  Here [seek_scan] says that the loop
    of the seek reads the first file without stopping on a batch and gives
    the last sequence it leaves behind, and the files after the current one
    open and give nothing.  (Nothing is said of the gap corruption of a
    failed strict reseek and of the error of a failed open: the two runs in
    the section on the stickiness of the final status replace them.) *)
Theorem final_status_sticky env d :
  (forall s k n,
     past_last_file env s ->
     (reader_len s + 3 <= n)%nat ->
     exists s',
       Next_times env n d (S k) s = Done tt s' /\
       Valid s' = false /\
       currentStatus_ s' = final_status env s) /\
  (forall s rd j k n,
     started_ s = true ->
     currentLogReader_ s = Some rd ->
     yields_nothing env (currentLastSeq_ s) (pending rd) ->
     0 <= currentFileIndex_ s ->
     files_size s < 2 ^ 64 ->
     (Z.to_nat (currentFileIndex_ s) + 1 + j = List.length (files_ s))%nat ->
     Forall (opens_empty env (currentLastSeq_ s))
            (skipn (Z.to_nat (currentFileIndex_ s) + 1) (files_ s)) ->
     (j + size_bound env s + 3 <= n)%nat ->
     exists s',
       Next_times env n d (S k) s = Done tt s' /\
       Valid s' = false /\
       currentStatus_ s' = final_status env s) /\
  (forall s f0 recs0 last' n,
     nth_error (files_ s) 0 = Some f0 ->
     OpenLogFile env f0 = (OK, Some recs0) ->
     seek_scan env (startingSequenceNumber_ s) (currentLastSeq_ s) recs0
     = Some last' ->
     files_size s <> 1 ->
     0 <= currentFileIndex_ s < files_size s ->
     files_size s < 2 ^ 64 ->
     Forall (opens_empty env last')
            (skipn (Z.to_nat (currentFileIndex_ s) + 1) (files_ s)) ->
     (2 * files_bound env (files_ s) + 4 <= n)%nat ->
     exists s0,
       SeekToStartSequence env n d 0 false s = Done tt s0 /\
       Valid s0 = false /\
       currentStatus_ s0
       = (if last' =? LastSequence env then OK else NoMoreData) /\
       forall k, exists s',
         Next_times env (S n) d k s0 = Done tt s' /\
         Valid s' = false /\
         currentStatus_ s' = currentStatus_ s0).
Proof.
  split.
  { intros s k n. apply Next_times_past_last_file. }
  split.
  { intros s rd j k n Hst Hrd Hex Hi Hsz Hlen Hrest Hn.
    destruct (Next_runs_past_last_file env d j n s rd Hst Hrd Hex Hi Hsz
                Hlen Hrest Hn) as [s0 [E [V [S0 [P [F L]]]]]].
    cbn [Next_times]. rewrite E.
    destruct k as [|k]; [exists s0; auto|].
    destruct (Next_times_past_last_file env d s0 k n P ltac:(lia))
      as [s' [E' [V' S']]].
    exists s'. split; [exact E'|]. split; [exact V'|congruence]. }
  intros s f0 recs0 last' n Hnth Ho Hscan Hne [Hi Hlt] Hsz Hrest Hn.
  destruct (files_bound_bounds env (files_ s)) as [Hbf Hbl].
  set (m := files_bound env (files_ s)) in *.
  destruct (seek_runs_past_last_file env d m
              (List.length (files_ s) - Z.to_nat (currentFileIndex_ s) - 1)
              n s f0 recs0 last' Hnth Ho Hscan Hne Hi Hsz)
    as [s0 [E [A1 [A2 [A3 [A4 [A5 [A6 [A7 A8]]]]]]]]]; auto.
  { unfold files_size in Hlt. lia. }
  { lia. }
  exists s0. split; [exact E|].
  split; [unfold Valid; rewrite A1; reflexivity|].
  split; [exact A4|].
  assert (Inv : forall k t,
             started_ t = false -> currentLastSeq_ t = last' ->
             currentStatus_ t = currentStatus_ s0 ->
             files_ t = files_ s ->
             startingSequenceNumber_ t = startingSequenceNumber_ s ->
             0 <= currentFileIndex_ t ->
             (Z.to_nat (currentFileIndex_ t) + 1 = List.length (files_ s))%nat ->
             exists s',
               Next_times env (S n) d k t = Done tt s' /\
               Valid s' = false /\ currentStatus_ s' = currentStatus_ s0).
  { induction k as [|k IH]; intros t T1 T2 T3 T4 T5 T6 T7.
    - exists t. split; [reflexivity|].
      split; [unfold Valid; rewrite T1; reflexivity|exact T3].
    - cbn [Next_times]. rewrite (Next_unstarted env n d t T1).
      destruct (seek_runs_past_last_file env d m 0 n (set_isValid false t)
                  f0 recs0 last')
        as [t' [E' [B1 [B2 [B3 [B4 [B5 [B6 [B7 B8]]]]]]]]].
      + cbn. rewrite T4. exact Hnth.
      + exact Ho.
      + cbn. rewrite T5, T2. apply (seek_scan_again env _ _ _ _ Hscan).
      + unfold files_size in *. cbn. rewrite T4. exact Hne.
      + exact T6.
      + unfold files_size in *. cbn. rewrite T4. exact Hsz.
      + cbn. rewrite T4. lia.
      + cbn. rewrite T4.
        replace (Z.to_nat (currentFileIndex_ t) + 1)%nat
          with (List.length (files_ s)) by lia.
        rewrite skipn_all. constructor.
      + cbn. rewrite T4. exact Hbf.
      + cbn. rewrite T4. exact Hbl.
      + lia.
      + rewrite E'. cbn in B5, B6, B8. apply IH; try assumption.
        * rewrite B4, A4. reflexivity.
        * rewrite B5. exact T4.
        * rewrite B6. exact T5.
        * rewrite B8, T4. reflexivity. }
  intros k. apply (Inv k s0); auto.
Qed.

Lemma final_status_sticky_witness :
  let env := mkEnv (one_log [batch 1 2]) 5 in
  let s := state_of (run env 20 1 [live_log 1 1] 1) in
  let env2 := mkEnv (two_logs [batch 1 1] []) 20 in
  let files := [live_log 1 1; live_log 2 2] in
  (currentStatus_ s = NoMoreData /\
   exists s',
     Next_times env 10%nat 1%nat 3%nat s = Done tt s' /\
     Valid s' = false /\
     currentStatus_ s' = final_status env s) /\
  (let env1 := mkEnv (two_logs [batch 1 2] []) 5 in
   let s1 := state_of (run env1 20 1 [live_log 1 1; live_log 2 3] 0) in
   exists s',
     Next_times env1 10%nat 1%nat 3%nat s1 = Done tt s' /\
     Valid s' = false /\
     currentStatus_ s' = final_status env1 s1) /\
  (exists s0,
     TransactionLogIteratorImpl env2 10%nat 1%nat 10 files = Done tt s0 /\
     Valid s0 = false /\
     currentStatus_ s0 = NoMoreData /\
     forall k, exists s',
       Next_times env2 11%nat 1%nat k s0 = Done tt s' /\
       Valid s' = false /\
       currentStatus_ s' = currentStatus_ s0).
Proof.
  cbv zeta. split.
  - split; [vm_compute; reflexivity|].
    apply (proj1 (final_status_sticky (mkEnv (one_log [batch 1 2]) 5) 1%nat)
             (state_of (run (mkEnv (one_log [batch 1 2]) 5) 20 1 [live_log 1 1] 1))
             2%nat 10%nat).
    + split; [vm_compute; reflexivity|]. split.
      * exists (mkReader [] true). split; [vm_compute; reflexivity|].
        right. constructor.
      * vm_compute. intro H. discriminate.
    + vm_compute. lia.
  - split.
    { apply (proj1 (proj2 (final_status_sticky
                             (mkEnv (two_logs [batch 1 2] []) 5) 1%nat))
               (state_of (run (mkEnv (two_logs [batch 1 2] []) 5) 20 1
                              [live_log 1 1; live_log 2 3] 0))
               (mkReader [] false) 1%nat 2%nat 10%nat).
      - vm_compute. reflexivity.
      - vm_compute. reflexivity.
      - right. constructor.
      - vm_compute. discriminate.
      - vm_compute. reflexivity.
      - vm_compute. reflexivity.
      - change (skipn _ _) with [live_log 2 3].
        constructor; [|constructor].
        exists []. split; [reflexivity|]. right. constructor.
      - vm_compute. lia. }
    apply (proj2 (proj2 (final_status_sticky
                           (mkEnv (two_logs [batch 1 1] []) 20) 1%nat))
             (initial 10 [live_log 1 1; live_log 2 2])
             (live_log 1 1) [batch 1 1] 1 10%nat).
    + reflexivity.
    + reflexivity.
    + reflexivity.
    + vm_compute. discriminate.
    + vm_compute. split; [discriminate|reflexivity].
    + vm_compute. reflexivity.
    + change (skipn _ _) with [live_log 2 2].
      constructor; [|constructor].
      exists []. split; [reflexivity|]. right. constructor.
    + vm_compute. lia.
Defined.

(** ** Deliveries while the iterator stays started *)

Lemma settled_idle s s' : settled s' -> idle_keeps s s'.
Proof. intros H Hs Hv. rewrite (H Hs) in Hv. discriminate. Qed.

Lemma holds_RestrictedRead_reader env s :
  holds (RestrictedRead env) s
        (fun _ s1 => exists ord, s1 = set_currentLogReader ord s).
Proof.
  intros r s1 E. destruct (RestrictedRead_inv env s r s1 E) as [H _]. exact H.
Qed.

Lemma holds_OpenLogReader_reader env f s :
  holds (OpenLogReader env f) s
        (fun _ s1 => started_ s1 = started_ s /\
                     currentLastSeq_ s1 = currentLastSeq_ s).
Proof.
  unfold OpenLogReader.
  destruct (OpenLogFile env f) as [[|c m] [file|]];
    unfold bind, modify, ret; intros a s' E; injection E as _ <-;
    split; reflexivity.
Qed.

Section Idle.

Variable env : Env.

Lemma idle_hold : forall fuel,
  (forall d r s,
     holds (UpdateCurrentWriteBatch env fuel d r) s
           (fun _ s' => settled s' /\
                        (started_ s = false ->
                         started_ s' = false /\ isValid_ s' = true))) /\
  (forall d i strict s,
     holds (SeekToStartSequence env fuel d i strict) s
           (fun _ s' => settled s')) /\
  (forall d strict s, started_ s = false ->
     holds (SeekLoop env fuel d strict) s
           (fun b s' => (b = true -> settled s') /\
                        (b = false -> started_ s' = false))) /\
  (forall d internal s, (internal = true -> started_ s = false) ->
     holds (NextImpl env fuel d internal) s
           (fun _ s' => (internal = true -> settled s') /\ idle_keeps s s')) /\
  (forall d internal s, started_ s = negb internal ->
     holds (NextFileLoop env fuel d internal) s
           (fun _ s' => (internal = true -> settled s') /\ idle_keeps s s')) /\
  (forall d internal s, started_ s = negb internal ->
     holds (NextReadLoop env fuel d internal) s
           (fun b s' => (b = true -> settled s') /\
                        (b = false ->
                         started_ s' = started_ s /\
                         currentLastSeq_ s' = currentLastSeq_ s))).
Proof.
  induction fuel as [|n [IHu [IHs [IHl [IHn [IHf IHr]]]]]].
  - repeat apply conj; intros; intros ? ? E; cbn in E; discriminate.
  - repeat apply conj.
    + (* UpdateCurrentWriteBatch *)
      intros d r s. rewrite UpdateCurrentWriteBatch_eq.
      apply holds_bind_get. cbv zeta.
      destruct (started_ s && negb (IsBatchExpected r (u64 (currentLastSeq_ s + 1))))
        eqn:C.
      * assert (Hst : started_ s = true)
          by (destruct (started_ s); [reflexivity|discriminate]).
        apply (holds_bind _ _ _ _ _ (holds_files_at _ s)). intros f s1 ->.
        apply (holds_bind _ _ s (fun _ _ => True)); [intros ? ? ?; exact I|].
        intros _ s1 _.
        apply holds_bind_modify, holds_bind_modify, holds_bind_get.
        destruct d as [|d]; [apply holds_fail; discriminate|].
        eapply holds_weaken; [apply IHs|].
        cbv beta. intros _ s' Q. split; [exact Q|].
        intros Hf. rewrite Hf in Hst. discriminate.
      * intros a s' E. rewrite accept_batch_run in E. injection E as _ <-.
        pose proof (accept_state_fields env r s) as F. cbv zeta in F.
        destruct F as [Fst [_ [_ [_ [_ [Fv _]]]]]].
        split; [intros _; exact Fv|].
        intros Hf. rewrite Fst. split; [exact Hf|exact Fv].
    + (* SeekToStartSequence *)
      intros d i strict s. rewrite SeekToStartSequence_eq.
      apply holds_bind_modify, holds_bind_modify, holds_bind_get.
      set (s0 := set_isValid false (set_started false s)).
      destruct (files_size s0 <=? i);
        [apply holds_ret; intros H; discriminate H|].
      apply (holds_bind _ _ _ _ _ (holds_files_at _ s0)). intros f s1 ->.
      apply (holds_bind _ _ _ _ _ (holds_OpenLogReader_reader env f s0)).
      intros st s1 [S1 _].
      assert (U1 : started_ s1 = false) by (rewrite S1; reflexivity).
      destruct (negb (ok st)).
      { apply holds_modify. intros H. cbn in H. congruence. }
      apply (holds_bind _ _ _ _ _ (IHl d strict s1 U1)).
      intros b s2 [Ht Hf].
      destruct b; [apply holds_ret; apply Ht; reflexivity|].
      specialize (Hf eq_refl).
      destruct strict.
      { apply holds_modify. intros H. cbn in H. congruence. }
      apply holds_bind_get.
      destruct (negb (files_size s2 =? 1));
        [|apply holds_ret; intros H; congruence].
      apply holds_bind_modify.
      eapply holds_weaken; [apply (IHn d true); intros _; exact Hf|].
      cbv beta. intros _ s' [Q _]. apply Q. reflexivity.
    + (* SeekLoop *)
      intros d strict s Hst. rewrite SeekLoop_eq.
      apply (holds_bind _ _ _ _ _ (holds_RestrictedRead_reader env s)).
      intros r s1 [ord ->].
      set (s1 := set_currentLogReader ord s).
      assert (Hst1 : started_ s1 = false) by exact Hst.
      destruct r as [record|];
        [|apply holds_ret; split; [discriminate|intros _; exact Hst1]].
      destruct (size record <? 12); [apply IHl; exact Hst1|].
      apply (holds_bind _ _ _ _ _ (IHu d record s1)).
      intros _ s2 [_ S2]. destruct (S2 Hst1) as [S2s S2v].
      apply holds_bind_get.
      destruct (startingSequenceNumber_ s2 <=? currentLastSeq_ s2).
      * destruct (strict && negb (currentBatchSeq_ s2 =? startingSequenceNumber_ s2)).
        -- apply holds_bind_modify, holds_ret.
           split; [|discriminate]. intros _ H. cbn in H. congruence.
        -- apply holds_bind_modify, holds_bind_modify, holds_ret.
           split; [|discriminate]. intros _ _. reflexivity.
      * apply holds_bind_modify. apply IHl. exact S2s.
    + (* NextImpl *)
      intros d internal s Hin. rewrite NextImpl_eq.
      apply holds_bind_modify, holds_bind_get.
      change (started_ (set_isValid false s)) with (started_ s).
      destruct (negb internal && negb (started_ s)) eqn:C.
      * eapply holds_weaken; [apply IHs|].
        cbv beta. intros _ s' Q. split; [intros _; exact Q|].
        apply settled_idle, Q.
      * eapply holds_weaken.
        { apply (IHf d internal).
          change (started_ (set_isValid false s)) with (started_ s).
          destruct internal; [apply Hin; reflexivity|].
          destruct (started_ s); [reflexivity|discriminate]. }
        cbv beta. intros _ s' [Q K]. split; [exact Q|exact K].
    + (* NextFileLoop *)
      intros d internal s Hst. rewrite NextFileLoop_eq.
      apply holds_bind_get.
      destruct (currentLogReader_ s) as [rd|]; [|apply holds_fail; discriminate].
      apply (holds_bind _ _ s (fun _ s1 => started_ s1 = started_ s /\
                                            currentLastSeq_ s1 = currentLastSeq_ s)).
      { unfold when. destruct (IsEOF rd);
          [apply holds_modify|apply holds_ret]; split; reflexivity. }
      intros _ s1 [S1 L1].
      assert (Hst1 : started_ s1 = negb internal) by (rewrite S1; exact Hst).
      apply (holds_bind _ _ _ _ _ (IHr d internal s1 Hst1)).
      intros b s2 [Ht Hf].
      destruct b.
      { apply holds_ret. specialize (Ht eq_refl).
        split; [intros _; exact Ht|apply settled_idle, Ht]. }
      destruct (Hf eq_refl) as [S2 L2].
      assert (Hst2 : started_ s2 = negb internal) by congruence.
      assert (L2' : currentLastSeq_ s2 = currentLastSeq_ s) by congruence.
      assert (Fin : forall s', started_ s' = started_ s2 ->
                               currentLastSeq_ s' = currentLastSeq_ s2 ->
                               (internal = true -> settled s') /\ idle_keeps s s').
      { intros s' Hs Hl. split.
        - intros ->. intros H. cbn in Hst2. congruence.
        - intros _ _. congruence. }
      apply holds_bind_get.
      destruct (currentFileIndex_ s2 <? u64 (files_size s2 - 1)).
      * apply holds_bind_modify, holds_bind_get.
        set (s3 := set_currentFileIndex (u64 (currentFileIndex_ s2 + 1)) s2).
        apply (holds_bind _ _ _ _ _ (holds_files_at _ s3)). intros f s4 ->.
        apply (holds_bind _ _ _ _ _ (holds_OpenLogReader_reader env f s3)).
        intros st s4 [S4 L4].
        destruct (negb (ok st)).
        -- apply holds_bind_modify, holds_modify. apply Fin; cbn; assumption.
        -- eapply holds_weaken.
           { apply (IHf d internal). rewrite S4. exact Hst2. }
           cbv beta. intros _ s' [Q K]. split; [exact Q|].
           intros Hs Hv. rewrite (K Hs Hv), L4. exact L2'.
      * apply holds_bind_modify.
        destruct (currentLastSeq_ s2 =? LastSequence env);
          apply holds_modify; apply Fin; reflexivity.
    + (* NextReadLoop *)
      intros d internal s Hst. rewrite NextReadLoop_eq.
      apply (holds_bind _ _ _ _ _ (holds_RestrictedRead_reader env s)).
      intros r s1 [ord ->].
      set (s1 := set_currentLogReader ord s).
      assert (Hst1 : started_ s1 = negb internal) by exact Hst.
      destruct r as [record|];
        [|apply holds_ret; split; [discriminate|intros _; split; reflexivity]].
      destruct (size record <? 12).
      { eapply holds_weaken; [apply IHr; exact Hst1|].
        cbv beta. intros b s2 [Ht Hf]. split; [exact Ht|exact Hf]. }
      apply holds_bind_get.
      apply (holds_bind _ _ s1 (fun _ s2 => s2 = s1)).
      { unfold assert_. rewrite Hst1.
        replace (internal || negb internal) with true
          by (destruct internal; reflexivity).
        apply holds_ret. reflexivity. }
      intros _ s2 ->.
      apply (holds_bind _ _ s1 (fun _ s2 => s2 = s1)).
      { unfold assert_. rewrite Hst1.
        replace (negb internal || negb (negb internal)) with true
          by (destruct internal; reflexivity).
        apply holds_ret. reflexivity. }
      intros _ s2 ->.
      apply (holds_bind _ _ _ _ _ (IHu d record s1)).
      intros _ s2 [Q S2]. apply holds_bind_get.
      unfold when. destruct (internal && negb (started_ s2)) eqn:C.
      * apply holds_bind_modify, holds_ret. split; [|discriminate].
        intros _ _. cbn.
        assert (Hi : internal = true)
          by (destruct internal; [reflexivity|discriminate]).
        apply S2. rewrite Hst1, Hi. reflexivity.
      * apply holds_bind_ret, holds_ret. split; [intros _; exact Q|discriminate].
Qed.

(** A [Next] on a started iterator that leaves it started and not valid
    has not moved the last sequence. *)
Lemma Next_idle fuel d s t :
  Next env fuel d s = Done tt t ->
  started_ t = true -> Valid t = false ->
  currentLastSeq_ t = currentLastSeq_ s.
Proof.
  intros E Hs Hv. unfold Next in E.
  destruct (proj1 (proj2 (proj2 (proj2 (idle_hold fuel)))) d false s
              ltac:(discriminate) tt t E) as [_ K].
  apply K; [exact Hs|]. unfold Valid in Hv. rewrite Hs in Hv. exact Hv.
Qed.

Lemma waits_keeps s t :
  waits env s t -> started_ s = true ->
  started_ t = true /\ currentLastSeq_ t = currentLastSeq_ s.
Proof.
  induction 1 as [s|fuel d s t u E Hs Hv W IH]; intros Hst; [auto|].
  destruct (IH Hs) as [H1 H2]. split; [exact H1|].
  rewrite H2. apply (Next_idle fuel (S d) s t E Hs Hv).
Qed.

End Idle.

(** X20. While the iterator stays started, deliveries are contiguous
    whatever the number of calls of [Next] between them.  Let [GetBatch]
    deliver the batch [b1] in a valid state; let calls of [Next] follow that
    each leave the iterator started and not valid (a file that cannot be
    opened, the end of the list); and let one more [Next] make the iterator
    valid again.  Then [GetBatch] delivers a batch that starts at the
    sequence of [b1] plus the count of [b1], the sum taken on 64-bit
    sequence numbers. *)
Theorem deliveries_contiguous_while_started env s r1 s1 b1 t fuel d s2 r2 s3 :
  reachable env s ->
  Valid s = true ->
  GetBatch s = Done r1 s1 ->
  writeBatchPtr r1 = Some b1 ->
  waits env s1 t ->
  Next env fuel (S d) t = Done tt s2 ->
  Valid s2 = true ->
  GetBatch s2 = Done r2 s3 ->
  sequence r1 = Sequence b1 /\
  exists b2,
    writeBatchPtr r2 = Some b2 /\
    sequence r2 = Sequence b2 /\
    sequence r2 = u64 (sequence r1 + Count b1) /\
    (0 <= sequence r1 + Count b1 < 2 ^ 64 ->
     sequence r2 = sequence r1 + Count b1).
Proof.
  intros R V G1 Hb1 W N V2 G2.
  assert (Hv : isValid_ s = true /\ started_ s = true).
  { unfold Valid in V. apply andb_true_iff in V. tauto. }
  destruct Hv as [Hv Hst].
  rewrite (GetBatch_run s Hv) in G1. injection G1 as <- <-.
  cbn in Hb1.
  destruct (reachable_batch env s R V) as [Hn|[b [Hb [Hq Hl]]]]; [congruence|].
  assert (b = b1) by congruence. subst b.
  destruct (waits_keeps env _ t W Hst) as [Hstt Hlt]. cbn in Hlt.
  destruct (proj2 (Next_spec env d 0 fuel _) tt s2 N) as [[_ [P C]] _].
  destruct (P V2) as [[b2 [Hb2 [Hq2 Hl2]]] _].
  specialize (C Hstt V2).
  assert (Hv2 : isValid_ s2 = true).
  { unfold Valid in V2. apply andb_true_iff in V2. tauto. }
  rewrite (GetBatch_run s2 Hv2) in G2. injection G2 as <- <-.
  cbn. split; [exact Hq|].
  exists b2. split; [exact Hb2|]. split; [exact Hq2|].
  assert (E : currentBatchSeq_ s2 = u64 (currentBatchSeq_ s + Count b1)).
  { rewrite C, Hlt, Hl, Hq. apply u64_succ_pred. }
  split; [exact E|].
  intros Hfit. rewrite E. unfold u64. apply Z.mod_small. exact Hfit.
Qed.

Lemma deliveries_contiguous_while_started_witness :
  let files := [live_log 1 1; live_log 2 3; live_log 3 3] in
  let s := state_of (run missing_log_env 20 1 files 0) in
  let s1 := set_currentBatch None s in
  let t := state_of (Next missing_log_env 20 1 s1) in
  let s2 := state_of (Next missing_log_env 20 1 t) in
  let r1 := mkBatchResult 1 (Some (batch 1 2)) in
  let r2 := mkBatchResult 3 (Some (batch 3 1)) in
  Valid t = false /\
  sequence r1 = Sequence (batch 1 2) /\
  exists b2,
    writeBatchPtr r2 = Some b2 /\
    sequence r2 = Sequence b2 /\
    sequence r2 = u64 (sequence r1 + Count (batch 1 2)) /\
    (0 <= sequence r1 + Count (batch 1 2) < 2 ^ 64 ->
     sequence r2 = sequence r1 + Count (batch 1 2)).
Proof.
  intros files s s1 t s2 r1 r2.
  split; [vm_compute; reflexivity|].
  apply (deliveries_contiguous_while_started missing_log_env s r1 s1 (batch 1 2)
           t 20 0 s2 r2 (set_currentBatch None s2)).
  - apply (reach_new missing_log_env 20 1 1 files); vm_compute; reflexivity.
  - vm_compute. reflexivity.
  - vm_compute. reflexivity.
  - reflexivity.
  - apply (waits_Next missing_log_env 20 0 s1 t t).
    + vm_compute. reflexivity.
    + vm_compute. reflexivity.
    + vm_compute. reflexivity.
    + apply waits_here.
  - vm_compute. reflexivity.
  - vm_compute. reflexivity.
  - vm_compute. reflexivity.
Defined.
